(** * SP800-90 Hash_DRBG of the ICC (icc/fips-prng/SP800-90HashData.c)

    A shallow embedding of [Hash_df], [SHA_Instantiate], [SHA_ReSeed],
    [SHA_Generate], [SHA_Cleanup] and of the SHA-1 known answer table,
    followed by the properties of the specification that concern them. *)

From Stdlib Require Import List NArith Arith Lia Bool.
From Stdlib Require String.
Import String.StringSyntax.
From Stdlib Require Import Init.Byte Strings.Byte.
Import ListNotations.

(** ** Bytes and big-endian numbers *)

Local Open Scope N_scope.

(** The low eight bits of a number, as an [unsigned char]. *)
Definition byte_of_N (n : N) : byte :=
  match Byte.of_N (n mod 256) with
  | Some b => b
  | None => x00
  end.

(** The value of a buffer read as a big-endian integer. *)
Definition be2N (l : list byte) : N :=
  fold_left (fun acc x => acc * 256 + Byte.to_N x) l 0.

(** The same with the least significant octet first. *)
Fixpoint le2N (l : list byte) : N :=
  match l with
  | [] => 0
  | x :: l' => Byte.to_N x + 256 * le2N l'
  end.

(** [len] octets, most significant first, of [x mod 2^(8*len)]. *)
Fixpoint N2be (len : nat) (x : N) : list byte :=
  match len with
  | O => []
  | S n => N2be n (x / 256) ++ [byte_of_N x]
  end.

Definition zeros (n : nat) : list byte := repeat x00 n.

(** [memcpy(dst, src, n)]: the first [n] bytes of [dst] are replaced. *)
Definition memcpy (dst src : list byte) (n : nat) : list byte :=
  firstn n src ++ skipn n dst.

(** [memcpy(dst + off, src, n)]. *)
Definition memcpy_at (dst : list byte) (off : nat) (src : list byte) (n : nat)
  : list byte :=
  firstn off dst ++ firstn n src ++ skipn (off + n) dst.

(** [memset(dst, 0, n)]. *)
Definition memset0 (dst : list byte) (n : nat) : list byte :=
  zeros n ++ skipn n dst.

(** [counter ++] on an [unsigned char]. *)
Definition byte_succ (c : byte) : byte := byte_of_N (Byte.to_N c + 1).

Local Close Scope N_scope.

(** ** Helpers of the repository that live outside this file *)

(** Modelled from the spec: [uint2BS] (utils.h) is not part of the file; the
    specification says that [no_of_bits] is 32-bit big-endian.  The argument
    is an [unsigned int], so it is taken modulo 2^32. *)
Definition uint2BS (x : N) : list byte :=
  N2be 4 (x mod 2 ^ 32)%N.

(** Right-to-left addition with carry; both operands have their least
    significant octet first, and the result has the length of [a]. *)
Fixpoint add_carry (a b : list byte) (carry : N) : list byte :=
  match a with
  | [] => []
  | x :: a' =>
      let s := (Byte.to_N x + Byte.to_N (hd x00 b) + carry)%N in
      byte_of_N s :: add_carry a' (tl b) (s / 256)%N
  end.

(** Modelled from the spec: [Add] (utils.h) is not part of the file.
    [Add(dst, a, a_len, b, hint)] computes [dst = (a + b) mod 2^(8*a_len)] on
    big-endian operands; [hint = 0] says that [b] is [a_len] bytes long, and a
    positive [hint] is the length of a shorter [b], aligned with the tail of
    [a].  The carry runs from right to left, and the operands are read before
    [dst] is written, so they may alias it. *)
Definition Add (dst a : list byte) (a_len : nat) (b : list byte) (hint : nat)
  : list byte :=
  let b_len := if Nat.eqb hint 0 then a_len else hint in
  rev (add_carry (rev (firstn a_len a)) (rev (firstn b_len b)) 0)
  ++ skipn a_len dst.

(** ** Memory

    The data stack of [Hash_df] keeps pointers, not copies, so the model keeps
    pointers too and reads through them at the time of each digest update. *)

(** The four buffers of a PRNG context. *)
Inductive ctx_buf : Type := BufV | BufC | BufT | BufE.

Inductive pointer : Type :=
| NULL
| Mem (bs : list byte)   (* memory this file only reads: caller input, constants *)
| Ctx (b : ctx_buf)      (* pctx->V, pctx->C, pctx->T, pctx->eBuf *)
| Counter                (* &counter, local to Hash_df *)
| Outbits.               (* outbits, local to Hash_df *)

Definition is_null (p : pointer) : bool :=
  match p with NULL => true | _ => false end.

Definition C00 : pointer := Mem [x00].
Definition C01 : pointer := Mem [x01].
Definition C02 : pointer := Mem [x02].
Definition C03 : pointer := Mem [x03].

(** ** The data stack (ds.h)

    Modelled from the spec: the data stack is not part of the file.  It is an
    ordered sequence of [(len, ptr)] fragments with a cursor; [total] counts
    the bytes still to be traversed, which is what the loop
    [while(in->total)] of [Hash_df] relies on. *)
Record DS : Type := mkDS {
  dse : list (nat * pointer);
  index : nat;
  total : nat
}.

Definition DS_Init : DS := mkDS [] 0 0.

Definition DS_Append (ds : DS) (n : nat) (data : pointer) : DS :=
  mkDS (dse ds ++ [(n, data)]) (index ds) (total ds + n).

Definition DS_Insert (ds : DS) (n : nat) (data : pointer) : DS :=
  mkDS ((n, data) :: dse ds) (index ds) (total ds + n).

Definition DS_Reset (ds : DS) : DS :=
  mkDS (dse ds) 0 (list_sum (map fst (dse ds))).

(** The next fragment, or [(0, NULL)] at the end of the sequence. *)
Definition DS_Extract (ds : DS) : DS * nat * pointer :=
  match nth_error (dse ds) (index ds) with
  | Some (n, data) => (mkDS (dse ds) (S (index ds)) (total ds - n), n, data)
  | None => (ds, 0, NULL)
  end.

(** ** The profile and the context (SP800-90.h, SP800-90i.h) *)

(** Modelled from the spec: the state codes are declared outside the file,
    which names only [SP800_90ERROR]; the others are the modes of the
    specification. *)
Inductive SP800_90STATE : Type :=
| SP800_90UNINIT
| SP800_90READY
| SP800_90RESEED
| SP800_90ERROR.

Inductive SP800_90PRNG_mode : Type :=
| SP800_SHA1 | SP800_SHA224 | SP800_SHA256 | SP800_SHA384 | SP800_SHA512.

Inductive SP800_FIPS : Type := SP800_IS_FIPS | SP800_NON_FIPS.

Record StringBuf : Type := mkStringBuf {
  reserved : nat;
  len : nat;
  buf : list byte
}.

(** Modelled from the spec: one strength slot of the known answer table; the
    structure is declared outside the file, the positions are those of the
    specification's KAT vector layout. *)
Record KAT : Type := mkKAT {
  kat_ein : StringBuf;
  kat_nonce : StringBuf;
  kat_personalization : StringBuf;
  kat_reseed_ein : StringBuf;
  kat_generate_ein : StringBuf;
  kat_expected : StringBuf
}.

(** The data fields of [SP800_90PRNG_t], in the order of the initialisers.
    The eight method pointers of the structure (Inst, Res, Gen, Cln and the
    four functions below) are not data and are left out. *)
Record SP800_90PRNG_t : Type := mkPRNG {
  prng_type : SP800_90PRNG_mode;
  seedlen : nat;
  max_nonce : N;
  max_pers : N;
  max_aad : N;
  max_bytes : N;
  max_resets : N;
  OBL : nat;
  max_entropy : N;
  secS : list nat;
  prngname : String.string;
  specific : String.string;
  hasDF : nat;
  FIPS : SP800_FIPS;
  selftest_at : nat;
  selftest_count : nat;
  TestData : list KAT
}.

(** A digest of the crypto provider: its output length and its function. *)
Record EVP_MD : Type := mkMD {
  md_size : nat;
  HASH : list byte -> list byte
}.

(** A digest context: the digest it was initialised with, if any, and the
    bytes absorbed since. *)
Record EVP_MD_CTX : Type := mkMDCTX {
  digest : option EVP_MD;
  absorbed : list byte
}.

Definition EVP_MD_CTX_new : EVP_MD_CTX := mkMDCTX None [].

(** [SP800_90PRNG_Data_t].  [evp_log] is not a field of the structure: it
    records the return value of every digest init, update and finalise made
    so far, newest first. *)
Record SP800_90PRNG_Data_t : Type := mkData {
  prng : SP800_90PRNG_t;
  state : SP800_90STATE;
  error_reason : String.string;
  V : list byte;
  C : list byte;
  T : list byte;
  eBuf : list byte;
  CallCount_c : list byte;
  alg_md : option EVP_MD;
  md_ctx : option EVP_MD_CTX;
  evp_log : list bool
}.

Definition set_state (s : SP800_90STATE) (p : SP800_90PRNG_Data_t) :=
  mkData (prng p) s (error_reason p) (V p) (C p) (T p) (eBuf p)
         (CallCount_c p) (alg_md p) (md_ctx p) (evp_log p).
Definition set_error_reason (e : String.string) (p : SP800_90PRNG_Data_t) :=
  mkData (prng p) (state p) e (V p) (C p) (T p) (eBuf p)
         (CallCount_c p) (alg_md p) (md_ctx p) (evp_log p).
Definition set_V (v : list byte) (p : SP800_90PRNG_Data_t) :=
  mkData (prng p) (state p) (error_reason p) v (C p) (T p) (eBuf p)
         (CallCount_c p) (alg_md p) (md_ctx p) (evp_log p).
Definition set_C (v : list byte) (p : SP800_90PRNG_Data_t) :=
  mkData (prng p) (state p) (error_reason p) (V p) v (T p) (eBuf p)
         (CallCount_c p) (alg_md p) (md_ctx p) (evp_log p).
Definition set_T (v : list byte) (p : SP800_90PRNG_Data_t) :=
  mkData (prng p) (state p) (error_reason p) (V p) (C p) v (eBuf p)
         (CallCount_c p) (alg_md p) (md_ctx p) (evp_log p).
Definition set_eBuf (v : list byte) (p : SP800_90PRNG_Data_t) :=
  mkData (prng p) (state p) (error_reason p) (V p) (C p) (T p) v
         (CallCount_c p) (alg_md p) (md_ctx p) (evp_log p).
Definition set_alg_md (m : option EVP_MD) (p : SP800_90PRNG_Data_t) :=
  mkData (prng p) (state p) (error_reason p) (V p) (C p) (T p) (eBuf p)
         (CallCount_c p) m (md_ctx p) (evp_log p).
Definition set_md_ctx (c : option EVP_MD_CTX) (p : SP800_90PRNG_Data_t) :=
  mkData (prng p) (state p) (error_reason p) (V p) (C p) (T p) (eBuf p)
         (CallCount_c p) (alg_md p) c (evp_log p).
Definition set_evp_log (l : list bool) (p : SP800_90PRNG_Data_t) :=
  mkData (prng p) (state p) (error_reason p) (V p) (C p) (T p) (eBuf p)
         (CallCount_c p) (alg_md p) (md_ctx p) l.

Definition get_buf (b : ctx_buf) (p : SP800_90PRNG_Data_t) : list byte :=
  match b with BufV => V p | BufC => C p | BufT => T p | BufE => eBuf p end.

Definition set_buf (b : ctx_buf) (v : list byte) (p : SP800_90PRNG_Data_t) :=
  match b with
  | BufV => set_V v p | BufC => set_C v p
  | BufT => set_T v p | BufE => set_eBuf v p
  end.

(** [n] bytes read at [ptr]; [counter] and [outbits] are the locals of
    [Hash_df] (other callers have no pointer to them). *)
Definition load (p : SP800_90PRNG_Data_t) (counter : byte)
           (outbits : list byte) (ptr : pointer) (n : nat) : list byte :=
  firstn n match ptr with
           | NULL => []
           | Mem bs => bs
           | Ctx b => get_buf b p
           | Counter => [counter]
           | Outbits => outbits
           end.

(** Modelled from the spec: the macro [ERRAT] is defined outside the file; it
    yields the diagnostic string kept in [error_reason]. *)
Definition ERRAT (msg : String.string) : String.string := msg.

(** The bytes a data stack stands for, read in the memory of [p]. *)
Definition DS_bytes (p : SP800_90PRNG_Data_t) (counter : byte)
           (outbits : list byte) (ds : DS) : list byte :=
  concat (map (fun f => load p counter outbits (snd f) (fst f)) (dse ds)).

(** ** The known answer data of the SHA-1 profile *)

(** Representation of no input data for the PRNG self tests. *)
Definition NONE : StringBuf := mkStringBuf 0 0 [x00].

Definition SHA1_112IntEin : StringBuf :=
  mkStringBuf 0 16
   [
     xdc; x10; x6a; xce; x9f; xf5; x7c; x68;
     x13; x1e; xa2; xee; x75; xc6; x58; x5a
   ].

Definition SHA1_112IntNon : StringBuf :=
  mkStringBuf 0 8
   [
     x6a; x36; x0c; x6f; x7b; xd4; x60; x1e
   ].

Definition SHA1_112IntPer : StringBuf :=
  mkStringBuf 0 16
   [
     x6b; xd1; x58; x91; x56; x95; x25; x24;
     xba; x1f; x9b; x14; x06; x59; xba; xf2
   ].

Definition SHA1_112Result : StringBuf :=
  mkStringBuf 0 64
   [
     x36; x54; xd1; x94; xa7; x57; xd6; x29;
     x3c; xcd; x30; x14; x39; xa2; xf6; x3e;
     x81; xcb; xbb; x03; x1f; x6b; x47; x87;
     x0f; xf0; xc4; x1c; xf1; x2a; xf6; x3f;
     x1c; x8e; x4d; x25; xf4; x4b; x90; x9f;
     x27; x6d; xd0; x92; x37; x3a; x20; xdb;
     x2a; xd6; x68; x06; x52; xce; x9a; x87;
     xba; x6e; x56; xea; xb2; x01; xcb; xec
   ].

Definition SHA1_128IntEin : StringBuf :=
  mkStringBuf 0 16
   [
     xb6; xda; x6d; xc2; xad; x08; xba; x10;
     xf7; x8e; x6e; x83; x01; x57; x8a; x52
   ].

Definition SHA1_128IntNon : StringBuf :=
  mkStringBuf 0 8
   [
     x47; xb4; xda; x6f; x90; x32; xaf; x0c
   ].

Definition SHA1_128GenEin : StringBuf :=
  mkStringBuf 0 16
   [
     x7b; xbb; x14; x85; x07; x4a; xf4; xd9;
     x5a; xad; x86; x66; x3a; xc8; x8c; xe6
   ].

Definition SHA1_128Result : StringBuf :=
  mkStringBuf 0 20
   [
     x97; x34; xed; x8a; xd4; x1a; x59; x6f;
     x86; x38; x95; x72; xea; x7a; x77; x7b;
     x08; xb3; x6e; x7f
   ].

(** The four strength slots of [sha1PRNG], each a 6-tuple. *)
Definition sha1_TestData : list KAT :=
  [ mkKAT SHA1_112IntEin SHA1_112IntNon SHA1_112IntPer NONE NONE
          SHA1_112Result;
    mkKAT SHA1_128IntEin SHA1_128IntNon NONE NONE SHA1_128GenEin
          SHA1_128Result;
    mkKAT NONE NONE NONE NONE NONE NONE;
    mkKAT NONE NONE NONE NONE NONE NONE ].

Local Open Scope string_scope.

(** [sha1PRNG]; the macro [SELF_TEST_AT] is defined outside the file and is
    taken as a parameter. *)
Definition sha1PRNG (SELF_TEST_AT : nat) : SP800_90PRNG_t :=
  mkPRNG SP800_SHA1
         (440 / 8)
         (2 ^ 27)%N    (* Max nonce *)
         (2 ^ 27)%N    (* max personalization data *)
         (2 ^ 27)%N    (* max AAD *)
         (2 ^ 11)%N    (* max bytes/request *)
         0x00FFFFFF%N  (* Max calls between reseeds *)
         (160 / 8)     (* Block size *)
         (2 ^ 27)%N    (* Max allowed entropy input *)
         [112; 128; 0; 0]
         "SHA1"
         "SHA1"
         1
         SP800_NON_FIPS
         SELF_TEST_AT
         0
         sha1_TestData.

Local Close Scope string_scope.

(** ** SHA-1 (FIPS 180-4)

    The digest of the [sha1PRNG] profile, used to run the functions on
    concrete inputs. *)

Module SHA1.

Local Open Scope N_scope.

Definition w32 (x : N) : N := x mod 2 ^ 32.

Definition rotl (n x : N) : N :=
  w32 (N.lor (N.shiftl x n) (N.shiftr x (32 - n))).

Definition pad (msg : list byte) : list byte :=
  let l := length msg in
  let k := ((64 - (l + 9) mod 64) mod 64)%nat in
  msg ++ [x80] ++ zeros k ++ N2be 8 (N.of_nat l * 8).

Fixpoint words (n : nat) (bs : list byte) : list N :=
  match n with
  | O => []
  | S n' => be2N (firstn 4 bs) :: words n' (skipn 4 bs)
  end.

(** The message schedule, newest word first. *)
Fixpoint expand (n : nat) (w : list N) : list N :=
  match n with
  | O => w
  | S n' =>
      let x := N.lxor (N.lxor (nth 2 w 0) (nth 7 w 0))
                      (N.lxor (nth 13 w 0) (nth 15 w 0)) in
      expand n' (rotl 1 x :: w)
  end.

Definition regs : Type := N * N * N * N * N.

Definition f_k (t : nat) (b c d : N) : N * N :=
  if Nat.ltb t 20 then
    (N.lor (N.land b c) (N.land (N.lxor b 0xFFFFFFFF) d), 0x5A827999)
  else if Nat.ltb t 40 then
    (N.lxor (N.lxor b c) d, 0x6ED9EBA1)
  else if Nat.ltb t 60 then
    (N.lor (N.lor (N.land b c) (N.land b d)) (N.land c d), 0x8F1BBCDC)
  else
    (N.lxor (N.lxor b c) d, 0xCA62C1D6).

Fixpoint rounds (t : nat) (w : list N) (r : regs) : regs :=
  match w with
  | [] => r
  | wt :: w' =>
      let '(a, b, c, d, e) := r in
      let (f, k) := f_k t b c d in
      rounds (S t) w' (w32 (rotl 5 a + f + e + k + wt), a, rotl 30 b, c, d)
  end.

Definition block (h : regs) (bs : list byte) : regs :=
  let w := rev (expand 64 (rev (words 16 bs))) in
  let '(h0, h1, h2, h3, h4) := h in
  let '(a, b, c, d, e) := rounds 0 w h in
  (w32 (h0 + a), w32 (h1 + b), w32 (h2 + c), w32 (h3 + d), w32 (h4 + e)).

Fixpoint blocks (n : nat) (h : regs) (bs : list byte) : regs :=
  match n with
  | O => h
  | S n' => blocks n' (block h (firstn 64 bs)) (skipn 64 bs)
  end.

Definition sha1 (msg : list byte) : list byte :=
  let m := pad msg in
  let '(h0, h1, h2, h3, h4) :=
    blocks (length m / 64)
           (0x67452301, 0xEFCDAB89, 0x98BADCFE, 0x10325476, 0xC3D2E1F0) m in
  N2be 4 h0 ++ N2be 4 h1 ++ N2be 4 h2 ++ N2be 4 h3 ++ N2be 4 h4.

Definition md : EVP_MD := mkMD 20 sha1.

End SHA1.

(** ** The Hash_DRBG functions *)

Section HashDRBG.

(** The crypto provider: the digest lookup by name, and whether the [k]-th
    digest primitive call (init, update or finalise) of a run succeeds. *)
Variable EVP_get_digestbyname : String.string -> option EVP_MD.
Variable evp_ok : nat -> bool.

Local Open Scope string_scope.

Definition evp_return (ok : bool) (p : SP800_90PRNG_Data_t) :=
  set_evp_log (ok :: evp_log p) p.

(** [EVP_DigestInit(pctx->ctx.md_ctx, pctx->alg.md)].  The digest
    primitives belong to the crypto provider: a call succeeds when the
    provider says so and its arguments make sense (here a context and a
    digest that are not [NULL]); every call is logged with its result.
    The functions of the file hand [pctx->ctx.md_ctx] over unguarded and the
    library does not define a call on a [NULL] context or digest: the
    branch that logs such a call as failed only keeps the function total,
    and the statements about [Hash_df], [SHA_ReSeed] and [SHA_Generate]
    assume that both are there. *)
Definition EVP_DigestInit (p : SP800_90PRNG_Data_t)
  : bool * SP800_90PRNG_Data_t :=
  match md_ctx p, alg_md p with
  | Some _, Some md =>
      if evp_ok (length (evp_log p))
      then (true, evp_return true (set_md_ctx (Some (mkMDCTX (Some md) [])) p))
      else (false, evp_return false p)
  | _, _ => (false, evp_return false p)
  end.

(** [EVP_DigestUpdate(pctx->ctx.md_ctx, ptr, n)], [data] being the [n] bytes
    at [ptr]; the context must have been initialised. *)
Definition EVP_DigestUpdate (p : SP800_90PRNG_Data_t) (data : list byte)
  : bool * SP800_90PRNG_Data_t :=
  match md_ctx p with
  | Some (mkMDCTX (Some md) a) =>
      if evp_ok (length (evp_log p))
      then (true,
            evp_return true (set_md_ctx (Some (mkMDCTX (Some md) (a ++ data))) p))
      else (false, evp_return false p)
  | _ => (false, evp_return false p)
  end.

(** [EVP_DigestFinal(pctx->ctx.md_ctx, dst, &l)]: the digest of the absorbed
    bytes is written at the start of the buffer [dst] and its length is
    returned in [l].  When the call fails [l] is not written; every caller
    returns at once on that path, and the model hands back 0. *)
Definition EVP_DigestFinal (p : SP800_90PRNG_Data_t) (dst : ctx_buf)
  : bool * SP800_90PRNG_Data_t * nat :=
  match md_ctx p with
  | Some (mkMDCTX (Some md) a) =>
      if evp_ok (length (evp_log p))
      then (true,
            evp_return true
              (set_buf dst (memcpy (get_buf dst p) (HASH md a) (md_size md)) p),
            md_size md)
      else (false, evp_return false p, 0)
  | _ => (false, evp_return false p, 0)
  end.

Definition EVP_MD_CTX_reset (p : SP800_90PRNG_Data_t) :=
  match md_ctx p with
  | Some _ => set_md_ctx (Some EVP_MD_CTX_new) p
  | None => p
  end.

(** The three statements of every failure branch. *)
Definition failed (msg : String.string) (p : SP800_90PRNG_Data_t) :=
  EVP_MD_CTX_reset (set_state SP800_90ERROR (set_error_reason (ERRAT msg) p)).

(** The inner loop of [Hash_df]: [while(in->total) { DS_Extract; update }].
    The boolean is [false] when the function returned from inside the loop. *)
Fixpoint Hash_df_update (fuel : nat) (p : SP800_90PRNG_Data_t) (in_ : DS)
         (counter : byte) (outbits : list byte)
  : option (bool * SP800_90PRNG_Data_t * DS) :=
  match fuel with
  | O => None
  | S fuel' =>
      if Nat.eqb (total in_) 0 then Some (true, p, in_)
      else
        let '(in1, n, ptr) := DS_Extract in_ in
        let (ok, p1) := EVP_DigestUpdate p (load p counter outbits ptr n) in
        if ok then Hash_df_update fuel' p1 in1 counter outbits
        else Some (false, failed "Digest Init failed" p1, in1)
  end.

(** The outer loop of [Hash_df], [while(outl > 0)], with the [memset] that
    follows it.  [off] is how far [out] has advanced. *)
Fixpoint Hash_df_loop (fuel : nat) (p : SP800_90PRNG_Data_t) (in_ : DS)
         (counter : byte) (outbits : list byte) (out : ctx_buf)
         (off outl digestL : nat) : option SP800_90PRNG_Data_t :=
  match fuel with
  | O => None
  | S fuel' =>
      if Nat.eqb outl 0 then Some (set_T (memset0 (T p) digestL) p)
      else
        let (ok, p1) := EVP_DigestInit p in
        if negb ok then Some (failed "Digest Init failed" p1)
        else
          let in1 := DS_Reset in_ in
          match Hash_df_update (S (length (dse in1))) p1 in1 counter outbits with
          | None => None
          | Some (false, p2, _) => Some p2
          | Some (true, p2, in2) =>
              let '(ok, p3, digestL') := EVP_DigestFinal p2 BufT in
              if negb ok then Some (failed "Digest Final failed" p3)
              else
                let p4 := EVP_MD_CTX_reset p3 in
                let j := if Nat.ltb digestL' outl then digestL' else outl in
                let p5 :=
                  set_buf out (memcpy_at (get_buf out p4) off (T p4) j) p4 in
                Hash_df_loop fuel' p5 in2 (byte_succ counter) outbits out
                             (off + j) (outl - j) digestL'
          end
  end.

(** [Hash_df(pctx, in, out, outl)]; [out] is [pctx->V] or [pctx->C] at every
    call.  No result means that the loop does not end. *)
Definition Hash_df (p : SP800_90PRNG_Data_t) (in_ : DS) (out : ctx_buf)
           (outl : nat) : option SP800_90PRNG_Data_t :=
  let counter := x01 in
  let outbits := uint2BS (N.of_nat outl * 8) in
  let in1 := DS_Insert in_ 4 Outbits in
  let in2 := DS_Insert in1 1 Counter in
  Hash_df_loop (S outl) p in2 counter outbits out 0 outl 0.

Definition SHA_Instantiate (p : SP800_90PRNG_Data_t)
           (ein : pointer) (einl : nat) (nonce : pointer) (nonl : nat)
           (person : pointer) (perl : nat)
  : option (SP800_90STATE * SP800_90PRNG_Data_t) :=
  let p := set_V (memset0 (V p) (seedlen (prng p))) p in
  let p := set_alg_md (EVP_get_digestbyname (specific (prng p))) p in
  match alg_md p with
  | None =>
      let p := set_error_reason (ERRAT "Could not obtain digest") p in
      let p := set_state SP800_90ERROR p in
      Some (state p, p)
  | Some _ =>
      let p := match md_ctx p with
               | None => set_md_ctx (Some EVP_MD_CTX_new) p
               | Some _ => p
               end in
      let seedDS := DS_Init in
      let seedDS := DS_Append seedDS einl ein in
      let seedDS := DS_Append seedDS nonl nonce in
      let seedDS := DS_Append seedDS perl person in
      match Hash_df p seedDS BufV (seedlen (prng p)) with
      | None => None
      | Some p =>
          let seedDS := DS_Init in
          let seedDS := DS_Append seedDS 1 C00 in
          let seedDS := DS_Append seedDS (seedlen (prng p)) (Ctx BufV) in
          match Hash_df p seedDS BufC (seedlen (prng p)) with
          | None => None
          | Some p => Some (state p, p)
          end
      end
  end.

Definition SHA_ReSeed (p : SP800_90PRNG_Data_t)
           (ein : pointer) (einl : nat) (adata : pointer) (adatal : nat)
  : option (SP800_90STATE * SP800_90PRNG_Data_t) :=
  let seedDS := DS_Init in
  let seedDS := DS_Append seedDS 1 C01 in
  let seedDS := DS_Append seedDS (seedlen (prng p)) (Ctx BufV) in
  let seedDS := DS_Append seedDS einl ein in
  let seedDS := DS_Append seedDS adatal adata in
  match Hash_df p seedDS BufC (seedlen (prng p)) with
  | None => None
  | Some p =>
      let p := set_V (memcpy (V p) (C p) (seedlen (prng p))) p in
      let seedDS := DS_Init in
      let seedDS := DS_Append seedDS 1 C00 in
      let seedDS := DS_Append seedDS (seedlen (prng p)) (Ctx BufV) in
      match Hash_df p seedDS BufC (seedlen (prng p)) with
      | None => None
      | Some p => Some (state p, p)
      end
  end.

(** How a block of [SHA_Generate] ends: it falls through to the next
    statement, or the function returns [pctx->state]. *)
Inductive flow : Type :=
| Next (p : SP800_90PRNG_Data_t)
| Return (p : SP800_90PRNG_Data_t).

(** [if( 1 != call ) { error_reason, state, reset; return pctx->state; }] *)
Definition check (r : bool * SP800_90PRNG_Data_t) (msg : String.string)
           (k : SP800_90PRNG_Data_t -> flow) : flow :=
  let (ok, p) := r in
  if ok then k p else Return (failed msg p).

Definition check_final (r : bool * SP800_90PRNG_Data_t * nat)
           (msg : String.string) (k : SP800_90PRNG_Data_t -> nat -> flow)
  : flow :=
  let '(ok, p, l) := r in
  if ok then k p l else Return (failed msg p).

(** Lines 204-246: the additional input, [adata] being a caller pointer. *)
Definition Generate_additional (p : SP800_90PRNG_Data_t)
           (adata : pointer) (adatal : nat) : flow :=
  if negb (is_null adata) && negb (Nat.eqb adatal 0) then
    check (EVP_DigestInit p) "Digest Init failed" (fun p =>
    check (EVP_DigestUpdate p (load p x00 [] C02 1))
          "Digest Update failed" (fun p =>
    check (EVP_DigestUpdate p (load p x00 [] (Ctx BufV) (seedlen (prng p))))
          "Digest Update failed" (fun p =>
    check (EVP_DigestUpdate p (load p x00 [] adata adatal))
          "Digest Update failed" (fun p =>
    check_final (EVP_DigestFinal p BufT) "Digest Final failed" (fun p l =>
    let p := EVP_MD_CTX_reset p in
    Next (set_V (Add (V p) (V p) (seedlen (prng p)) (T p) (OBL (prng p))) p))))))
  else Next p.

(** Lines 252-281: the Hashgen loop.  [off] is how far [buffer] has advanced;
    the caller's buffer is returned with the flow. *)
Fixpoint Hashgen (fuel : nat) (p : SP800_90PRNG_Data_t) (buffer : list byte)
         (off blen : nat) : option (flow * list byte) :=
  match fuel with
  | O => None
  | S fuel' =>
      if Nat.eqb blen 0 then Some (Next p, buffer)
      else
        let (ok, p) := EVP_DigestInit p in
        if negb ok then Some (Return (failed "Digest Init failed" p), buffer)
        else
        let (ok, p) :=
          EVP_DigestUpdate p (load p x00 [] (Ctx BufT) (seedlen (prng p))) in
        if negb ok then Some (Return (failed "Digest Update failed" p), buffer)
        else
        let '(ok, p, l) := EVP_DigestFinal p BufE in
        if negb ok then Some (Return (failed "Digest Final failed" p), buffer)
        else
        let p := EVP_MD_CTX_reset p in
        let p := set_T (Add (T p) (T p) (seedlen (prng p)) [x01] 1) p in
        let j := if Nat.ltb l blen then l else blen in
        let buffer := memcpy_at buffer off (eBuf p) j in
        Hashgen fuel' p buffer (off + j) (blen - j)
  end.

(** Lines 285-324: the update of [V] after the output. *)
Definition Generate_update (p : SP800_90PRNG_Data_t) : flow :=
  let p := set_T (memset0 (T p) (seedlen (prng p))) p in
  check (EVP_DigestInit p) "Digest Init failed" (fun p =>
  check (EVP_DigestUpdate p (load p x00 [] C03 1))
        "Digest Update failed" (fun p =>
  check (EVP_DigestUpdate p (load p x00 [] (Ctx BufV) (seedlen (prng p))))
        "Digest Update failed" (fun p =>
  check_final (EVP_DigestFinal p BufT) "Digest Final failed" (fun p l =>
  let p := EVP_MD_CTX_reset p in
  let p := set_V (Add (V p) (V p) (seedlen (prng p)) (T p) (OBL (prng p))) p in
  let p := set_V (Add (V p) (V p) (seedlen (prng p)) (C p) 0) p in
  let p := set_T (memset0 (T p) (seedlen (prng p))) p in
  let p := set_V (Add (V p) (V p) (seedlen (prng p)) (CallCount_c p) 4) p in
  Return p)))).

(** [SHA_Generate(ctx, buffer, blen, adata, adatal)]: the returned state
    code, the context, and the caller's buffer. *)
Definition SHA_Generate (p : SP800_90PRNG_Data_t) (buffer : list byte)
           (blen : nat) (adata : pointer) (adatal : nat)
  : option (SP800_90STATE * SP800_90PRNG_Data_t * list byte) :=
  match Generate_additional p adata adatal with
  | Return p => Some (state p, p, buffer)
  | Next p =>
      let p := set_T (memcpy (T p) (V p) (seedlen (prng p))) p in
      match Hashgen (S blen) p buffer 0 blen with
      | None => None
      | Some (Return p, buffer) => Some (state p, p, buffer)
      | Some (Next p, buffer) =>
          match Generate_update p with
          | Return p | Next p => Some (state p, p, buffer)
          end
      end
  end.

(** [EVP_MD_CTX_free] releases the digest context. *)
Definition SHA_Cleanup (p : SP800_90PRNG_Data_t)
  : SP800_90STATE * SP800_90PRNG_Data_t :=
  let p := match md_ctx p with
           | Some _ => set_md_ctx None p
           | None => p
           end in
  (state p, p).

End HashDRBG.

(** ** The functions of the specification *)

Definition ceil_div (n d : nat) : nat := (n + d - 1) / d.

(** The counter octet [i] of [Hash_df]. *)
Definition octet (i : nat) : byte := byte_of_N (N.of_nat i).

(** From the specification: [HASH(i || no_of_bits || S)] for
    [i = 1 .. ceil(L / digest_len)], concatenated and truncated to [L]. *)
Definition Hash_df_spec (md : EVP_MD) (S : list byte) (L : nat) : list byte :=
  firstn L
    (concat (map (fun i => HASH md (octet i :: N2be 4 (N.of_nat L * 8) ++ S))
                 (seq 1 (ceil_div L (md_size md))))).

(** From the specification: the first [n] bytes of
    [HASH(data) || HASH(data + 1) || ...], the sums being taken modulo
    [2^(8*seedlen)]. *)
Definition Hashgen_spec (md : EVP_MD) (seedlen : nat) (data : list byte)
           (n : nat) : list byte :=
  firstn n
    (concat (map (fun i => HASH md (N2be seedlen (be2N data + N.of_nat i)))
                 (seq 0 (ceil_div n (md_size md))))).

(** [2^(8*n)]. *)
Definition modulus (n : nat) : N := (256 ^ N.of_nat n)%N.

(** ** The known answer data of the SHA-2 profiles *)

Definition SHA512_112IntEin : StringBuf :=
  mkStringBuf 0 24
   [
     xd9; x56; xca; xa2; x40; x39; xe7; x6f;
     x58; x61; x6e; x09; x69; xaf; xa2; xd7;
     xb7; x08; x74; x01; xee; x2d; x87; x77
   ].

Definition SHA512_112IntNon : StringBuf :=
  mkStringBuf 0 12
   [
     x32; xa2; xef; x15; x98; x3e; x3c; x1f;
     x66; xe6; x03; x2a
   ].

Definition SHA512_112GenEin : StringBuf :=
  mkStringBuf 0 24
   [
     x7b; xa5; xa5; x22; x58; x0b; x41; xe1;
     xa4; xf5; x40; xf9; xfe; x3d; xaa; xf9;
     x5d; xf7; x72; x74; x0a; x19; x96; x51
   ].

Definition SHA512_112Result : StringBuf :=
  mkStringBuf 0 64
   [
     x91; x73; xff; x1b; x3b; xd0; x42; x11;
     xf0; x90; xc0; xc6; x58; xcd; x9c; xa9;
     x8a; xc1; xd7; x7e; x1e; x3a; x96; xd1;
     x1d; xe6; x72; xd1; xec; xf0; xe3; x70;
     x8c; x7e; x42; x42; xf9; x40; xdf; x4e;
     x5b; x34; x52; x96; x72; x04; x4a; x10;
     x9a; xb8; xf1; xdb; xeb; x6a; xbb; x39;
     x30; x69; x0a; x92; x28; xd0; xe5; x7c
   ].

Definition SHA512_128IntEin : StringBuf :=
  mkStringBuf 0 32
   [
     x7a; xd0; x8c; x07; xe2; x6f; xf3; xff;
     xd5; x00; x1b; x94; x82; xad; x71; x5d;
     xb3; xc5; xff; x11; x24; x42; xed; xb2;
     x25; x9a; x3a; xfd; x72; xc9; xb5; x10
   ].

Definition SHA512_128IntNon : StringBuf :=
  mkStringBuf 0 16
   [
     x04; xb1; x90; x55; x10; x69; xf0; x4e;
     xe6; x63; x2b; x76; xda; x26; xa3; xd0
   ].

Definition SHA512_128GenEin : StringBuf :=
  mkStringBuf 0 32
   [
     x3b; xe4; xbf; xaa; x70; xa9; x2f; x0a;
     xab; x37; xc2; xe6; xab; x89; xf6; x25;
     xc9; xbc; xe6; xcd; x54; x9b; xc9; x32;
     x29; x6c; xad; x60; x95; xfc; x73; xc5
   ].

Definition SHA512_128Result : StringBuf :=
  mkStringBuf 0 64
   [
     x06; xc0; xaa; x2f; x10; x13; x8f; x79;
     x64; xc4; x84; x23; x55; xad; xdf; x7e;
     xd2; x9a; x8e; xcc; x6b; x52; x0a; xe6;
     x1a; x76; x37; xcd; x07; x69; xe2; x2e;
     x3c; x9b; xa0; xc4; xe2; x4b; xd5; xbd;
     x66; x06; x34; x05; xe5; x9d; xb7; xc1;
     x87; x03; x69; xd1; xec; xb2; x7d; x08;
     x8c; x00; xf7; x6b; x1c; x8b; x2a; x1d
   ].

Definition SHA512_192IntEin : StringBuf :=
  mkStringBuf 0 32
   [
     x7a; xd0; x8c; x07; xe2; x6f; xf3; xff;
     xd5; x00; x1b; x94; x82; xad; x71; x5d;
     xb3; xc5; xff; x11; x24; x42; xed; xb2;
     x25; x9a; x3a; xfd; x72; xc9; xb5; x10
   ].

Definition SHA512_192IntNon : StringBuf :=
  mkStringBuf 0 16
   [
     x04; xb1; x90; x55; x10; x69; xf0; x4e;
     xe6; x63; x2b; x76; xda; x26; xa3; xd0
   ].

Definition SHA512_192GenEin : StringBuf :=
  mkStringBuf 0 32
   [
     x3b; xe4; xbf; xaa; x70; xa9; x2f; x0a;
     xab; x37; xc2; xe6; xab; x89; xf6; x25;
     xc9; xbc; xe6; xcd; x54; x9b; xc9; x32;
     x29; x6c; xad; x60; x95; xfc; x73; xc5
   ].

Definition SHA512_192Result : StringBuf :=
  mkStringBuf 0 64
   [
     x06; xc0; xaa; x2f; x10; x13; x8f; x79;
     x64; xc4; x84; x23; x55; xad; xdf; x7e;
     xd2; x9a; x8e; xcc; x6b; x52; x0a; xe6;
     x1a; x76; x37; xcd; x07; x69; xe2; x2e;
     x3c; x9b; xa0; xc4; xe2; x4b; xd5; xbd;
     x66; x06; x34; x05; xe5; x9d; xb7; xc1;
     x87; x03; x69; xd1; xec; xb2; x7d; x08;
     x8c; x00; xf7; x6b; x1c; x8b; x2a; x1d
   ].

Definition SHA512_256IntEin : StringBuf :=
  mkStringBuf 0 32
   [
     xee; x41; x94; x2a; x7f; xff; xfe; xc7;
     x3c; xf6; x5a; x2f; xad; xb5; x72; xad;
     x88; xb8; x17; x8d; x2e; x9b; xbb; xe3;
     x6a; x7f; x4f; x99; x67; xbb; x59; xbd
   ].

Definition SHA512_256IntNon : StringBuf :=
  mkStringBuf 0 16
   [
     x93; xd0; xca; xac; x1f; x57; xe7; x9f;
     x3a; x95; xb3; xd0; x89; xe2; x8d; x84
   ].

Definition SHA512_256IntPer : StringBuf :=
  mkStringBuf 0 32
   [
     x46; x1a; x63; x07; xa1; x95; x71; x5a;
     x45; x89; x0a; x44; x91; x52; xca; x8a;
     x29; x88; x8e; x88; x7f; x81; x9f; xcc;
     x9e; x08; x1e; xf0; x38; x5d; xb0; xb6
   ].

Definition SHA512_256Result : StringBuf :=
  mkStringBuf 0 64
   [
     xe7; xff; xc2; x0b; x33; x84; xee; xbd;
     x83; xba; x03; x90; xe8; x38; x62; xf7;
     x7b; xcc; xb4; x55; xa6; x78; xad; x9c;
     xa2; x7c; xd3; xeb; xe5; x75; x27; x89;
     x03; x15; xaa; x2f; x4a; x1c; x52; xd5;
     xeb; xfb; x7f; xe2; x63; x4e; xdc; xe3;
     xfc; xd7; x33; xd2; x88; xe4; x76; x04;
     x5b; x9a; xc8; x4b; x64; x15; xf0; x8d
   ].

Definition SHA384_112IntEin : StringBuf :=
  mkStringBuf 0 24
   [
     xd9; x56; xca; xa2; x40; x39; xe7; x6f;
     x58; x61; x6e; x09; x69; xaf; xa2; xd7;
     xb7; x08; x74; x01; xee; x2d; x87; x77
   ].

Definition SHA384_112IntNon : StringBuf :=
  mkStringBuf 0 16
   [
     x32; xa2; xef; x15; x98; x3e; x3c; x1f;
     x66; xe6; x03; x2a; x00; x01; x02; x03
   ].

Definition SHA384_112GenEin : StringBuf :=
  mkStringBuf 0 24
   [
     x7b; xa5; xa5; x22; x58; x0b; x41; xe1;
     xa4; xf5; x40; xf9; xfe; x3d; xaa; xf9;
     x5d; xf7; x72; x74; x0a; x19; x96; x51
   ].

Definition SHA384_112Result : StringBuf :=
  mkStringBuf 0 48
   [
     xe4; xb6; xba; x78; x86; x77; x24; x62;
     x99; xe9; xf5; x0f; x3d; x4a; xc0; x82;
     xd9; xfe; x98; x28; x64; x0a; xf7; x65;
     x2e; x9b; x4c; x04; x45; xa4; x06; x55;
     x35; xdf; xff; xf6; x3b; x34; xc9; xaf;
     x29; xd1; x50; xe9; x76; x5b; xc1; xb8
   ].

Definition SHA384_128IntEin : StringBuf :=
  mkStringBuf 0 32
   [
     x5d; xae; xbf; x2d; x31; x79; x35; xa3;
     x5c; xba; xfe; xba; x69; xfd; xe5; x67;
     x2a; xb8; x14; xd7; xb7; xf1; x2c; xb9;
     xa4; x32; xa6; xcb; x84; xb1; x6b; xa4
   ].

Definition SHA384_128IntNon : StringBuf :=
  mkStringBuf 0 16
   [
     x85; x84; xde; x95; x9a; x4b; xc1; xfd;
     x6d; x56; x0d; x6d; x30; xa5; xbc; x21
   ].

Definition SHA384_128GenEin : StringBuf :=
  mkStringBuf 0 32
   [
     x7b; xc1; x29; x2c; x59; x60; xd8; x10;
     x8a; x03; xd1; xc3; x29; x9a; xa9; xe3;
     x67; x11; xf6; x0c; x74; xa7; xdf; x5a;
     xae; x8d; xe3; x1a; x0a; xc2; xe7; xd1
   ].

Definition SHA384_128Result : StringBuf :=
  mkStringBuf 0 48
   [
     xd3; xc8; xce; xd1; x3e; xde; xd3; xa8;
     xd9; x14; x23; x0b; xbf; x15; xc9; x5a;
     xb0; x67; x60; x0c; x17; x5a; x02; x46;
     xfc; x6c; x22; x13; xcf; xdc; x96; x84;
     x24; x83; xfd; x39; x5d; x3b; x18; x7d;
     x96; x2b; xa1; x39; x9e; x0c; xa3; x8c
   ].

Definition SHA384_192IntEin : StringBuf :=
  mkStringBuf 0 32
   [
     x5d; xae; xbf; x2d; x31; x79; x35; xa3;
     x5c; xba; xfe; xba; x69; xfd; xe5; x67;
     x2a; xb8; x14; xd7; xb7; xf1; x2c; xb9;
     xa4; x32; xa6; xcb; x84; xb1; x6b; xa4
   ].

Definition SHA384_192IntNon : StringBuf :=
  mkStringBuf 0 16
   [
     x85; x84; xde; x95; x9a; x4b; xc1; xfd;
     x6d; x56; x0d; x6d; x30; xa5; xbc; x21
   ].

Definition SHA384_192GenEin : StringBuf :=
  mkStringBuf 0 32
   [
     x7b; xc1; x29; x2c; x59; x60; xd8; x10;
     x8a; x03; xd1; xc3; x29; x9a; xa9; xe3;
     x67; x11; xf6; x0c; x74; xa7; xdf; x5a;
     xae; x8d; xe3; x1a; x0a; xc2; xe7; xd1
   ].

Definition SHA384_192Result : StringBuf :=
  mkStringBuf 0 48
   [
     xd3; xc8; xce; xd1; x3e; xde; xd3; xa8;
     xd9; x14; x23; x0b; xbf; x15; xc9; x5a;
     xb0; x67; x60; x0c; x17; x5a; x02; x46;
     xfc; x6c; x22; x13; xcf; xdc; x96; x84;
     x24; x83; xfd; x39; x5d; x3b; x18; x7d;
     x96; x2b; xa1; x39; x9e; x0c; xa3; x8c
   ].

Definition SHA384_256IntEin : StringBuf :=
  mkStringBuf 0 32
   [
     x0f; xa6; x50; x97; x5e; x53; x5b; xae;
     x2a; xc2; x2d; x2c; xb8; x15; x34; xfa;
     x5f; x6b; x36; x3d; x64; xe8; x4d; xfd;
     x13; x01; x22; x10; x21; x0b; x68; x4a
   ].

Definition SHA384_256IntNon : StringBuf :=
  mkStringBuf 0 16
   [
     x43; x5f; x0c; xc2; x4c; xa5; x9c; x6f;
     xa5; x88; x82; xb6; xc7; xf1; x15; x5d
   ].

Definition SHA384_256IntPer : StringBuf :=
  mkStringBuf 0 32
   [
     x57; x79; x2c; xab; xd3; x5e; x62; xa0;
     xea; xf3; xd8; x56; x23; x5c; x68; xff;
     x7f; xe9; x32; x62; x1f; x33; xe8; x12;
     x39; x79; x5a; xf0; x3c; x3b; x43; xe3
   ].

Definition SHA384_256Result : StringBuf :=
  mkStringBuf 0 64
   [
     x47; x7c; x4b; xf9; xd8; x57; xb5; x07;
     x14; x39; x3c; x95; xf9; x2b; x60; xab;
     x13; xfd; x66; x83; xbe; xe9; x6e; xe3;
     x17; xe3; xf8; x59; x59; x25; x86; x2c;
     xc4; x50; x67; x81; x39; x9b; x5a; xfd;
     x80; x6f; xc3; x3c; xec; x27; x9e; x43;
     xc0; x18; xab; xfd; x53; x24; xce; x69;
     x40; x5d; xb8; x63; xb5; x47; x01; xf5
   ].

Definition SHA256_112IntEin : StringBuf :=
  mkStringBuf 0 24
   [
     xd9; x56; xca; xa2; x40; x39; xe7; x6f;
     x58; x61; x6e; x09; x69; xaf; xa2; xd7;
     xb7; x08; x74; x01; xee; x2d; x87; x77
   ].

Definition SHA256_112IntNon : StringBuf :=
  mkStringBuf 0 12
   [
     x32; xa2; xef; x15; x98; x3e; x3c; x1f;
     x66; xe6; x03; x2a
   ].

Definition SHA256_112GenEin : StringBuf :=
  mkStringBuf 0 24
   [
     x7b; xa5; xa5; x22; x58; x0b; x41; xe1;
     xa4; xf5; x40; xf9; xfe; x3d; xaa; xf9;
     x5d; xf7; x72; x74; x0a; x19; x96; x51
   ].

Definition SHA256_112Result : StringBuf :=
  mkStringBuf 0 32
   [
     x87; x72; xe9; xef; x03; x4c; xa5; x19;
     xe9; x23; x79; x80; x14; x08; xb1; xb8;
     xd2; x22; xea; x9f; x27; x87; x1c; x9d;
     x98; x97; xc0; xe3; x55; xdf; x92; x00
   ].

Definition SHA256_128IntEin : StringBuf :=
  mkStringBuf 0 32
   [
     x50; x21; xb7; x21; xef; x6a; xa7; xab;
     xaa; xba; x55; x43; xd5; x31; xde; x46;
     xa1; xa1; x20; x23; x38; xe4; xf8; x4b;
     x1a; x5e; xbf; x5c; xb9; xcf; x06; x8b
   ].

Definition SHA256_128IntNon : StringBuf :=
  mkStringBuf 0 16
   [
     xfc; x6e; xea; xe2; x1b; x3f; x8d; x8f;
     xe3; x82; x26; xfe; x65; xc3; x57; x08
   ].

Definition SHA256_128GenEin : StringBuf :=
  mkStringBuf 0 32
   [
     x6a; xe6; x5a; xc1; xe3; x74; x03; x8e;
     x40; x35; x1c; xd3; x5d; x2f; xdd; xf7;
     xd4; x2a; xe8; xe9; x63; x8c; x57; x1b;
     xa0; x73; x04; xc0; xdf; x13; x19; x43
   ].

Definition SHA256_128Result : StringBuf :=
  mkStringBuf 0 32
   [
     x28; x32; x53; x4f; xee; xe8; xbf; x4a;
     x98; x29; xa2; x63; xc0; x40; x1f; x15;
     x59; xa9; x52; x40; xce; x28; xa8; x7e;
     x27; x4b; x15; x75; x03; xa8; x09; x0f
   ].

Definition SHA256_192IntEin : StringBuf :=
  mkStringBuf 0 32
   [
     x50; x21; xb7; x21; xef; x6a; xa7; xab;
     xaa; xba; x55; x43; xd5; x31; xde; x46;
     xa1; xa1; x20; x23; x38; xe4; xf8; x4b;
     x1a; x5e; xbf; x5c; xb9; xcf; x06; x8b
   ].

Definition SHA256_192IntNon : StringBuf :=
  mkStringBuf 0 16
   [
     xfc; x6e; xea; xe2; x1b; x3f; x8d; x8f;
     xe3; x82; x26; xfe; x65; xc3; x57; x08
   ].

Definition SHA256_192GenEin : StringBuf :=
  mkStringBuf 0 32
   [
     x6a; xe6; x5a; xc1; xe3; x74; x03; x8e;
     x40; x35; x1c; xd3; x5d; x2f; xdd; xf7;
     xd4; x2a; xe8; xe9; x63; x8c; x57; x1b;
     xa0; x73; x04; xc0; xdf; x13; x19; x43
   ].

Definition SHA256_192Result : StringBuf :=
  mkStringBuf 0 32
   [
     x28; x32; x53; x4f; xee; xe8; xbf; x4a;
     x98; x29; xa2; x63; xc0; x40; x1f; x15;
     x59; xa9; x52; x40; xce; x28; xa8; x7e;
     x27; x4b; x15; x75; x03; xa8; x09; x0f
   ].

Definition SHA256_256IntEin : StringBuf :=
  mkStringBuf 0 32
   [
     x8e; x9c; x0d; x25; x75; x22; x04; xf9;
     xc5; x79; x10; x8b; x23; x79; x37; x14;
     x9f; x2c; xc7; x0b; x39; xf8; xee; xef;
     x95; x0c; x97; x59; xfc; x0a; x85; x41
   ].

Definition SHA256_256IntNon : StringBuf :=
  mkStringBuf 0 16
   [
     x76; x9d; x6d; x67; x00; x4e; x19; x12;
     x02; x16; x53; xea; xf2; x73; xd7; xd6
   ].

Definition SHA256_256IntPer : StringBuf :=
  mkStringBuf 0 32
   [
     x7f; x7e; xc8; xae; x9c; x09; x99; x7d;
     xbb; x9e; x48; x7f; xbb; x96; x46; xb3;
     x03; x75; xf8; xc8; x69; x45; x3f; x97;
     x5e; x2e; x48; xe1; x5d; x58; x97; x4c
   ].

Definition SHA256_256Result : StringBuf :=
  mkStringBuf 0 64
   [
     x16; xe1; x8c; x57; x21; xd8; xf1; x7e;
     x5a; xa0; x16; x0b; x7e; xa6; x25; xb4;
     x24; x19; xdb; x54; xfa; x35; x13; x66;
     xbb; xaa; x2a; x1b; x22; x33; x2e; x4a;
     x14; x07; x9d; x52; xfc; x73; x61; x48;
     xac; xc1; x22; xfc; xa4; xfc; xac; xa4;
     xdb; xda; x5b; x27; x33; xc4; xb3; xec;
     xb0; xf2; xee; x63; x11; x61; xdb; x30
   ].

Definition SHA224_112IntEin : StringBuf :=
  mkStringBuf 0 24
   [
     xd9; x56; xca; xa2; x40; x39; xe7; x6f;
     x58; x61; x6e; x09; x69; xaf; xa2; xd7;
     xb7; x08; x74; x01; xee; x2d; x87; x77
   ].

Definition SHA224_112IntNon : StringBuf :=
  mkStringBuf 0 12
   [
     x32; xa2; xef; x15; x98; x3e; x3c; x1f;
     x66; xe6; x03; x2a
   ].

Definition SHA224_112GenEin : StringBuf :=
  mkStringBuf 0 24
   [
     x7b; xa5; xa5; x22; x58; x0b; x41; xe1;
     xa4; xf5; x40; xf9; xfe; x3d; xaa; xf9;
     x5d; xf7; x72; x74; x0a; x19; x96; x51
   ].

Definition SHA224_112Result : StringBuf :=
  mkStringBuf 0 20
   [
     x9a; x3d; xfe; x95; xee; x24; xf8; x00;
     x19; x1e; x83; x32; x21; x24; xff; xe6;
     xaa; xc3; xce; xac
   ].

Definition SHA224_128IntEin : StringBuf :=
  mkStringBuf 0 32
   [
     x50; x21; xb7; x21; xef; x6a; xa7; xab;
     xaa; xba; x55; x43; xd5; x31; xde; x46;
     xa1; xa1; x20; x23; x38; xe4; xf8; x4b;
     x1a; x5e; xbf; x5c; xb9; xcf; x06; x8b
   ].

Definition SHA224_128IntNon : StringBuf :=
  mkStringBuf 0 16
   [
     xfc; x6e; xea; xe2; x1b; x3f; x8d; x8f;
     xe3; x82; x26; xfe; x65; xc3; x57; x08
   ].

Definition SHA224_128GenEin : StringBuf :=
  mkStringBuf 0 32
   [
     x6a; xe6; x5a; xc1; xe3; x74; x03; x8e;
     x40; x35; x1c; xd3; x5d; x2f; xdd; xf7;
     xd4; x2a; xe8; xe9; x63; x8c; x57; x1b;
     xa0; x73; x04; xc0; xdf; x13; x19; x43
   ].

Definition SHA224_128Result : StringBuf :=
  mkStringBuf 0 32
   [
     xfb; xb9; xc0; x3f; x9c; x65; xce; x74;
     xf3; x92; x07; x03; x90; xa6; xcb; xc3;
     x96; xc3; xff; xdb; x65; xf3; x9a; x34;
     xbc; xe3; x61; xc1; x52; x01; xd2; xa4
   ].

Definition SHA224_192IntEin : StringBuf :=
  mkStringBuf 0 24
   [
     xd9; x56; xca; xa2; x40; x39; xe7; x6f;
     x58; x61; x6e; x09; x69; xaf; xa2; xd7;
     xb7; x08; x74; x01; xee; x2d; x87; x77
   ].

Definition SHA224_192IntNon : StringBuf :=
  mkStringBuf 0 12
   [
     x32; xa2; xef; x15; x98; x3e; x3c; x1f;
     x66; xe6; x03; x2a
   ].

Definition SHA224_192GenEin : StringBuf :=
  mkStringBuf 0 24
   [
     x7b; xa5; xa5; x22; x58; x0b; x41; xe1;
     xa4; xf5; x40; xf9; xfe; x3d; xaa; xf9;
     x5d; xf7; x72; x74; x0a; x19; x96; x51
   ].

Definition SHA224_192Result : StringBuf :=
  mkStringBuf 0 24
   [
     x9a; x3d; xfe; x95; xee; x24; xf8; x00;
     x19; x1e; x83; x32; x21; x24; xff; xe6;
     xaa; xc3; xce; xac; x94; xc8; xa6; xb0
   ].

Definition SHA224_256IntEin : StringBuf :=
  mkStringBuf 0 64
   [
     x50; x21; xb7; x21; xef; x6a; xa7; xab;
     xaa; xba; x55; x43; xd5; x31; xde; x46;
     xa1; xa1; x20; x23; x38; xe4; xf8; x4b;
     x1a; x5e; xbf; x5c; xb9; xcf; x06; x8b;
     x28; x32; x53; x4f; xee; xe8; xbf; x4a;
     x98; x29; xa2; x63; xc0; x40; x1f; x15;
     x59; xa9; x52; x40; xce; x28; xa8; x7e;
     x27; x4b; x15; x75; x03; xa8; x09; x0f
   ].

Definition SHA224_256IntNon : StringBuf :=
  mkStringBuf 0 16
   [
     xfc; x6e; xea; xe2; x1b; x3f; x8d; x8f;
     xe3; x82; x26; xfe; x65; xc3; x57; x08
   ].

Definition SHA224_256GenEin : StringBuf :=
  mkStringBuf 0 64
   [
     x6a; xe6; x5a; xc1; xe3; x74; x03; x8e;
     x40; x35; x1c; xd3; x5d; x2f; xdd; xf7;
     xd4; x2a; xe8; xe9; x63; x8c; x57; x1b;
     xa0; x73; x04; xc0; xdf; x13; x19; x43;
     x28; x32; x53; x4f; xee; xe8; xbf; x4a;
     x98; x29; xa2; x63; xc0; x40; x1f; x15;
     x59; xa9; x52; x40; xce; x28; xa8; x7e;
     x27; x4b; x15; x75; x03; xa8; x09; x0f
   ].

Definition SHA224_256Result : StringBuf :=
  mkStringBuf 0 28
   [
     x78; x2a; xa9; x30; xf5; xeb; x6d; xd5;
     x45; x48; x38; xd7; xf0; x45; x4f; x3b;
     xe0; xcc; xb8; x82; x8c; xab; x0e; x9e;
     xcf; xe1; x1d; xc0
   ].

(** The four strength slots of [sha512PRNG]. *)
Definition sha512_TestData : list KAT :=
  [ mkKAT SHA512_112IntEin SHA512_112IntNon NONE
          NONE SHA512_112GenEin SHA512_112Result;
    mkKAT SHA512_128IntEin SHA512_128IntNon NONE
          NONE SHA512_128GenEin SHA512_128Result;
    mkKAT SHA512_192IntEin SHA512_192IntNon NONE
          NONE SHA512_192GenEin SHA512_192Result;
    mkKAT SHA512_256IntEin SHA512_256IntNon SHA512_256IntPer
          NONE NONE SHA512_256Result ].

(** The four strength slots of [sha384PRNG]. *)
Definition sha384_TestData : list KAT :=
  [ mkKAT SHA384_112IntEin SHA384_112IntNon NONE
          NONE SHA384_112GenEin SHA384_112Result;
    mkKAT SHA384_128IntEin SHA384_128IntNon NONE
          NONE SHA384_128GenEin SHA384_128Result;
    mkKAT SHA384_192IntEin SHA384_192IntNon NONE
          NONE SHA384_192GenEin SHA384_192Result;
    mkKAT SHA384_256IntEin SHA384_256IntNon SHA384_256IntPer
          NONE NONE SHA384_256Result ].

(** The four strength slots of [sha256PRNG]. *)
Definition sha256_TestData : list KAT :=
  [ mkKAT SHA256_112IntEin SHA256_112IntNon NONE
          NONE SHA256_112GenEin SHA256_112Result;
    mkKAT SHA256_128IntEin SHA256_128IntNon NONE
          NONE SHA256_128GenEin SHA256_128Result;
    mkKAT SHA256_192IntEin SHA256_192IntNon NONE
          NONE SHA256_192GenEin SHA256_192Result;
    mkKAT SHA256_256IntEin SHA256_256IntNon SHA256_256IntPer
          NONE NONE SHA256_256Result ].

(** The four strength slots of [sha224PRNG]. *)
Definition sha224_TestData : list KAT :=
  [ mkKAT SHA224_112IntEin SHA224_112IntNon NONE
          NONE SHA224_112GenEin SHA224_112Result;
    mkKAT SHA224_128IntEin SHA224_128IntNon NONE
          NONE SHA224_128GenEin SHA224_128Result;
    mkKAT SHA224_192IntEin SHA224_192IntNon NONE
          NONE SHA224_192GenEin SHA224_192Result;
    mkKAT SHA224_256IntEin SHA224_256IntNon NONE
          NONE SHA224_256GenEin SHA224_256Result ].

Local Open Scope string_scope.

(** [sha512PRNG]; [SELF_TEST_AT] is a parameter, as for [sha1PRNG]. *)
Definition sha512PRNG (SELF_TEST_AT : nat) : SP800_90PRNG_t :=
  mkPRNG SP800_SHA512
         (888 / 8)
         (2 ^ 27)%N    (* Max nonce *)
         (2 ^ 27)%N    (* Max personalization data *)
         (2 ^ 27)%N    (* Max AAD *)
         (2 ^ 11)%N    (* Max bytes/request *)
         0x00FFFFFF%N  (* Max calls between reseeds *)
         (512 / 8)     (* Block size *)
         (2 ^ 27)%N    (* Max allowed entropy input *)
         [112; 128; 192; 256]
         "SHA512"
         "SHA512"
         1
         SP800_IS_FIPS
         SELF_TEST_AT
         0
         sha512_TestData.

(** [sha384PRNG]; [SELF_TEST_AT] is a parameter, as for [sha1PRNG]. *)
Definition sha384PRNG (SELF_TEST_AT : nat) : SP800_90PRNG_t :=
  mkPRNG SP800_SHA384
         (888 / 8)
         (2 ^ 27)%N    (* Max nonce *)
         (2 ^ 27)%N    (* Max personalization data *)
         (2 ^ 27)%N    (* Max AAD *)
         (2 ^ 11)%N    (* Max bytes/request *)
         0x00FFFFFF%N  (* Max calls between reseeds *)
         (384 / 8)     (* Block size *)
         (2 ^ 27)%N    (* Max allowed entropy input *)
         [112; 128; 192; 256]
         "SHA384"
         "SHA384"
         1
         SP800_IS_FIPS
         SELF_TEST_AT
         0
         sha384_TestData.

(** [sha256PRNG]; [SELF_TEST_AT] is a parameter, as for [sha1PRNG]. *)
Definition sha256PRNG (SELF_TEST_AT : nat) : SP800_90PRNG_t :=
  mkPRNG SP800_SHA256
         (440 / 8)
         (2 ^ 27)%N    (* Max nonce *)
         (2 ^ 27)%N    (* Max personalization data *)
         (2 ^ 27)%N    (* Max AAD *)
         (2 ^ 11)%N    (* Max bytes/request *)
         0x00FFFFFF%N  (* Max calls between reseeds *)
         (256 / 8)     (* Block size *)
         (2 ^ 27)%N    (* Max allowed entropy input *)
         [112; 128; 192; 256]
         "SHA256"
         "SHA256"
         1
         SP800_IS_FIPS
         SELF_TEST_AT
         0
         sha256_TestData.

(** [sha224PRNG]; [SELF_TEST_AT] is a parameter, as for [sha1PRNG]. *)
Definition sha224PRNG (SELF_TEST_AT : nat) : SP800_90PRNG_t :=
  mkPRNG SP800_SHA224
         (440 / 8)
         (2 ^ 27)%N    (* Max nonce *)
         (2 ^ 27)%N    (* Max personalization data *)
         (2 ^ 27)%N    (* Max AAD *)
         (2 ^ 11)%N    (* Max bytes/request *)
         0x00FFFFFF%N  (* Max calls between reseeds *)
         (224 / 8)     (* Block size *)
         (2 ^ 27)%N    (* Max allowed entropy input *)
         [112; 128; 192; 256]
         "SHA224"
         "SHA224"
         1
         SP800_IS_FIPS
         SELF_TEST_AT
         0
         sha224_TestData.

Local Close Scope string_scope.

(** ** SHA-224, SHA-256, SHA-384 and SHA-512 (FIPS 180-4)

    The digests of the other four profiles, used to run the functions on the
    known answer data. *)

Module SHA2.

Local Open Scope N_scope.

(** What distinguishes the 32-bit family from the 64-bit family. *)
Record family : Type := mkFamily {
  wbits : N;
  wbytes : nat;
  K : list N;
  Sigma0 : N * N * N;
  Sigma1 : N * N * N;
  sigma0 : N * N * N;
  sigma1 : N * N * N
}.

Definition regs : Type := N * N * N * N * N * N * N * N.

Section Family.

Variable F : family.

Definition wrap (x : N) : N := x mod 2 ^ wbits F.

Definition rotr (n x : N) : N :=
  wrap (N.lor (N.shiftr x n) (N.shiftl x (wbits F - n))).

Definition big_sigma (r : N * N * N) (x : N) : N :=
  let '(a, b, c) := r in
  N.lxor (N.lxor (rotr a x) (rotr b x)) (rotr c x).

Definition small_sigma (r : N * N * N) (x : N) : N :=
  let '(a, b, c) := r in
  N.lxor (N.lxor (rotr a x) (rotr b x)) (N.shiftr x c).

Definition Ch (x y z : N) : N :=
  N.lxor (N.land x y) (N.land (N.lxor x (2 ^ wbits F - 1)) z).

Definition Maj (x y z : N) : N :=
  N.lxor (N.lxor (N.land x y) (N.land x z)) (N.land y z).

Definition pad (msg : list byte) : list byte :=
  let l := length msg in
  let blk := (16 * wbytes F)%nat in
  let k := ((blk - (l + 1 + 2 * wbytes F) mod blk) mod blk)%nat in
  msg ++ [x80] ++ zeros k ++ N2be (2 * wbytes F) (N.of_nat l * 8).

Fixpoint words (n : nat) (bs : list byte) : list N :=
  match n with
  | O => []
  | S n' => be2N (firstn (wbytes F) bs) :: words n' (skipn (wbytes F) bs)
  end.

(** The message schedule, newest word first. *)
Fixpoint expand (n : nat) (w : list N) : list N :=
  match n with
  | O => w
  | S n' =>
      let x := wrap (small_sigma (sigma1 F) (nth 1 w 0) + nth 6 w 0
                     + small_sigma (sigma0 F) (nth 14 w 0) + nth 15 w 0) in
      expand n' (x :: w)
  end.

Fixpoint rounds (w k : list N) (r : regs) : regs :=
  match w, k with
  | wt :: w', kt :: k' =>
      let '(a, b, c, d, e, f, g, h) := r in
      let t1 := h + big_sigma (Sigma1 F) e + Ch e f g + kt + wt in
      let t2 := big_sigma (Sigma0 F) a + Maj a b c in
      rounds w' k' (wrap (t1 + t2), a, b, c, wrap (d + t1), e, f, g)
  | _, _ => r
  end.

Definition block (h : regs) (bs : list byte) : regs :=
  let w := rev (expand (length (K F) - 16) (rev (words 16 bs))) in
  let '(h0, h1, h2, h3, h4, h5, h6, h7) := h in
  let '(a, b, c, d, e, f, g, hh) := rounds w (K F) h in
  (wrap (h0 + a), wrap (h1 + b), wrap (h2 + c), wrap (h3 + d),
   wrap (h4 + e), wrap (h5 + f), wrap (h6 + g), wrap (h7 + hh)).

Fixpoint blocks (n : nat) (h : regs) (bs : list byte) : regs :=
  match n with
  | O => h
  | S n' =>
      blocks n' (block h (firstn (16 * wbytes F) bs))
             (skipn (16 * wbytes F) bs)
  end.

(** The digest with initial value [iv], cut to [outlen] bytes. *)
Definition sha2 (iv : regs) (outlen : nat) (msg : list byte) : list byte :=
  let m := pad msg in
  let '(h0, h1, h2, h3, h4, h5, h6, h7) :=
    blocks (length m / (16 * wbytes F)) iv m in
  firstn outlen
    (N2be (wbytes F) h0 ++ N2be (wbytes F) h1 ++ N2be (wbytes F) h2
     ++ N2be (wbytes F) h3 ++ N2be (wbytes F) h4 ++ N2be (wbytes F) h5
     ++ N2be (wbytes F) h6 ++ N2be (wbytes F) h7).

End Family.

Definition K512 : list N :=
  [ 0x428a2f98d728ae22; 0x7137449123ef65cd; 0xb5c0fbcfec4d3b2f;
    0xe9b5dba58189dbbc; 0x3956c25bf348b538; 0x59f111f1b605d019;
    0x923f82a4af194f9b; 0xab1c5ed5da6d8118; 0xd807aa98a3030242;
    0x12835b0145706fbe; 0x243185be4ee4b28c; 0x550c7dc3d5ffb4e2;
    0x72be5d74f27b896f; 0x80deb1fe3b1696b1; 0x9bdc06a725c71235;
    0xc19bf174cf692694; 0xe49b69c19ef14ad2; 0xefbe4786384f25e3;
    0x0fc19dc68b8cd5b5; 0x240ca1cc77ac9c65; 0x2de92c6f592b0275;
    0x4a7484aa6ea6e483; 0x5cb0a9dcbd41fbd4; 0x76f988da831153b5;
    0x983e5152ee66dfab; 0xa831c66d2db43210; 0xb00327c898fb213f;
    0xbf597fc7beef0ee4; 0xc6e00bf33da88fc2; 0xd5a79147930aa725;
    0x06ca6351e003826f; 0x142929670a0e6e70; 0x27b70a8546d22ffc;
    0x2e1b21385c26c926; 0x4d2c6dfc5ac42aed; 0x53380d139d95b3df;
    0x650a73548baf63de; 0x766a0abb3c77b2a8; 0x81c2c92e47edaee6;
    0x92722c851482353b; 0xa2bfe8a14cf10364; 0xa81a664bbc423001;
    0xc24b8b70d0f89791; 0xc76c51a30654be30; 0xd192e819d6ef5218;
    0xd69906245565a910; 0xf40e35855771202a; 0x106aa07032bbd1b8;
    0x19a4c116b8d2d0c8; 0x1e376c085141ab53; 0x2748774cdf8eeb99;
    0x34b0bcb5e19b48a8; 0x391c0cb3c5c95a63; 0x4ed8aa4ae3418acb;
    0x5b9cca4f7763e373; 0x682e6ff3d6b2b8a3; 0x748f82ee5defb2fc;
    0x78a5636f43172f60; 0x84c87814a1f0ab72; 0x8cc702081a6439ec;
    0x90befffa23631e28; 0xa4506cebde82bde9; 0xbef9a3f7b2c67915;
    0xc67178f2e372532b; 0xca273eceea26619c; 0xd186b8c721c0c207;
    0xeada7dd6cde0eb1e; 0xf57d4f7fee6ed178; 0x06f067aa72176fba;
    0x0a637dc5a2c898a6; 0x113f9804bef90dae; 0x1b710b35131c471b;
    0x28db77f523047d84; 0x32caab7b40c72493; 0x3c9ebe0a15c9bebc;
    0x431d67c49c100d4c; 0x4cc5d4becb3e42b6; 0x597f299cfc657e2a;
    0x5fcb6fab3ad6faec; 0x6c44198c4a475817 ].

(** FIPS 180-4, 4.2.2 and 4.2.3: both tables come from the cube roots of
    the first primes, and a 32-bit constant is the upper half of the 64-bit
    constant of the same prime. *)
Definition K256 : list N := map (fun k => N.shiftr k 32) (firstn 64 K512).

Definition F32 : family :=
  mkFamily 32 4 K256 (2, 13, 22) (6, 11, 25) (7, 18, 3) (17, 19, 10).

Definition F64 : family :=
  mkFamily 64 8 K512 (28, 34, 39) (14, 18, 41) (1, 8, 7) (19, 61, 6).

Definition IV224 : regs :=
    (0xc1059ed8,
     0x367cd507,
     0x3070dd17,
     0xf70e5939,
     0xffc00b31,
     0x68581511,
     0x64f98fa7,
     0xbefa4fa4).

Definition IV256 : regs :=
    (0x6a09e667,
     0xbb67ae85,
     0x3c6ef372,
     0xa54ff53a,
     0x510e527f,
     0x9b05688c,
     0x1f83d9ab,
     0x5be0cd19).

Definition IV384 : regs :=
    (0xcbbb9d5dc1059ed8,
     0x629a292a367cd507,
     0x9159015a3070dd17,
     0x152fecd8f70e5939,
     0x67332667ffc00b31,
     0x8eb44a8768581511,
     0xdb0c2e0d64f98fa7,
     0x47b5481dbefa4fa4).

Definition IV512 : regs :=
    (0x6a09e667f3bcc908,
     0xbb67ae8584caa73b,
     0x3c6ef372fe94f82b,
     0xa54ff53a5f1d36f1,
     0x510e527fade682d1,
     0x9b05688c2b3e6c1f,
     0x1f83d9abfb41bd6b,
     0x5be0cd19137e2179).

Definition sha224 : list byte -> list byte := sha2 F32 IV224 28.
Definition sha256 : list byte -> list byte := sha2 F32 IV256 32.
Definition sha384 : list byte -> list byte := sha2 F64 IV384 48.
Definition sha512 : list byte -> list byte := sha2 F64 IV512 64.

Definition md224 : EVP_MD := mkMD 28 sha224.
Definition md256 : EVP_MD := mkMD 32 sha256.
Definition md384 : EVP_MD := mkMD 48 sha384.
Definition md512 : EVP_MD := mkMD 64 sha512.

End SHA2.

(** ** Concrete instances

    A provider that knows SHA-1 only, a fresh SHA-1 context, and a context in
    use; they serve to run the functions. *)

Definition sha1_provider (name : String.string) : option EVP_MD :=
  Some SHA1.md.

Definition always_ok (k : nat) : bool := true.

(** Every digest call succeeds but the one numbered [n] (from 0). *)
Definition fails_at (n k : nat) : bool := negb (Nat.eqb k n).

Definition fresh_ctx : SP800_90PRNG_Data_t :=
  mkData (sha1PRNG 0) SP800_90UNINIT String.EmptyString
         (zeros 55) (zeros 55) (zeros 55) (zeros 20)
         [x00; x00; x00; x01] None None [].

Definition live_ctx : SP800_90PRNG_Data_t :=
  mkData (sha1PRNG 0) SP800_90READY String.EmptyString
         (N2be 55 0x0102030405) (N2be 55 0x0a0b0c0d0e0f) (zeros 55) (zeros 20)
         [x00; x00; x00; x01] (Some SHA1.md) (Some EVP_MD_CTX_new) [].

(** The input of a string buffer of the tables, as a caller pointer. *)
Definition input (b : StringBuf) : pointer := Mem (buf b).

(** The data stack holding the three bytes "abc". *)
Definition abc_stack : DS := DS_Append DS_Init 3 (Mem [x61; x62; x63]).

(** ** Predicates used in the statements *)

(** The bytes of a list of fragments, read in the memory of [p]. *)
Definition frags_bytes (p : SP800_90PRNG_Data_t) (counter : byte)
           (outbits : list byte) (frags : list (nat * pointer)) : list byte :=
  concat (map (fun f => load p counter outbits (snd f) (fst f)) frags).

(** The bytes of an input data stack: the caller of [Hash_df] has no pointer
    to its locals. *)
Definition input_bytes (p : SP800_90PRNG_Data_t) (ds : DS) : list byte :=
  frags_bytes p x00 [] (dse ds).

(** A fragment that [Hash_df] does not overwrite while it runs: it points
    neither to the output buffer nor to [pctx->T] (see the note of the
    function), nor to the locals of [Hash_df]. *)
Definition stable_ptr (out : ctx_buf) (ptr : pointer) : Prop :=
  match ptr with
  | Ctx b => b <> out /\ b <> BufT
  | Counter | Outbits => False
  | NULL | Mem _ => True
  end.

Definition stable (out : ctx_buf) (frags : list (nat * pointer)) : Prop :=
  Forall (fun f => stable_ptr out (snd f)) frags.

(** A pointer handed in by the caller: [NULL] or input memory. *)
Definition caller_ptr (ptr : pointer) : Prop :=
  match ptr with
  | NULL | Mem _ => True
  | _ => False
  end.

(** The [n] bytes of caller input at [ptr]. *)
Definition caller_read (ptr : pointer) (n : nat) : list byte :=
  firstn n match ptr with Mem bs => bs | _ => [] end.

(** [p'] is [p] but for the digest context and the log of digest calls. *)
Definition same_mem (p p' : SP800_90PRNG_Data_t) : Prop :=
  prng p' = prng p /\ state p' = state p /\
  error_reason p' = error_reason p /\
  V p' = V p /\ C p' = C p /\ T p' = T p /\ eBuf p' = eBuf p /\
  CallCount_c p' = CallCount_c p /\ alg_md p' = alg_md p.

(** [p'] is [p] but for the buffers [bs], the digest context and the log. *)
Definition frame (bs : list ctx_buf) (p p' : SP800_90PRNG_Data_t) : Prop :=
  prng p' = prng p /\ state p' = state p /\
  error_reason p' = error_reason p /\
  CallCount_c p' = CallCount_c p /\ alg_md p' = alg_md p /\
  forall b, ~ In b bs -> get_buf b p' = get_buf b p.

(** The digest context of [p] was initialised with [md] and has absorbed
    [a]. *)
Definition absorbing (md : EVP_MD) (a : list byte)
           (p : SP800_90PRNG_Data_t) : Prop :=
  md_ctx p = Some (mkMDCTX (Some md) a).

(** The blocks [Hash_df] produces from the counter value [c] on. *)
Fixpoint df_stream (md : EVP_MD) (tl : list byte) (n : nat) (c : byte)
  : list byte :=
  match n with
  | O => []
  | S n' => HASH md (c :: tl) ++ df_stream md tl n' (byte_succ c)
  end.

(** From the specification: the value of [V] that enters Hashgen.  With
    additional input it is [(V + w) mod 2^(8*seedlen)] for
    [w = HASH(0x02 || V || additional_input)], and [V] otherwise. *)
Definition mixed_V (md : EVP_MD) (p : SP800_90PRNG_Data_t)
           (adata : pointer) (adatal : nat) : list byte :=
  let n := seedlen (prng p) in
  let v := firstn n (V p) in
  if negb (is_null adata) && negb (Nat.eqb adatal 0) then
    N2be n (be2N v + be2N (HASH md (x02 :: v ++ caller_read adata adatal)))
  else v.

(** The blocks Hashgen produces from the data value [x] on. *)
Fixpoint gen_stream (md : EVP_MD) (n k : nat) (x : N) : list byte :=
  match k with
  | O => []
  | S k' => HASH md (N2be n x) ++ gen_stream md n k' (x + 1)
  end.

(** From the specification: the value of [V] after a generate call, from the
    value [v] that entered Hashgen: [H = HASH(0x03 || v)], then
    [((v + H) + C) + reseed_counter], each sum modulo [2^(8*seedlen)]. *)
Definition post_V (md : EVP_MD) (n : nat) (v c cnt : list byte) : N :=
  (((be2N v + be2N (HASH md (x03 :: v))) mod modulus n + be2N c)
     mod modulus n + be2N cnt) mod modulus n.

(** The state is the error state and carries a diagnostic. *)
Definition in_error (p : SP800_90PRNG_Data_t) : Prop :=
  state p = SP800_90ERROR /\ error_reason p <> String.EmptyString.

(** [p'] comes from [p] by running code of this file: the profile and the
    digest are the same, an error state stays one, and if one of the digest
    calls made in between returned non-success the state is the error
    state. *)
Definition step_ok (p p' : SP800_90PRNG_Data_t) : Prop :=
  prng p' = prng p /\ alg_md p' = alg_md p /\
  (in_error p -> in_error p') /\
  exists l, evp_log p' = l ++ evp_log p /\ (In false l -> in_error p').

(** [p'] is [p] after one digest call that returned [ok]. *)
Definition after_call (ok : bool) (p p' : SP800_90PRNG_Data_t) : Prop :=
  prng p' = prng p /\ alg_md p' = alg_md p /\ state p' = state p /\
  error_reason p' = error_reason p /\ evp_log p' = ok :: evp_log p.

(** The digest context of [p] was initialised with [md]. *)
Definition bound (md : EVP_MD) (p : SP800_90PRNG_Data_t) : Prop :=
  exists a, md_ctx p = Some (mkMDCTX (Some md) a).

(** The context a block of [SHA_Generate] ends with comes from [p]. *)
Definition flow_step (p : SP800_90PRNG_Data_t) (f : flow) : Prop :=
  match f with
  | Next q | Return q => step_ok p q
  end.

(** ** The five profiles together *)

(** The profiles of the file, in the order of the file. *)
Definition all_PRNGs (SELF_TEST_AT : nat) : list SP800_90PRNG_t :=
  [ sha512PRNG SELF_TEST_AT; sha384PRNG SELF_TEST_AT;
    sha256PRNG SELF_TEST_AT; sha224PRNG SELF_TEST_AT;
    sha1PRNG SELF_TEST_AT ].

(** The six buffers of a slot, in the order of the initialisers. *)
Definition kat_bufs (k : KAT) : list StringBuf :=
  [ kat_ein k; kat_nonce k; kat_personalization k;
    kat_reseed_ein k; kat_generate_ein k; kat_expected k ].

Local Open Scope string_scope.

(** A provider that knows the five digests the profiles name. *)
Definition evp_provider (name : String.string) : option EVP_MD :=
  if String.eqb name "SHA1" then Some SHA1.md
  else if String.eqb name "SHA224" then Some SHA2.md224
  else if String.eqb name "SHA256" then Some SHA2.md256
  else if String.eqb name "SHA384" then Some SHA2.md384
  else if String.eqb name "SHA512" then Some SHA2.md512
  else None.

(** A context on which an earlier call has failed. *)
Definition error_ctx : SP800_90PRNG_Data_t :=
  failed "Digest Init failed" live_ctx.

Local Close Scope string_scope.

(** A context of the profile [prof] before its first use; the buffers are as
    wide as the profile needs. *)
Definition new_ctx (prof : SP800_90PRNG_t) : SP800_90PRNG_Data_t :=
  mkData prof SP800_90UNINIT String.EmptyString
         (zeros (seedlen prof)) (zeros (seedlen prof)) (zeros (seedlen prof))
         (zeros (OBL prof)) [x00; x00; x00; x01] None None [].

(** One known answer run on the functions of the file: instantiate with the
    entropy input, the nonce and the personalization string of the slot;
    when the fifth buffer of the slot is not empty, reseed with it as
    entropy input; then generate as many bytes as the expected buffer
    holds, without additional input. *)
Definition kat_run (prof : SP800_90PRNG_t) (k : KAT) : option (list byte) :=
  match SHA_Instantiate evp_provider always_ok (new_ctx prof)
                        (input (kat_ein k)) (len (kat_ein k))
                        (input (kat_nonce k)) (len (kat_nonce k))
                        (input (kat_personalization k))
                        (len (kat_personalization k)) with
  | None => None
  | Some (_, p) =>
      let seeded :=
        if Nat.eqb (len (kat_generate_ein k)) 0 then Some p
        else
          match SHA_ReSeed always_ok p (input (kat_generate_ein k))
                           (len (kat_generate_ein k)) NULL 0 with
          | Some (_, p') => Some p'
          | None => None
          end in
      match seeded with
      | None => None
      | Some p =>
          let n := len (kat_expected k) in
          match SHA_Generate always_ok p (zeros n) n NULL 0 with
          | Some (_, _, out) => Some out
          | None => None
          end
      end
  end.

(** ** Predicates for runs in which digest calls may fail *)

(** A digest that yields [md_size] bytes, and at least one. *)
Definition EVP_MD_wf (md : EVP_MD) : Prop :=
  0 < md_size md /\ forall m, length (HASH md m) = md_size md.

(** [p'] differs from [p] at most in the buffers [bs], the state and its
    diagnostic, the content of the digest context and the log. *)
Definition touch (bs : list ctx_buf) (p p' : SP800_90PRNG_Data_t) : Prop :=
  prng p' = prng p /\ CallCount_c p' = CallCount_c p /\
  alg_md p' = alg_md p /\
  (md_ctx p' = None <-> md_ctx p = None) /\
  forall b, ~ In b bs -> get_buf b p' = get_buf b p.

(** [p'] comes from [p] by code of this file that made the digest calls
    [l] (newest first) and wrote to the buffers [bs] at most.  The state and
    its diagnostic change only when a call failed, and then the state is the
    error state; an error state stays one. *)
Definition ran (bs : list ctx_buf) (l : list bool)
           (p p' : SP800_90PRNG_Data_t) : Prop :=
  touch bs p p' /\ evp_log p' = l ++ evp_log p /\
  (Forall (eq true) l ->
   state p' = state p /\ error_reason p' = error_reason p) /\
  (In false l -> in_error p') /\
  (in_error p -> in_error p').

(** How a block of [SHA_Generate] that falls through on success ends: on
    [Next] every digest call it made succeeded, on [Return] one failed and
    only the buffers [bs_fail] were written. *)
Definition flow_ran (bs_fail bs_ok : list ctx_buf) (p : SP800_90PRNG_Data_t)
           (f : flow) : Prop :=
  match f with
  | Next q => exists l, ran bs_ok l p q /\ Forall (eq true) l
  | Return q => exists l, ran bs_fail l p q /\ In false l
  end.

(** What [SHA_ReSeed] and [SHA_Generate] need of an instance: a digest that
    is well formed, a digest context, and [seedlen] bytes in [V] and [C]. *)
Definition usable (p : SP800_90PRNG_Data_t) : Prop :=
  (exists md, alg_md p = Some md /\ EVP_MD_wf md)
  /\ md_ctx p <> None
  /\ seedlen (prng p) <= length (V p)
  /\ seedlen (prng p) <= length (C p).

(** ** Bytes and additions *)

Lemma byte_of_N_to_N (n : N) : Byte.to_N (byte_of_N n) = (n mod 256)%N.
Proof.
  unfold byte_of_N.
  destruct (Byte.of_N (n mod 256)) eqn:E.
  - now apply Byte.to_of_N.
  - apply Byte.of_N_None_iff in E.
    pose proof (N.mod_upper_bound n 256). lia.
Qed.

Lemma byte_of_to_N (b : byte) : byte_of_N (Byte.to_N b) = b.
Proof.
  unfold byte_of_N.
  pose proof (Byte.to_N_bounded b).
  rewrite N.mod_small by lia.
  now rewrite Byte.of_to_N.
Qed.

Lemma byte_of_N_mod (n : N) : byte_of_N (n mod 256) = byte_of_N n.
Proof.
  unfold byte_of_N. now rewrite N.Div0.mod_mod.
Qed.

Lemma be2N_app (l : list byte) (x : byte) :
  be2N (l ++ [x]) = (be2N l * 256 + Byte.to_N x)%N.
Proof.
  unfold be2N. now rewrite fold_left_app.
Qed.

Lemma be2N_rev (l : list byte) : be2N (rev l) = le2N l.
Proof.
  induction l as [|x l IH]; cbn [rev le2N]; [reflexivity|].
  rewrite be2N_app, IH. lia.
Qed.

Lemma be2N_le2N (l : list byte) : be2N l = le2N (rev l).
Proof.
  now rewrite <- be2N_rev, rev_involutive.
Qed.

Lemma le2N_bound (l : list byte) : (le2N l < modulus (length l))%N.
Proof.
  unfold modulus.
  induction l as [|x l IH]; cbn [length le2N]; [simpl; lia|].
  rewrite Nat2N.inj_succ, N.pow_succ_r'.
  pose proof (Byte.to_N_bounded x). lia.
Qed.

Lemma be2N_bound (l : list byte) : (be2N l < modulus (length l))%N.
Proof.
  rewrite be2N_le2N, <- (length_rev l). apply le2N_bound.
Qed.

Lemma modulus_pos (n : nat) : (0 < modulus n)%N.
Proof.
  unfold modulus. apply N.neq_0_lt_0, N.pow_nonzero. lia.
Qed.

Lemma modulus_succ (n : nat) : modulus (S n) = (256 * modulus n)%N.
Proof.
  unfold modulus. now rewrite Nat2N.inj_succ, N.pow_succ_r'.
Qed.

Lemma mod_digit (r k m : N) :
  (r < 256)%N ->
  ((r + 256 * k) mod (256 * m) = r + 256 * (k mod m))%N.
Proof.
  intros Hr.
  rewrite N.Div0.mod_mul_r.
  replace (r + 256 * k)%N with (r + k * 256)%N by lia.
  rewrite N.Div0.mod_add, N.div_add by lia.
  rewrite N.mod_small, N.div_small by lia.
  reflexivity.
Qed.

Lemma length_add_carry (a b : list byte) (c : N) :
  length (add_carry a b c) = length a.
Proof.
  revert b c. induction a as [|x a IH]; intros; simpl; [reflexivity|].
  now rewrite IH.
Qed.

Lemma le2N_hd_tl (b : list byte) :
  le2N b = (Byte.to_N (hd x00 b) + 256 * le2N (tl b))%N.
Proof.
  destruct b; reflexivity.
Qed.

(** The ripple adder adds, modulo the width of its first operand. *)
Lemma add_carry_spec (a b : list byte) (c : N) :
  le2N (add_carry a b c) = ((le2N a + le2N b + c) mod modulus (length a))%N.
Proof.
  revert b c. induction a as [|x a IH]; intros b c.
  - simpl. unfold modulus. simpl. now rewrite N.mod_1_r.
  - cbn [add_carry le2N length]. rewrite IH, byte_of_N_to_N.
    rewrite modulus_succ, (le2N_hd_tl b).
    set (s := (Byte.to_N x + Byte.to_N (hd x00 b) + c)%N).
    replace (Byte.to_N x + 256 * le2N a
             + (Byte.to_N (hd x00 b) + 256 * le2N (tl b)) + c)%N
      with (s + 256 * (le2N a + le2N (tl b)))%N by (unfold s; lia).
    rewrite (N.div_mod s 256) at 3 by lia.
    replace (256 * (s / 256) + s mod 256 + 256 * (le2N a + le2N (tl b)))%N
      with (s mod 256 + 256 * (le2N a + le2N (tl b) + s / 256))%N by lia.
    rewrite mod_digit by (apply N.mod_upper_bound; lia).
    reflexivity.
Qed.

Lemma length_N2be (n : nat) (x : N) : length (N2be n x) = n.
Proof.
  revert x. induction n as [|n IH]; intros; simpl; [reflexivity|].
  rewrite length_app, IH. simpl. lia.
Qed.

Lemma be2N_N2be (n : nat) (x : N) : be2N (N2be n x) = (x mod modulus n)%N.
Proof.
  revert x. induction n as [|n IH]; intros x.
  - unfold modulus. simpl. now rewrite N.mod_1_r.
  - cbn [N2be]. rewrite be2N_app, IH, byte_of_N_to_N, modulus_succ.
    rewrite (N.Div0.mod_mul_r x 256 (modulus n)). lia.
Qed.

Lemma N2be_mod (n : nat) (x : N) : N2be n (x mod modulus n) = N2be n x.
Proof.
  revert x. induction n as [|n IH]; intros x; [reflexivity|].
  cbn [N2be]. rewrite modulus_succ.
  rewrite <- (IH (x / 256)%N), <- (IH (_ / 256)%N).
  rewrite <- (byte_of_N_mod x), <- (byte_of_N_mod (x mod _)).
  rewrite N.Div0.mod_mul_r.
  f_equal.
  - f_equal.
    replace (x mod 256 + 256 * ((x / 256) mod modulus n))%N
      with (x mod 256 + ((x / 256) mod modulus n) * 256)%N by lia.
    rewrite N.div_add by lia.
    rewrite N.div_small by (apply N.mod_upper_bound; lia).
    now rewrite N.add_0_l, N.Div0.mod_mod.
  - f_equal. f_equal.
    replace (x mod 256 + 256 * ((x / 256) mod modulus n))%N
      with (x mod 256 + ((x / 256) mod modulus n) * 256)%N by lia.
    now rewrite N.Div0.mod_add, N.Div0.mod_mod.
Qed.

Lemma N2be_be2N (l : list byte) : N2be (length l) (be2N l) = l.
Proof.
  induction l as [|x l IH] using rev_ind; [reflexivity|].
  rewrite length_app, Nat.add_comm. cbn [length Nat.add N2be].
  rewrite be2N_app.
  pose proof (Byte.to_N_bounded x).
  replace ((be2N l * 256 + Byte.to_N x) / 256)%N with (be2N l).
  2:{ rewrite N.add_comm, N.div_add by lia.
      rewrite N.div_small by lia. reflexivity. }
  rewrite IH. f_equal. f_equal.
  rewrite <- byte_of_N_mod.
  rewrite N.add_comm, N.Div0.mod_add, N.mod_small by lia.
  apply byte_of_to_N.
Qed.

Lemma N2be_add_mod (n : nat) (x y : N) :
  N2be n (x mod modulus n + y) = N2be n (x + y).
Proof.
  rewrite <- N2be_mod, N.Div0.add_mod_idemp_l. apply N2be_mod.
Qed.

Lemma Add_head (dst a : list byte) (a_len : nat) (b : list byte) (hint : nat) :
  a_len <= length a ->
  firstn a_len (Add dst a a_len b hint)
  = N2be a_len (be2N (firstn a_len a)
                + be2N (firstn (if Nat.eqb hint 0 then a_len else hint) b)).
Proof.
  intros Hlen. unfold Add.
  set (A := firstn a_len a).
  set (B := firstn _ b).
  set (R := add_carry (rev A) (rev B) 0).
  assert (HA : length A = a_len) by (unfold A; rewrite length_firstn; lia).
  assert (HR : length (rev R) = a_len).
  { unfold R. now rewrite length_rev, length_add_carry, length_rev. }
  rewrite firstn_app, HR, Nat.sub_diag, firstn_O, app_nil_r.
  rewrite <- HR at 1. rewrite firstn_all.
  rewrite <- (N2be_be2N (rev R)), HR.
  rewrite be2N_rev. unfold R.
  rewrite add_carry_spec, length_rev, HA, !(be2N_le2N A), !(be2N_le2N B).
  rewrite N.add_0_r. apply N2be_mod.
Qed.

Lemma Add_tail (dst a : list byte) (a_len : nat) (b : list byte) (hint : nat) :
  a_len <= length a ->
  skipn a_len (Add dst a a_len b hint) = skipn a_len dst.
Proof.
  intros Hlen. unfold Add.
  rewrite skipn_app.
  rewrite length_rev, length_add_carry, length_rev, length_firstn.
  rewrite Nat.min_l by exact Hlen.
  rewrite Nat.sub_diag, skipn_O.
  rewrite skipn_all2; [reflexivity|].
  rewrite length_rev, length_add_carry, length_rev, length_firstn. lia.
Qed.

Lemma length_Add (dst a : list byte) (a_len : nat) (b : list byte) (hint : nat) :
  a_len <= length a -> a_len <= length dst ->
  length (Add dst a a_len b hint) = length dst.
Proof.
  intros Ha Hd. unfold Add.
  rewrite length_app, length_rev, length_add_carry, length_rev.
  rewrite length_firstn, length_skipn. lia.
Qed.

(** ** Lists *)

Lemma skipn_cons_nth {A : Type} (l : list A) (i : nat) (x : A) (r : list A) :
  skipn i l = x :: r -> nth_error l i = Some x /\ skipn (S i) l = r.
Proof.
  revert i. induction l as [|y l IH]; intros [|i] H; simpl in *;
    try discriminate.
  - now inversion H.
  - now apply IH.
Qed.

Lemma list_sum_zero {A : Type} (l : list (nat * A)) :
  list_sum (map fst l) = 0 -> Forall (fun f => fst f = 0) l.
Proof.
  induction l as [|f l IHl]; intros H; constructor; simpl in H.
  - lia.
  - apply IHl. lia.
Qed.

Lemma firstn_memcpy (dst src : list byte) (n j : nat) :
  j <= n -> n <= length src ->
  firstn j (memcpy dst src n) = firstn j src.
Proof.
  intros Hj Hn. unfold memcpy.
  rewrite firstn_app, length_firstn, Nat.min_l by exact Hn.
  replace (j - n) with 0 by lia.
  rewrite firstn_O, app_nil_r, firstn_firstn.
  now rewrite Nat.min_l by exact Hj.
Qed.

Lemma skipn_memcpy (dst src : list byte) (n : nat) :
  n <= length src ->
  skipn n (memcpy dst src n) = skipn n dst.
Proof.
  intros Hn. unfold memcpy.
  rewrite skipn_app, length_firstn, Nat.min_l by exact Hn.
  rewrite Nat.sub_diag, skipn_O, skipn_all2; [reflexivity|].
  rewrite length_firstn. lia.
Qed.

Lemma firstn_memset0 (dst : list byte) (n : nat) :
  firstn n (memset0 dst n) = zeros n.
Proof.
  unfold memset0, zeros.
  rewrite firstn_app, repeat_length, Nat.sub_diag, firstn_O, app_nil_r.
  rewrite <- (repeat_length x00 n) at 1. apply firstn_all.
Qed.

(** Writing [j] bytes at [off] and then [x] after them. *)
Lemma memcpy_at_step (b src x : list byte) (off j n : nat) :
  j <= length src -> off + j + n <= length b ->
  let b1 := memcpy_at b off src j in
  firstn (off + j) b1 ++ x ++ skipn (off + j + n) b1
  = firstn off b ++ (firstn j src ++ x) ++ skipn (off + (j + n)) b.
Proof.
  intros Hj Hb b1. unfold b1, memcpy_at.
  set (A := firstn off b). set (B := firstn j src).
  assert (HAB : length (A ++ B) = off + j).
  { unfold A, B. rewrite length_app, !length_firstn. lia. }
  rewrite (app_assoc A).
  rewrite firstn_app, skipn_app, HAB, Nat.sub_diag, firstn_O, app_nil_r.
  rewrite (firstn_all2 (A ++ B)) by lia.
  rewrite (skipn_all2 (A ++ B)) by lia.
  replace (off + j + n - (off + j)) with n by lia.
  rewrite skipn_skipn.
  replace (n + (off + j)) with (off + (j + n)) by lia.
  cbn [app]. now rewrite <- !app_assoc.
Qed.

Lemma length_memcpy_at (b src : list byte) (off j : nat) :
  j <= length src -> off + j <= length b ->
  length (memcpy_at b off src j) = length b.
Proof.
  intros Hj Hb. unfold memcpy_at.
  rewrite !length_app, !length_firstn, length_skipn. lia.
Qed.

(** Projections of updated contexts. *)
Ltac record_simpl :=
  cbn [prng state error_reason V C T eBuf CallCount_c alg_md md_ctx evp_log
       set_state set_error_reason set_V set_C set_T set_eBuf set_alg_md
       set_md_ctx set_evp_log evp_return get_buf set_buf] in *.

(** ** Runs in which every digest call succeeds *)

Section Success.

Variable EVP_get_digestbyname : String.string -> option EVP_MD.
Variable evp_ok : nat -> bool.
Variable md : EVP_MD.

Hypothesis evp_ok_all : forall k, evp_ok k = true.
Hypothesis md_length : forall m, length (HASH md m) = md_size md.

Lemma EVP_DigestInit_ok (p : SP800_90PRNG_Data_t) (c : EVP_MD_CTX) :
  md_ctx p = Some c -> alg_md p = Some md ->
  EVP_DigestInit evp_ok p
  = (true, evp_return true (set_md_ctx (Some (mkMDCTX (Some md) [])) p)).
Proof.
  intros Hc Hm. unfold EVP_DigestInit.
  now rewrite Hc, Hm, evp_ok_all.
Qed.

Lemma EVP_DigestUpdate_ok (p : SP800_90PRNG_Data_t) (a data : list byte) :
  absorbing md a p ->
  EVP_DigestUpdate evp_ok p data
  = (true,
     evp_return true (set_md_ctx (Some (mkMDCTX (Some md) (a ++ data))) p)).
Proof.
  intros Hc. unfold EVP_DigestUpdate.
  now rewrite Hc, evp_ok_all.
Qed.

Lemma EVP_DigestFinal_ok (p : SP800_90PRNG_Data_t) (a : list byte)
      (dst : ctx_buf) :
  absorbing md a p ->
  EVP_DigestFinal evp_ok p dst
  = (true,
     evp_return true
       (set_buf dst (memcpy (get_buf dst p) (HASH md a) (md_size md)) p),
     md_size md).
Proof.
  intros Hc. unfold EVP_DigestFinal.
  now rewrite Hc, evp_ok_all.
Qed.

Lemma load_same_mem (p p' : SP800_90PRNG_Data_t) (c : byte) (ob : list byte)
      (ptr : pointer) (n : nat) :
  same_mem p p' -> load p' c ob ptr n = load p c ob ptr n.
Proof.
  intros (_ & _ & _ & HV & HC & HT & HE & _).
  unfold load. destruct ptr as [| |[]| |]; cbn [get_buf]; congruence.
Qed.

Lemma same_mem_refl (p : SP800_90PRNG_Data_t) : same_mem p p.
Proof. repeat split. Qed.

Lemma same_mem_trans (p q r : SP800_90PRNG_Data_t) :
  same_mem p q -> same_mem q r -> same_mem p r.
Proof.
  unfold same_mem. intros H1 H2.
  decompose [and] H1. decompose [and] H2. repeat split; congruence.
Qed.

(** The inner loop of [Hash_df] absorbs the fragments that remain. *)
Lemma Hash_df_update_ok (c : byte) (ob : list byte)
      (rest : list (nat * pointer)) :
  forall (fuel : nat) (p : SP800_90PRNG_Data_t) (ds : DS) (a : list byte),
    skipn (index ds) (dse ds) = rest ->
    total ds = list_sum (map fst rest) ->
    length rest < fuel ->
    absorbing md a p ->
    exists p' ds',
      Hash_df_update evp_ok fuel p ds c ob = Some (true, p', ds')
      /\ dse ds' = dse ds
      /\ absorbing md (a ++ frags_bytes p c ob rest) p'
      /\ same_mem p p'.
Proof.
  induction rest as [|[n ptr] rest IH]; intros fuel p ds a Hrest Htot Hfuel Ha;
    (destruct fuel as [|fuel]; [cbn [length] in Hfuel; lia|]);
    cbn [Hash_df_update].
  - rewrite Htot. cbn. exists p, ds.
    unfold frags_bytes. cbn. rewrite app_nil_r.
    auto using same_mem_refl.
  - destruct (Nat.eqb (total ds) 0) eqn:E.
    + apply Nat.eqb_eq in E. exists p, ds.
      split; [reflexivity|]. split; [reflexivity|].
      split; [|apply same_mem_refl].
      assert (Hz : Forall (fun f => fst f = 0) ((n, ptr) :: rest)).
      { apply list_sum_zero. congruence. }
      replace (frags_bytes p c ob ((n, ptr) :: rest)) with (@nil byte).
      { now rewrite app_nil_r. }
      clear - Hz. unfold frags_bytes.
      induction Hz as [|f l Hf _ IHz]; cbn; [reflexivity|].
      rewrite <- IHz, Hf. unfold load. now rewrite firstn_O.
    + apply skipn_cons_nth in Hrest. destruct Hrest as [Hnth Hskip].
      unfold DS_Extract. rewrite Hnth.
      rewrite (EVP_DigestUpdate_ok _ _ _ Ha).
      edestruct (IH fuel
                   (evp_return true
                      (set_md_ctx
                         (Some (mkMDCTX (Some md) (a ++ load p c ob ptr n))) p))
                   (mkDS (dse ds) (S (index ds)) (total ds - n)))
        as (p' & ds' & Hrun & Hdse & Habs & Hmem).
      * exact Hskip.
      * cbn [total]. rewrite Htot. simpl. lia.
      * cbn [length] in Hfuel. lia.
      * reflexivity.
      * exists p', ds'. rewrite Hrun.
        split; [reflexivity|]. split; [exact Hdse|]. split.
        -- unfold frags_bytes in *. cbn [map concat fst snd].
           rewrite app_assoc. exact Habs.
        -- eapply same_mem_trans; [|exact Hmem]. repeat split.
Qed.

Lemma get_set_buf (b : ctx_buf) (v : list byte) (p : SP800_90PRNG_Data_t) :
  get_buf b (set_buf b v p) = v.
Proof. now destruct b. Qed.

Lemma get_set_buf_other (b b' : ctx_buf) (v : list byte)
      (p : SP800_90PRNG_Data_t) :
  b' <> b -> get_buf b' (set_buf b v p) = get_buf b' p.
Proof. destruct b, b'; intros H; try reflexivity; now elim H. Qed.

Lemma EVP_MD_CTX_reset_some (p : SP800_90PRNG_Data_t) (c : EVP_MD_CTX) :
  md_ctx p = Some c ->
  EVP_MD_CTX_reset p = set_md_ctx (Some EVP_MD_CTX_new) p.
Proof. intros H. unfold EVP_MD_CTX_reset. now rewrite H. Qed.

Lemma load_stable (out : ctx_buf) (p p' : SP800_90PRNG_Data_t)
      (c c' : byte) (ob ob' : list byte) (ptr : pointer) (n : nat) :
  stable_ptr out ptr ->
  (forall b, ~ In b [out; BufT] -> get_buf b p' = get_buf b p) ->
  load p' c' ob' ptr n = load p c ob ptr n.
Proof.
  intros Hs Hf. unfold load.
  destruct ptr as [| |b| |]; cbn in Hs; try reflexivity; try contradiction.
  rewrite Hf; [reflexivity|].
  cbn. intros [H|[H|[]]]; destruct Hs; congruence.
Qed.

Lemma frags_bytes_stable (out : ctx_buf) (p p' : SP800_90PRNG_Data_t)
      (c c' : byte) (ob ob' : list byte) (frags : list (nat * pointer)) :
  stable out frags ->
  (forall b, ~ In b [out; BufT] -> get_buf b p' = get_buf b p) ->
  frags_bytes p' c' ob' frags = frags_bytes p c ob frags.
Proof.
  intros Hs Hf. unfold frags_bytes.
  induction Hs as [|f l H _ IH]; cbn [map concat]; [reflexivity|].
  now rewrite IH, (load_stable out p p' c c' ob ob' _ _ H Hf).
Qed.

Lemma frame_refl (bs : list ctx_buf) (p : SP800_90PRNG_Data_t) : frame bs p p.
Proof. repeat split. Qed.

Lemma frame_trans (bs : list ctx_buf) (p q r : SP800_90PRNG_Data_t) :
  frame bs p q -> frame bs q r -> frame bs p r.
Proof.
  intros (?&?&?&?&?&Hpq) (?&?&?&?&?&Hqr).
  repeat split; try congruence.
  intros b Hb. now rewrite Hqr, Hpq.
Qed.

Lemma frame_weaken (bs bs' : list ctx_buf) (p q : SP800_90PRNG_Data_t) :
  incl bs bs' -> frame bs p q -> frame bs' p q.
Proof.
  intros Hi (?&?&?&?&?&Hpq). repeat split; try assumption.
  intros b Hb. apply Hpq. intros Hin. apply Hb, Hi, Hin.
Qed.

Lemma same_mem_frame (bs : list ctx_buf) (p q : SP800_90PRNG_Data_t) :
  same_mem p q -> frame bs p q.
Proof.
  intros (?&?&?&?&?&?&?&?&?). repeat split; try assumption.
  intros [] _; assumption.
Qed.

(** The outer loop of [Hash_df]: the blocks [HASH(counter || outbits || S)],
    for the successive counter values, are laid down from [off] on, [outl]
    bytes in all, and the digest left in [pctx->T] is cleared. *)
Lemma Hash_df_loop_ok (out : ctx_buf) (outbits : list byte)
      (frags : list (nat * pointer)) (Sb : list byte) :
  out <> BufT -> length outbits = 4 -> stable out frags -> 0 < md_size md ->
  forall (fuel outl : nat) (p : SP800_90PRNG_Data_t) (counter : byte)
         (off digestL : nat) (ds : DS) (c0 : EVP_MD_CTX) (k : nat),
    outl < fuel ->
    dse ds = (1, Counter) :: (4, Outbits) :: frags ->
    md_ctx p = Some c0 -> alg_md p = Some md ->
    frags_bytes p x00 [] frags = Sb ->
    off + outl <= length (get_buf out p) ->
    outl <= k * md_size md ->
    exists p',
      Hash_df_loop evp_ok fuel p ds counter outbits out off outl digestL
      = Some p'
      /\ get_buf out p'
         = firstn off (get_buf out p)
           ++ firstn outl (df_stream md (outbits ++ Sb) k counter)
           ++ skipn (off + outl) (get_buf out p)
      /\ frame [out; BufT] p p'
      /\ (exists c1, md_ctx p' = Some c1)
      /\ firstn (if Nat.eqb outl 0 then digestL else md_size md) (T p')
         = zeros (if Nat.eqb outl 0 then digestL else md_size md).
Proof.
  intros Hout Hob Hst Hsize.
  induction fuel as [|fuel IH];
    intros outl p counter off digestL ds c0 k Hfuel Hds Hctx Halg HSb Hroom Hk;
    [lia|].
  cbn [Hash_df_loop].
  destruct (Nat.eqb outl 0) eqn:E.
  - apply Nat.eqb_eq in E. subst outl.
    eexists. split; [reflexivity|]. split; [|split; [|split]].
    + destruct out; try congruence; record_simpl;
        now rewrite Nat.add_0_r, firstn_O, firstn_skipn.
    + repeat split. intros b Hb.
      destruct b; record_simpl; try reflexivity. elim Hb. cbn. auto.
    + exists c0. exact Hctx.
    + apply firstn_memset0.
  - apply Nat.eqb_neq in E.
    rewrite (EVP_DigestInit_ok p c0 Hctx Halg). cbn [negb].
    set (p1 := evp_return true (set_md_ctx (Some (mkMDCTX (Some md) [])) p)).
    destruct (Hash_df_update_ok counter outbits (dse ds)
                (S (length (dse (DS_Reset ds)))) p1 (DS_Reset ds) [])
      as (p2 & ds2 & Hrun & Hdse2 & Habs2 & Hmem2);
      [reflexivity|reflexivity|cbn; lia|reflexivity|].
    rewrite Hrun.
    assert (Hmem : same_mem p p2).
    { apply (same_mem_trans p p1 p2); [repeat split|exact Hmem2]. }
    assert (Hbytes : [] ++ frags_bytes p1 counter outbits (dse ds)
                     = counter :: outbits ++ Sb).
    { rewrite Hds. unfold frags_bytes. cbn [map concat fst snd app].
      fold (frags_bytes p1 counter outbits frags).
      rewrite (frags_bytes_stable out p p1 x00 counter [] outbits frags Hst)
        by reflexivity.
      rewrite HSb. unfold load at 1 2.
      rewrite (firstn_all2 outbits) by lia. reflexivity. }
    rewrite Hbytes in Habs2.
    rewrite (EVP_DigestFinal_ok p2 _ BufT Habs2). cbn [negb].
    set (H := HASH md (counter :: outbits ++ Sb)) in *.
    set (p3 := evp_return true
                 (set_buf BufT (memcpy (get_buf BufT p2) H (md_size md)) p2)).
    rewrite (EVP_MD_CTX_reset_some p3 _ Habs2).
    set (p4 := set_md_ctx (Some EVP_MD_CTX_new) p3).
    set (j := if Nat.ltb (md_size md) outl then md_size md else outl).
    assert (Hj : 1 <= j /\ j <= outl /\ j <= md_size md
                 /\ (outl - j = 0 \/ j = md_size md)).
    { unfold j. destruct (Nat.ltb_spec (md_size md) outl); lia. }
    assert (HT4 : T p4 = memcpy (T p2) H (md_size md)) by reflexivity.
    assert (HlenH : length H = md_size md) by apply md_length.
    assert (Hfr2 : frame [out; BufT] p p2).
    { now apply same_mem_frame. }
    assert (Hfr4 : frame [out; BufT] p2 p4).
    { repeat split. intros b Hb.
      destruct b; try reflexivity. elim Hb. cbn. auto. }
    assert (Hout4 : get_buf out p4 = get_buf out p).
    { destruct Hmem as (_&_&_&HV&HC&_&HE&_).
      destruct out; try congruence; cbn; congruence. }
    set (p5 := set_buf out (memcpy_at (get_buf out p4) off (T p4) j) p4).
    assert (Hfr5 : frame [out; BufT] p p5).
    { apply (frame_trans _ p p2 p5 Hfr2).
      apply (frame_trans _ p2 p4 p5 Hfr4).
      repeat split; try (destruct out; reflexivity).
      intros b Hb. apply get_set_buf_other.
      intros ->. apply Hb. cbn. auto. }
    assert (HlenT4 : j <= length (T p4)).
    { rewrite HT4. unfold memcpy.
      rewrite length_app, length_firstn, HlenH. lia. }
    assert (Hout5 : get_buf out p5
                    = memcpy_at (get_buf out p) off (T p4) j).
    { unfold p5. now rewrite get_set_buf, Hout4. }
    destruct k as [|k]; [cbn in Hk; lia|].
    destruct (IH (outl - j) p5 (byte_succ counter) (off + j) (md_size md)
                 ds2 EVP_MD_CTX_new k)
      as (p' & Hrun' & Hout' & Hfr' & Hctx' & HT').
    + lia.
    + now rewrite Hdse2.
    + destruct out; reflexivity.
    + destruct Hmem as (_&_&_&_&_&_&_&_&Ha2).
      destruct out; cbn; congruence.
    + rewrite <- HSb.
      apply (frags_bytes_stable out p p5 x00 x00 [] [] frags Hst).
      apply Hfr5.
    + rewrite Hout5, length_memcpy_at; lia.
    + cbn in Hk. destruct Hj as (Hj1&Hj2&Hj3&[Hz| Hjs]); lia.
    + exists p'. split; [exact Hrun'|]. split; [|split; [|split]].
      * rewrite Hout', Hout5.
        rewrite memcpy_at_step by lia.
        replace (off + (j + (outl - j))) with (off + outl) by lia.
        f_equal. f_equal.
        cbn [df_stream]. fold H.
        rewrite HT4, firstn_memcpy by lia.
        destruct Hj as (Hj1&Hj2&Hj3&[Hz| Hjs]).
        -- rewrite Hz, firstn_O, app_nil_r.
           replace j with outl by lia.
           rewrite firstn_app.
           replace (outl - length H) with 0 by lia.
           now rewrite firstn_O, app_nil_r.
        -- rewrite Hjs, firstn_app, <- HlenH, firstn_all.
           rewrite (firstn_all2 H) by lia. reflexivity.
      * apply (frame_trans _ p p5 p' Hfr5 Hfr').
      * exact Hctx'.
      * destruct (Nat.eqb (outl - j) 0); exact HT'.
Qed.

Lemma byte_succ_octet (i : nat) : byte_succ (octet i) = octet (S i).
Proof.
  unfold byte_succ, octet.
  rewrite byte_of_N_to_N, Nat2N.inj_succ, <- N.add_1_r.
  rewrite <- byte_of_N_mod, N.Div0.add_mod_idemp_l.
  apply byte_of_N_mod.
Qed.

Lemma df_stream_seq (tl : list byte) (k i : nat) :
  df_stream md tl k (octet i)
  = concat (map (fun i => HASH md (octet i :: tl)) (seq i k)).
Proof.
  revert i. induction k as [|k IH]; intros i; [reflexivity|].
  cbn [df_stream seq map concat].
  now rewrite byte_succ_octet, IH.
Qed.

Lemma length_blocks {A : Type} (f : A -> list byte) (l : list A) (d : nat) :
  (forall x, length (f x) = d) ->
  length (concat (map f l)) = length l * d.
Proof.
  intros Hf. induction l as [|x l IH]; [reflexivity|].
  cbn [map concat length]. rewrite length_app, Hf, IH. lia.
Qed.

Lemma ceil_div_ge (n d : nat) : 0 < d -> n <= ceil_div n d * d.
Proof.
  intros Hd. unfold ceil_div.
  pose proof (Nat.div_mod_eq (n + d - 1) d) as H.
  pose proof (Nat.mod_upper_bound (n + d - 1) d) as Hr.
  nia.
Qed.

Lemma ceil_div_le (n d m : nat) : 0 < d -> n <= m * d -> ceil_div n d <= m.
Proof.
  intros Hd Hn. unfold ceil_div.
  apply Nat.lt_succ_r, Nat.Div0.div_lt_upper_bound. nia.
Qed.

Lemma length_Hash_df_spec (S : list byte) (L : nat) :
  0 < md_size md -> length (Hash_df_spec md S L) = L.
Proof.
  intros Hd. unfold Hash_df_spec.
  rewrite length_firstn, (length_blocks _ _ (md_size md)), length_seq
    by (intros; apply md_length).
  pose proof (ceil_div_ge L (md_size md) Hd). lia.
Qed.

Lemma uint2BS_bits (L : nat) :
  uint2BS (N.of_nat L * 8) = N2be 4 (N.of_nat L * 8).
Proof.
  unfold uint2BS. change (2 ^ 32)%N with (modulus 4). apply N2be_mod.
Qed.

(** [Hash_df] when every digest call succeeds. *)
Lemma Hash_df_ok (p : SP800_90PRNG_Data_t) (S : DS) (out : ctx_buf) (L : nat)
      (c0 : EVP_MD_CTX) :
  md_ctx p = Some c0 -> alg_md p = Some md -> 0 < md_size md ->
  out <> BufT -> stable out (dse S) -> L <= length (get_buf out p) ->
  exists p',
    Hash_df evp_ok p S out L = Some p'
    /\ get_buf out p'
       = Hash_df_spec md (input_bytes p S) L ++ skipn L (get_buf out p)
    /\ frame [out; BufT] p p'
    /\ (exists c1, md_ctx p' = Some c1)
    /\ (1 <= L -> firstn (md_size md) (T p') = zeros (md_size md)).
Proof.
  intros Hctx Halg Hd Hout Hst Hroom. unfold Hash_df.
  destruct (Hash_df_loop_ok out (uint2BS (N.of_nat L * 8)) (dse S)
              (input_bytes p S) Hout (length_N2be 4 _) Hst Hd
              (Datatypes.S L) L p x01 0 0
              (DS_Insert (DS_Insert S 4 Outbits) 1 Counter) c0
              (ceil_div L (md_size md)))
    as (p' & Hrun & Hbuf & Hfr & Hc & HT);
    [lia|reflexivity|assumption|assumption|reflexivity|exact Hroom|
     now apply ceil_div_ge|].
  exists p'. split; [exact Hrun|]. split; [|split; [|split]]; try assumption.
  - rewrite Hbuf. cbn [firstn app Nat.add]. f_equal.
    unfold Hash_df_spec. rewrite <- uint2BS_bits.
    change x01 with (octet 1). now rewrite df_stream_seq.
  - intros HL. destruct (Nat.eqb_spec L 0); [lia|exact HT].
Qed.

Lemma load_caller (p : SP800_90PRNG_Data_t) (c : byte) (ob : list byte)
      (ptr : pointer) (n : nat) :
  caller_ptr ptr -> load p c ob ptr n = caller_read ptr n.
Proof. destruct ptr; cbn; intros H; try contradiction; reflexivity. Qed.

Lemma caller_stable (out : ctx_buf) (ptr : pointer) :
  caller_ptr ptr -> stable_ptr out ptr.
Proof. destruct ptr; cbn; tauto. Qed.

(** C1: for [1 <= L <= 255 * digest_len], when every digest call succeeds,
    [Hash_df(S, L)] returns, the [L] bytes it wrote to [out] are
    [HASH(i || no_of_bits || S)] for [i = 1 .. ceil(L / digest_len)],
    concatenated and truncated to [L], nothing is written after them, [i] is
    a single octet that never wraps, and [no_of_bits] is [L * 8] on 32 bits,
    big-endian (the value [L * 8] itself as long as it fits 32 bits). *)
Theorem Hash_df_correct (p : SP800_90PRNG_Data_t) (S : DS) (out : ctx_buf)
        (L : nat) (c0 : EVP_MD_CTX) :
  md_ctx p = Some c0 -> alg_md p = Some md ->
  out <> BufT -> stable out (dse S) ->
  1 <= L -> L <= 255 * md_size md -> L <= length (get_buf out p) ->
  exists p',
    Hash_df evp_ok p S out L = Some p'
    /\ firstn L (get_buf out p') = Hash_df_spec md (input_bytes p S) L
    /\ length (firstn L (get_buf out p')) = L
    /\ skipn L (get_buf out p') = skipn L (get_buf out p)
    /\ Forall (fun i => Byte.to_N (octet i) = N.of_nat i)
              (seq 1 (ceil_div L (md_size md)))
    /\ ((N.of_nat L * 8 < 2 ^ 32)%N ->
        be2N (N2be 4 (N.of_nat L * 8)) = (N.of_nat L * 8)%N).
Proof.
  intros Hctx Halg Hout Hst HL1 HL2 Hroom.
  assert (Hd : 0 < md_size md) by lia.
  destruct (Hash_df_ok p S out L c0 Hctx Halg Hd Hout Hst Hroom)
    as (p' & Hrun & Hbuf & _).
  pose proof (length_Hash_df_spec (input_bytes p S) L Hd) as Hlen.
  exists p'. split; [exact Hrun|].
  rewrite Hbuf.
  rewrite firstn_app, skipn_app, Hlen, Nat.sub_diag, firstn_O, skipn_O.
  rewrite app_nil_r, firstn_all2, skipn_all2 by lia.
  repeat split; try assumption.
  - apply Forall_forall. intros i Hi. apply in_seq in Hi.
    pose proof (ceil_div_le L (md_size md) 255 Hd HL2).
    unfold octet. rewrite byte_of_N_to_N. apply N.mod_small. lia.
  - intros Hbits. rewrite be2N_N2be. apply N.mod_small. exact Hbits.
Qed.

(** C2: when every digest call succeeds, [SHA_Instantiate] returns with
    [V = Hash_df(ein || nonce || personalization, seedlen)] and
    [C = Hash_df(0x00 || V, seedlen)], each [seedlen] bytes wide. *)
Theorem SHA_Instantiate_correct (p : SP800_90PRNG_Data_t)
        (ein : pointer) (einl : nat) (nonce : pointer) (nonl : nat)
        (person : pointer) (perl : nat) :
  EVP_get_digestbyname (specific (prng p)) = Some md ->
  0 < md_size md ->
  caller_ptr ein -> caller_ptr nonce -> caller_ptr person ->
  seedlen (prng p) <= length (V p) -> seedlen (prng p) <= length (C p) ->
  exists p',
    SHA_Instantiate EVP_get_digestbyname evp_ok p ein einl nonce nonl
                    person perl
    = Some (state p, p')
    /\ firstn (seedlen (prng p)) (V p')
       = Hash_df_spec md (caller_read ein einl ++ caller_read nonce nonl
                          ++ caller_read person perl) (seedlen (prng p))
    /\ firstn (seedlen (prng p)) (C p')
       = Hash_df_spec md (x00 :: firstn (seedlen (prng p)) (V p'))
                      (seedlen (prng p))
    /\ length (firstn (seedlen (prng p)) (V p')) = seedlen (prng p)
    /\ length (firstn (seedlen (prng p)) (C p')) = seedlen (prng p).
Proof.
  intros Hmd Hd Hein Hnon Hper HV HC.
  unfold SHA_Instantiate. cbv zeta. record_simpl. rewrite Hmd.
  set (n := seedlen (prng p)) in *.
  set (p0 := set_alg_md (Some md) (set_V (memset0 (V p) n) p)).
  set (S1 := DS_Append (DS_Append (DS_Append DS_Init einl ein) nonl nonce)
                       perl person).
  set (p1 := match md_ctx p with
             | Some _ => p0
             | None => set_md_ctx (Some EVP_MD_CTX_new) p0
             end).
  assert (Hp1 : state p1 = state p /\ prng p1 = prng p
                /\ alg_md p1 = Some md /\ (exists c, md_ctx p1 = Some c)
                /\ V p1 = memset0 (V p) n /\ C p1 = C p).
  { unfold p1, p0. destruct (md_ctx p) eqn:E; cbn; eauto 10. }
  destruct Hp1 as (Hst1 & Hprng1 & Halg1 & [c1 Hctx1] & HV1 & HC1).
  replace (match md_ctx p with
           | Some _ => p0
           | None => set_md_ctx (Some EVP_MD_CTX_new) p0
           end) with p1 by reflexivity.
  replace (seedlen (prng p1)) with n by (now rewrite Hprng1).
  destruct (Hash_df_ok p1 S1 BufV n c1 Hctx1 Halg1 Hd)
    as (p2 & Hrun2 & HV2 & Hfr2 & [c2 Hctx2] & _).
  { discriminate. }
  { repeat constructor; now apply caller_stable. }
  { cbn [get_buf]. rewrite HV1. unfold memset0, zeros.
    rewrite length_app, repeat_length. lia. }
  rewrite Hrun2.
  destruct Hfr2 as (Hprng2 & Hst2 & _ & _ & Halg2 & Hbuf2).
  replace (seedlen (prng p2)) with n by (now rewrite Hprng2, Hprng1).
  set (S2 := DS_Append (DS_Append DS_Init 1 C00) n (Ctx BufV)).
  destruct (Hash_df_ok p2 S2 BufC n c2 Hctx2) as
      (p3 & Hrun3 & HC3 & Hfr3 & _).
  { now rewrite Halg2. }
  { exact Hd. }
  { discriminate. }
  { repeat constructor; cbn; discriminate. }
  { rewrite (Hbuf2 BufC); [cbn [get_buf]; now rewrite HC1|].
    cbn. intros [H|[H|[]]]; discriminate. }
  rewrite Hrun3.
  destruct Hfr3 as (Hprng3 & Hst3 & _ & _ & _ & Hbuf3).
  assert (HV3 : V p3 = V p2).
  { apply (Hbuf3 BufV). cbn. intros [H|[H|[]]]; discriminate. }
  cbn [get_buf] in HV2, HC3.
  pose proof (length_Hash_df_spec
                (input_bytes p1 S1) n Hd) as Hlen1.
  pose proof (length_Hash_df_spec
                (input_bytes p2 S2) n Hd) as Hlen2.
  assert (HfV : firstn n (V p3) = Hash_df_spec md (input_bytes p1 S1) n).
  { rewrite HV3, HV2, firstn_app, Hlen1, Nat.sub_diag, firstn_O, app_nil_r.
    apply firstn_all2. lia. }
  assert (HfC : firstn n (C p3) = Hash_df_spec md (input_bytes p2 S2) n).
  { rewrite HC3, firstn_app, Hlen2, Nat.sub_diag, firstn_O, app_nil_r.
    apply firstn_all2. lia. }
  exists p3. split; [do 2 f_equal; congruence|].
  rewrite HfV, HfC, Hlen1, Hlen2.
  repeat split.
  - f_equal. unfold input_bytes, frags_bytes, S1. cbn [dse DS_Append DS_Init
      app map concat fst snd].
    now rewrite !load_caller, app_nil_r by assumption.
  - rewrite <- HfV, HV3.
    f_equal. unfold input_bytes, frags_bytes, S2. cbn [dse DS_Append DS_Init
      app map concat fst snd].
    unfold load. cbn [C00 firstn app get_buf]. now rewrite app_nil_r.
Qed.

(** C3: when every digest call succeeds, [SHA_ReSeed] returns with
    [V = Hash_df(0x01 || V_old || ein || additional_input, seedlen)] and
    [C = Hash_df(0x00 || V, seedlen)]; the first [Hash_df] goes through
    [pctx->C], which is then recomputed from the new [V]. *)
Theorem SHA_ReSeed_correct (p : SP800_90PRNG_Data_t)
        (ein : pointer) (einl : nat) (adata : pointer) (adatal : nat)
        (c0 : EVP_MD_CTX) :
  md_ctx p = Some c0 -> alg_md p = Some md -> 0 < md_size md ->
  caller_ptr ein -> caller_ptr adata ->
  seedlen (prng p) <= length (V p) -> seedlen (prng p) <= length (C p) ->
  exists p',
    SHA_ReSeed evp_ok p ein einl adata adatal = Some (state p, p')
    /\ firstn (seedlen (prng p)) (V p')
       = Hash_df_spec md (x01 :: firstn (seedlen (prng p)) (V p)
                          ++ caller_read ein einl
                          ++ caller_read adata adatal) (seedlen (prng p))
    /\ firstn (seedlen (prng p)) (C p')
       = Hash_df_spec md (x00 :: firstn (seedlen (prng p)) (V p'))
                      (seedlen (prng p))
    /\ length (firstn (seedlen (prng p)) (V p')) = seedlen (prng p)
    /\ length (firstn (seedlen (prng p)) (C p')) = seedlen (prng p).
Proof.
  intros Hctx Halg Hd Hein Hadata HV HC.
  unfold SHA_ReSeed. cbv zeta.
  set (n := seedlen (prng p)) in *.
  set (S1 := DS_Append (DS_Append (DS_Append (DS_Append DS_Init 1 C01)
                                             n (Ctx BufV)) einl ein)
                       adatal adata).
  destruct (Hash_df_ok p S1 BufC n c0 Hctx Halg Hd)
    as (p1 & Hrun1 & HC1 & Hfr1 & [c1 Hctx1] & _).
  { discriminate. }
  { repeat constructor; try (now apply caller_stable); cbn; discriminate. }
  { exact HC. }
  rewrite Hrun1.
  destruct Hfr1 as (Hprng1 & Hst1 & _ & _ & Halg1 & Hbuf1).
  assert (HV1 : V p1 = V p).
  { apply (Hbuf1 BufV). cbn. intros [H|[H|[]]]; discriminate. }
  record_simpl.
  replace (seedlen (prng p1)) with n by (now rewrite Hprng1).
  set (p2 := set_V (memcpy (V p1) (C p1) n) p1).
  set (S2 := DS_Append (DS_Append DS_Init 1 C00) n (Ctx BufV)).
  pose proof (length_Hash_df_spec (input_bytes p S1) n Hd) as Hlen1.
  assert (HV2 : firstn n (V p2) = Hash_df_spec md (input_bytes p S1) n).
  { unfold p2. cbn [V set_V]. rewrite firstn_memcpy by (rewrite ?HC1, ?length_app; lia).
    rewrite HC1, firstn_app, Hlen1, Nat.sub_diag, firstn_O, app_nil_r.
    apply firstn_all2. lia. }
  destruct (Hash_df_ok p2 S2 BufC n c1 Hctx1) as
      (p3 & Hrun3 & HC3 & Hfr3 & _).
  { exact (eq_trans Halg1 Halg). }
  { exact Hd. }
  { discriminate. }
  { repeat constructor; cbn; discriminate. }
  { cbn [get_buf p2 C set_V]. rewrite HC1, length_app, Hlen1. lia. }
  rewrite Hrun3.
  destruct Hfr3 as (Hprng3 & Hst3 & _ & _ & _ & Hbuf3).
  assert (HV3 : V p3 = V p2).
  { apply (Hbuf3 BufV). cbn. intros [H|[H|[]]]; discriminate. }
  pose proof (length_Hash_df_spec (input_bytes p2 S2) n Hd) as Hlen2.
  assert (HfC : firstn n (C p3) = Hash_df_spec md (input_bytes p2 S2) n).
  { cbn [get_buf] in HC3.
    rewrite HC3, firstn_app, Hlen2, Nat.sub_diag, firstn_O, app_nil_r.
    apply firstn_all2. lia. }
  exists p3. split; [do 2 f_equal; cbn in Hst3; congruence|].
  rewrite HV3, HV2, HfC, Hlen1, Hlen2.
  repeat split.
  - f_equal. unfold input_bytes, frags_bytes, S1. cbn [dse DS_Append DS_Init
      app map concat fst snd].
    rewrite (load_caller p _ _ ein), (load_caller p _ _ adata) by assumption.
    unfold load. cbn [C01 firstn app get_buf]. now rewrite app_nil_r.
  - rewrite <- HV2.
    f_equal. unfold input_bytes, frags_bytes, S2. cbn [dse DS_Append DS_Init
      app map concat fst snd].
    unfold load. cbn [C00 firstn app get_buf]. now rewrite app_nil_r.
Qed.

Lemma check_ok (p : SP800_90PRNG_Data_t) (msg : String.string)
      (k : SP800_90PRNG_Data_t -> flow) :
  check (true, p) msg k = k p.
Proof. reflexivity. Qed.

Lemma check_final_ok (p : SP800_90PRNG_Data_t) (l : nat)
      (msg : String.string) (k : SP800_90PRNG_Data_t -> nat -> flow) :
  check_final (true, p, l) msg k = k p l.
Proof. reflexivity. Qed.

Lemma length_mixed_V (p : SP800_90PRNG_Data_t) (adata : pointer)
      (adatal : nat) :
  seedlen (prng p) <= length (V p) ->
  length (mixed_V md p adata adatal) = seedlen (prng p).
Proof.
  intros HV. unfold mixed_V.
  destruct (negb (is_null adata) && negb (Nat.eqb adatal 0)).
  - apply length_N2be.
  - rewrite length_firstn. lia.
Qed.

(** Lines 204-246 when every digest call succeeds. *)
Lemma Generate_additional_ok (p : SP800_90PRNG_Data_t) (adata : pointer)
      (adatal : nat) (c0 : EVP_MD_CTX) :
  md_ctx p = Some c0 -> alg_md p = Some md -> caller_ptr adata ->
  seedlen (prng p) <= length (V p) ->
  OBL (prng p) = md_size md -> 0 < md_size md ->
  exists p1,
    Generate_additional evp_ok p adata adatal = Next p1
    /\ firstn (seedlen (prng p)) (V p1) = mixed_V md p adata adatal
    /\ skipn (seedlen (prng p)) (V p1) = skipn (seedlen (prng p)) (V p)
    /\ frame [BufV; BufT] p p1
    /\ (exists c1, md_ctx p1 = Some c1).
Proof.
  intros Hctx Halg Hadata HV HOBL Hd.
  unfold Generate_additional, mixed_V. cbv zeta.
  destruct (negb (is_null adata) && negb (Nat.eqb adatal 0)) eqn:E.
  - rewrite (EVP_DigestInit_ok p c0 Hctx Halg), check_ok.
    erewrite EVP_DigestUpdate_ok by reflexivity. rewrite check_ok.
    erewrite EVP_DigestUpdate_ok by reflexivity. rewrite check_ok.
    erewrite EVP_DigestUpdate_ok by reflexivity. rewrite check_ok.
    erewrite EVP_DigestFinal_ok by reflexivity. rewrite check_final_ok.
    erewrite EVP_MD_CTX_reset_some by reflexivity.
    eexists. split; [reflexivity|].
    record_simpl.
    rewrite (load_caller _ _ _ adata adatal Hadata).
    unfold load. cbn [C02 firstn app get_buf]. record_simpl.
    set (w := HASH md _).
    assert (Hw : length w = md_size md) by apply md_length.
    split; [|split; [|split]].
    + rewrite Add_head by exact HV. f_equal. f_equal.
      destruct (Nat.eqb_spec (OBL (prng p)) 0) as [H0|H0]; [lia|].
      rewrite HOBL. f_equal. rewrite firstn_memcpy by lia.
      apply firstn_all2. lia.
    + now apply Add_tail.
    + repeat split. intros b Hb.
      destruct b; try reflexivity; elim Hb; cbn; auto.
    + eexists. reflexivity.
  - exists p. split; [reflexivity|]. split; [reflexivity|].
    split; [reflexivity|]. split; [apply frame_refl|]. now exists c0.
Qed.

Lemma Add_one (t : list byte) (n : nat) (x : N) :
  n <= length t -> firstn n t = N2be n x ->
  firstn n (Add t t n [x01] 1) = N2be n (x + 1).
Proof.
  intros Hn Ht. rewrite Add_head by exact Hn.
  cbn [Nat.eqb firstn]. rewrite Ht, be2N_N2be.
  change (be2N [x01]) with 1%N. apply N2be_add_mod.
Qed.

(** Lines 252-281 when every digest call succeeds: the blocks
    [HASH(data)], [HASH(data + 1)], ... are laid down in the caller's buffer
    from [off] on, [blen] bytes in all; each digest is complete in
    [pctx->eBuf]. *)
Lemma Hashgen_ok :
  0 < md_size md ->
  forall (fuel blen : nat) (p : SP800_90PRNG_Data_t) (buffer : list byte)
         (off : nat) (c0 : EVP_MD_CTX) (k : nat) (x : N),
    blen < fuel -> md_ctx p = Some c0 -> alg_md p = Some md ->
    seedlen (prng p) <= length (T p) ->
    firstn (seedlen (prng p)) (T p) = N2be (seedlen (prng p)) x ->
    off + blen <= length buffer -> blen <= k * md_size md ->
    exists p',
      Hashgen evp_ok fuel p buffer off blen
      = Some (Next p',
              firstn off buffer
              ++ firstn blen (gen_stream md (seedlen (prng p)) k x)
              ++ skipn (off + blen) buffer)
      /\ frame [BufT; BufE] p p'
      /\ (exists c1, md_ctx p' = Some c1)
      /\ (1 <= blen ->
          firstn (md_size md) (eBuf p')
          = HASH md (N2be (seedlen (prng p))
                          (x + N.of_nat ((blen - 1) / md_size md)))).
Proof.
  intros Hd.
  induction fuel as [|fuel IH];
    intros blen p buffer off c0 k x Hfuel Hctx Halg HlenT HT Hroom Hk; [lia|].
  cbn [Hashgen].
  destruct (Nat.eqb blen 0) eqn:E.
  - apply Nat.eqb_eq in E. subst blen.
    exists p. rewrite Nat.add_0_r, firstn_O. cbn [app].
    rewrite firstn_skipn.
    split; [reflexivity|]. split; [apply frame_refl|].
    split; [now exists c0|]. lia.
  - apply Nat.eqb_neq in E.
    rewrite (EVP_DigestInit_ok p c0 Hctx Halg). cbn [negb].
    erewrite EVP_DigestUpdate_ok by reflexivity. cbn [negb].
    erewrite EVP_DigestFinal_ok by reflexivity. cbn [negb].
    erewrite EVP_MD_CTX_reset_some by reflexivity.
    record_simpl. unfold load. cbn [get_buf app]. record_simpl.
    rewrite HT.
    set (n := seedlen (prng p)) in *.
    set (H := HASH md (N2be n x)).
    assert (HlenH : length H = md_size md) by apply md_length.
    set (j := if Nat.ltb (md_size md) blen then md_size md else blen).
    assert (Hj : 1 <= j /\ j <= blen /\ j <= md_size md
                 /\ (blen - j = 0 \/ j = md_size md)).
    { unfold j. destruct (Nat.ltb_spec (md_size md) blen); lia. }
    destruct Hj as (Hj1 & Hj2 & Hj3 & Hj4).
    match goal with
    | |- context [Hashgen evp_ok fuel ?q ?b _ _] =>
        set (p5 := q); set (buffer1 := b)
    end.
    destruct k as [|k]; [cbn in Hk; lia|].
    destruct (IH (blen - j) p5 buffer1 (off + j) EVP_MD_CTX_new k (x + 1)%N)
      as (p' & Hrun & Hfr & Hctx' & HE).
    + lia.
    + reflexivity.
    + exact Halg.
    + unfold p5. record_simpl. fold n. rewrite length_Add; lia.
    + unfold p5. record_simpl. fold n. now apply Add_one.
    + unfold buffer1. rewrite length_memcpy_at; try lia.
      unfold memcpy. rewrite length_app, length_firstn. lia.
    + cbn in Hk. destruct Hj4 as [Hz| Hjs]; lia.
    + assert (Hprng5 : seedlen (prng p5) = n) by reflexivity.
      rewrite Hprng5 in *.
      exists p'. rewrite Hrun. split; [|split; [|split]].
      * do 2 f_equal. unfold buffer1.
        rewrite memcpy_at_step.
        2:{ unfold memcpy. rewrite length_app, length_firstn. lia. }
        2:{ lia. }
        replace (off + (j + (blen - j))) with (off + blen) by lia.
        f_equal. f_equal.
        cbn [gen_stream]. fold H.
        rewrite firstn_memcpy by lia.
        destruct Hj4 as [Hz| Hjs].
        -- rewrite Hz, firstn_O, app_nil_r.
           replace j with blen by lia.
           rewrite firstn_app.
           replace (blen - length H) with 0 by lia.
           now rewrite firstn_O, app_nil_r.
        -- rewrite Hjs, firstn_app, <- HlenH, firstn_all.
           rewrite (firstn_all2 H) by lia. reflexivity.
      * apply (frame_trans _ p p5 p'); [|exact Hfr].
        repeat split. intros b Hb.
        destruct b; try reflexivity; elim Hb; cbn; auto.
      * exact Hctx'.
      * intros _.
        destruct (Nat.eq_dec (blen - j) 0) as [Hz|Hnz].
        -- destruct Hfr as (_&_&_&_&_&Hbuf).
           assert (Hlast : (blen - 1) / md_size md = 0).
           { apply Nat.div_small. lia. }
           rewrite Hlast, N.add_0_r.
           assert (Hp' : p' = p5).
           { rewrite Hz in Hrun. destruct fuel; [lia|].
             cbn in Hrun. now inversion Hrun. }
           rewrite Hp'. unfold p5. record_simpl. fold H.
           rewrite firstn_memcpy by lia. apply firstn_all2. lia.
        -- rewrite HE by lia.
           do 2 f_equal.
           assert (Hjs : j = md_size md) by lia.
           rewrite Hjs.
           replace (blen - 1) with (blen - md_size md - 1 + 1 * md_size md)
             by lia.
           rewrite Nat.div_add by lia. lia.
Qed.

Lemma gen_stream_seq (n k : nat) (x : N) :
  gen_stream md n k x
  = concat (map (fun i => HASH md (N2be n (x + N.of_nat i))) (seq 0 k)).
Proof.
  revert x. induction k as [|k IH]; intros x; [reflexivity|].
  cbn [gen_stream seq map concat]. rewrite N.add_0_r, IH. f_equal.
  rewrite <- seq_shift, map_map. f_equal.
  apply map_ext. intros i. do 2 f_equal. lia.
Qed.

Lemma length_Hashgen_spec (n : nat) (d : list byte) (len : nat) :
  0 < md_size md -> length (Hashgen_spec md n d len) = len.
Proof.
  intros Hd. unfold Hashgen_spec.
  rewrite length_firstn, (length_blocks _ _ (md_size md)), length_seq
    by (intros; apply md_length).
  pose proof (ceil_div_ge len (md_size md) Hd). lia.
Qed.

(** Lines 285-324 when every digest call succeeds. *)
Lemma Generate_update_ok (p : SP800_90PRNG_Data_t) (c0 : EVP_MD_CTX) :
  md_ctx p = Some c0 -> alg_md p = Some md ->
  seedlen (prng p) <= length (V p) ->
  OBL (prng p) = md_size md -> 0 < md_size md ->
  exists p',
    Generate_update evp_ok p = Return p'
    /\ be2N (firstn (seedlen (prng p)) (V p'))
       = post_V md (seedlen (prng p)) (firstn (seedlen (prng p)) (V p))
                (firstn (seedlen (prng p)) (C p))
                (firstn 4 (CallCount_c p))
    /\ skipn (seedlen (prng p)) (V p') = skipn (seedlen (prng p)) (V p)
    /\ length (V p') = length (V p)
    /\ firstn (seedlen (prng p)) (T p') = zeros (seedlen (prng p))
    /\ frame [BufV; BufT] p p'.
Proof.
  intros Hctx Halg HV HOBL Hd.
  unfold Generate_update. cbv zeta.
  erewrite EVP_DigestInit_ok by (record_simpl; eassumption).
  rewrite check_ok.
  erewrite EVP_DigestUpdate_ok by reflexivity. rewrite check_ok.
  erewrite EVP_DigestUpdate_ok by reflexivity. rewrite check_ok.
  erewrite EVP_DigestFinal_ok by reflexivity. rewrite check_final_ok.
  erewrite EVP_MD_CTX_reset_some by reflexivity.
  eexists. split; [reflexivity|].
  record_simpl. unfold load. cbn [C03 firstn app get_buf]. record_simpl.
  set (n := seedlen (prng p)) in *.
  set (v := firstn n (V p)).
  set (H := HASH md (x03 :: v)).
  assert (HlenH : length H = md_size md) by apply md_length.
  set (V1 := Add (V p) (V p) n (memcpy (memset0 (T p) n) H (md_size md))
                 (OBL (prng p))).
  set (V2 := Add V1 V1 n (C p) 0).
  assert (H1 : firstn n V1 = N2be n (be2N v + be2N H)).
  { unfold V1. rewrite Add_head by exact HV. fold v.
    destruct (Nat.eqb_spec (OBL (prng p)) 0) as [H0|H0]; [lia|].
    rewrite HOBL, firstn_memcpy by lia.
    now rewrite (firstn_all2 H) by lia. }
  assert (L1 : length V1 = length (V p)).
  { unfold V1. apply length_Add; lia. }
  assert (H2 : firstn n V2
               = N2be n (be2N (firstn n V1) + be2N (firstn n (C p)))).
  { unfold V2. rewrite Add_head by lia. reflexivity. }
  assert (L2 : length V2 = length (V p)).
  { unfold V2. rewrite length_Add; lia. }
  split; [|split; [|split; [|split]]].
  - rewrite Add_head by lia. cbn [Nat.eqb].
    rewrite be2N_N2be, H2, be2N_N2be, H1, be2N_N2be. reflexivity.
  - rewrite Add_tail by lia. unfold V2. rewrite Add_tail by lia.
    unfold V1. now rewrite Add_tail by lia.
  - rewrite length_Add; lia.
  - apply firstn_memset0.
  - repeat split. intros b Hb.
    destruct b; try reflexivity; elim Hb; cbn; auto.
Qed.

(** [SHA_Generate] when every digest call succeeds. *)
Lemma SHA_Generate_ok (p : SP800_90PRNG_Data_t) (buffer : list byte)
      (blen : nat) (adata : pointer) (adatal : nat) (c0 : EVP_MD_CTX) :
  md_ctx p = Some c0 -> alg_md p = Some md -> caller_ptr adata ->
  seedlen (prng p) <= length (V p) ->
  OBL (prng p) = md_size md -> 0 < md_size md ->
  blen <= length buffer ->
  exists p' buffer',
    SHA_Generate evp_ok p buffer blen adata adatal
    = Some (state p, p', buffer')
    /\ buffer'
       = Hashgen_spec md (seedlen (prng p)) (mixed_V md p adata adatal) blen
         ++ skipn blen buffer
    /\ be2N (firstn (seedlen (prng p)) (V p'))
       = post_V md (seedlen (prng p)) (mixed_V md p adata adatal)
                (firstn (seedlen (prng p)) (C p))
                (firstn 4 (CallCount_c p))
    /\ (1 <= blen ->
        firstn (md_size md) (eBuf p')
        = HASH md (N2be (seedlen (prng p))
                        (be2N (mixed_V md p adata adatal)
                         + N.of_nat ((blen - 1) / md_size md)))).
Proof.
  intros Hctx Halg Hadata HV HOBL Hd Hroom.
  unfold SHA_Generate.
  destruct (Generate_additional_ok p adata adatal c0 Hctx Halg Hadata HV
                                   HOBL Hd)
    as (p1 & Hrun1 & HV1 & _ & Hfr1 & [c1 Hctx1]).
  rewrite Hrun1.
  pose proof (length_mixed_V p adata adatal HV) as Hlenm.
  set (m := mixed_V md p adata adatal) in *.
  destruct Hfr1 as (Hprng1 & Hst1 & _ & Hcnt1 & Halg1 & Hbuf1).
  rewrite Hprng1.
  set (n := seedlen (prng p)) in *.
  set (p1' := set_T (memcpy (T p1) (V p1) n) p1).
  assert (HlenV1 : n <= length (V p1)).
  { rewrite <- Hlenm, <- HV1, length_firstn. lia. }
  assert (HT1 : firstn n (T p1') = N2be n (be2N m)).
  { unfold p1'. cbn [T set_T]. rewrite firstn_memcpy by lia.
    rewrite HV1, <- Hlenm. symmetry. apply N2be_be2N. }
  destruct (Hashgen_ok Hd (S blen) blen p1' buffer 0 c1
                       (ceil_div blen (md_size md)) (be2N m))
    as (p2 & Hrun2 & Hfr2 & [c2 Hctx2] & HE2).
  { lia. }
  { exact Hctx1. }
  { cbn. congruence. }
  { cbn [prng p1' set_T T]. rewrite Hprng1. fold n. unfold memcpy.
    rewrite length_app, length_firstn. lia. }
  { cbn [prng p1' set_T]. rewrite Hprng1. exact HT1. }
  { exact Hroom. }
  { now apply ceil_div_ge. }
  assert (Hprng1' : seedlen (prng p1') = n).
  { cbn [prng p1' set_T]. now rewrite Hprng1. }
  rewrite Hprng1' in *. rewrite Hrun2.
  destruct Hfr2 as (Hprng2 & Hst2 & _ & Hcnt2 & Halg2 & Hbuf2).
  assert (HV2 : V p2 = V p1).
  { apply (Hbuf2 BufV). cbn. intros [H|[H|[]]]; discriminate. }
  assert (HC2 : C p2 = C p).
  { transitivity (C p1); [apply (Hbuf2 BufC)|apply (Hbuf1 BufC)];
      cbn; intros [H|[H|[]]]; discriminate. }
  destruct (Generate_update_ok p2 c2 Hctx2) as
      (p3 & Hrun3 & HV3 & _ & _ & _ & Hfr3).
  { cbn in Halg2. congruence. }
  { cbn in Hprng2. rewrite Hprng2, Hprng1, HV2. exact HlenV1. }
  { cbn in Hprng2. now rewrite Hprng2, Hprng1. }
  { exact Hd. }
  rewrite Hrun3.
  destruct Hfr3 as (Hprng3 & Hst3 & _ & _ & _ & Hbuf3).
  cbn in Hprng2, Hst2, Hcnt2.
  exists p3. eexists. split; [|split; [|split]].
  - do 2 f_equal. f_equal. congruence.
  - cbn [firstn app Nat.add]. f_equal.
    unfold Hashgen_spec. now rewrite gen_stream_seq.
  - assert (Hn2 : seedlen (prng p2) = n) by (unfold n; congruence).
    rewrite Hn2 in HV3.
    rewrite HV3, HV2, HV1, HC2. do 2 f_equal. congruence.
  - intros Hb. rewrite <- (HE2 Hb).
    f_equal. apply (Hbuf3 BufE). cbn. intros [H|[H|[]]]; discriminate.
Qed.

(** C4: when every digest call succeeds, [SHA_Generate] returns after
    writing exactly [n] bytes to the caller's buffer and nothing past offset
    [n]; the bytes are the first [n] of [HASH(data_1) || HASH(data_2) || ...]
    with [data_1] the value of [V] after the additional input and
    [data_(i+1) = (data_i + 1) mod 2^(8*seedlen)]; every digest goes to
    [pctx->eBuf], which holds the last one in full although only
    [min(remaining, digest length)] bytes of it were copied out.  The
    statement needs no bound on [n]: it holds in particular up to
    [max_bytes]. *)
Theorem SHA_Generate_output (p : SP800_90PRNG_Data_t) (buffer : list byte)
        (n : nat) (adata : pointer) (adatal : nat) (c0 : EVP_MD_CTX) :
  md_ctx p = Some c0 -> alg_md p = Some md -> caller_ptr adata ->
  seedlen (prng p) <= length (V p) ->
  OBL (prng p) = md_size md -> 0 < md_size md ->
  n <= length buffer ->
  let data i := N2be (seedlen (prng p))
                     (be2N (mixed_V md p adata adatal) + N.of_nat i) in
  exists p' buffer',
    SHA_Generate evp_ok p buffer n adata adatal = Some (state p, p', buffer')
    /\ firstn n buffer'
       = firstn n (concat (map (fun i => HASH md (data i))
                               (seq 0 (ceil_div n (md_size md)))))
    /\ length (firstn n buffer') = n
    /\ skipn n buffer' = skipn n buffer
    /\ length buffer' = length buffer
    /\ data 0 = mixed_V md p adata adatal
    /\ (forall i, be2N (data (S i))
                  = ((be2N (data i) + 1) mod modulus (seedlen (prng p)))%N)
    /\ (1 <= n ->
        firstn (md_size md) (eBuf p')
        = HASH md (data ((n - 1) / md_size md))).
Proof.
  intros Hctx Halg Hadata HV HOBL Hd Hroom data.
  destruct (SHA_Generate_ok p buffer n adata adatal c0 Hctx Halg Hadata HV
                            HOBL Hd Hroom)
    as (p' & buffer' & Hrun & Hbuf & _ & HE).
  pose proof (length_Hashgen_spec (seedlen (prng p))
                (mixed_V md p adata adatal) n Hd) as Hlen.
  exists p', buffer'. split; [exact Hrun|].
  assert (Hfirst : firstn n buffer'
                   = Hashgen_spec md (seedlen (prng p))
                                  (mixed_V md p adata adatal) n).
  { rewrite Hbuf, firstn_app, Hlen, Nat.sub_diag, firstn_O, app_nil_r.
    apply firstn_all2. lia. }
  rewrite Hfirst.
  split; [|split; [|split; [|split; [|split; [|split]]]]].
  - reflexivity.
  - exact Hlen.
  - rewrite Hbuf, skipn_app, Hlen, Nat.sub_diag, skipn_O.
    now rewrite skipn_all2 by lia.
  - rewrite Hbuf, length_app, Hlen, length_skipn. lia.
  - unfold data. rewrite N.add_0_r.
    rewrite <- (length_mixed_V p adata adatal HV) at 1.
    apply N2be_be2N.
  - intros i. unfold data. rewrite !be2N_N2be.
    rewrite N.Div0.add_mod_idemp_l. f_equal. lia.
  - exact HE.
Qed.

(** C5: when every digest call succeeds, [SHA_Generate] leaves
    [V' = (((V + H) mod M + C) mod M + reseed_counter) mod M] with
    [M = 2^(8*seedlen)], [V] the value that entered Hashgen,
    [H = HASH(0x03 || V)] of [OBL] bytes, [C] of [seedlen] bytes and the
    reseed counter the four big-endian bytes of [CallCount.c], every addend
    aligned with the tail of [V]. *)
Theorem SHA_Generate_final_V (p : SP800_90PRNG_Data_t) (buffer : list byte)
        (n : nat) (adata : pointer) (adatal : nat) (c0 : EVP_MD_CTX) :
  md_ctx p = Some c0 -> alg_md p = Some md -> caller_ptr adata ->
  seedlen (prng p) <= length (V p) ->
  OBL (prng p) = md_size md -> 0 < md_size md ->
  n <= length buffer ->
  let M := modulus (seedlen (prng p)) in
  let Vin := mixed_V md p adata adatal in
  let H := HASH md (x03 :: Vin) in
  exists p' buffer',
    SHA_Generate evp_ok p buffer n adata adatal = Some (state p, p', buffer')
    /\ be2N (firstn (seedlen (prng p)) (V p'))
       = ((((be2N Vin + be2N H) mod M
            + be2N (firstn (seedlen (prng p)) (C p))) mod M
           + be2N (firstn 4 (CallCount_c p))) mod M)%N
    /\ length H = OBL (prng p)
    /\ length Vin = seedlen (prng p).
Proof.
  intros Hctx Halg Hadata HV HOBL Hd Hroom M Vin H.
  destruct (SHA_Generate_ok p buffer n adata adatal c0 Hctx Halg Hadata HV
                            HOBL Hd Hroom)
    as (p' & buffer' & Hrun & _ & HV' & _).
  exists p', buffer'. split; [exact Hrun|]. split; [exact HV'|].
  split.
  - unfold H. now rewrite md_length.
  - now apply length_mixed_V.
Qed.

(** C10: in [SHA_Generate] the additional input is mixed into [V] exactly
    when [adata] is not [NULL] and [adatal] is not zero.  A [NULL] pointer
    with a positive length, or a pointer with length zero, makes no digest
    call and leaves the context as it is, so the call behaves as with no
    additional input: the bytes [SHA_Generate] writes and the [V] it leaves
    are those computed from [V] itself.  Otherwise five digest calls are
    made first, and the bytes [SHA_Generate] writes and the [V] it leaves are
    those computed from
    [(V + HASH(0x02 || V || additional_input)) mod 2^(8*seedlen)]. *)
Theorem SHA_Generate_additional_iff (p : SP800_90PRNG_Data_t)
        (buffer : list byte) (blen : nat) (adata : pointer) (adatal : nat)
        (c0 : EVP_MD_CTX) :
  md_ctx p = Some c0 -> alg_md p = Some md -> caller_ptr adata ->
  seedlen (prng p) <= length (V p) ->
  OBL (prng p) = md_size md -> 0 < md_size md ->
  blen <= length buffer ->
  let n := seedlen (prng p) in
  let v := firstn n (V p) in
  let w := HASH md (x02 :: v ++ caller_read adata adatal) in
  let generated_from vin :=
    exists p' buffer',
      SHA_Generate evp_ok p buffer blen adata adatal
      = Some (state p, p', buffer')
      /\ buffer' = Hashgen_spec md n vin blen ++ skipn blen buffer
      /\ be2N (firstn n (V p'))
         = post_V md n vin (firstn n (C p)) (firstn 4 (CallCount_c p)) in
  (adata = NULL \/ adatal = 0 ->
   Generate_additional evp_ok p adata adatal = Next p
   /\ SHA_Generate evp_ok p buffer blen adata adatal
      = SHA_Generate evp_ok p buffer blen NULL 0
   /\ generated_from v)
  /\ (adata <> NULL -> adatal <> 0 ->
      (exists p1,
          Generate_additional evp_ok p adata adatal = Next p1
          /\ evp_log p1 = [true; true; true; true; true] ++ evp_log p
          /\ be2N (firstn n (V p1))
             = ((be2N v + be2N w) mod modulus n)%N
          /\ skipn n (V p1) = skipn n (V p))
      /\ generated_from (N2be n ((be2N v + be2N w) mod modulus n))).
Proof.
  intros Hctx Halg Hadata HV HOBL Hd Hroom n v w generated_from.
  destruct (SHA_Generate_ok p buffer blen adata adatal c0 Hctx Halg Hadata
                            HV HOBL Hd Hroom)
    as (p' & buffer' & Hrun & Hbuf & HV' & _).
  fold n in Hbuf, HV'. unfold mixed_V in Hbuf, HV'. cbv zeta in Hbuf, HV'.
  fold n in Hbuf, HV'. fold v in Hbuf, HV'. fold w in Hbuf, HV'.
  split.
  - intros Habsent.
    assert (E : negb (is_null adata) && negb (Nat.eqb adatal 0) = false).
    { destruct Habsent as [-> | ->]; [reflexivity|].
      cbn. apply andb_false_r. }
    assert (Hgen : Generate_additional evp_ok p adata adatal = Next p).
    { unfold Generate_additional. now rewrite E. }
    split; [exact Hgen|]. split.
    + unfold SHA_Generate. now rewrite Hgen.
    + rewrite E in Hbuf, HV'. exists p', buffer'. auto.
  - intros Hptr Hlen.
    assert (E : negb (is_null adata) && negb (Nat.eqb adatal 0) = true).
    { destruct adata; try congruence;
        destruct (Nat.eqb_spec adatal 0); try lia; reflexivity. }
    split.
    + unfold Generate_additional. rewrite E.
      rewrite (EVP_DigestInit_ok p c0 Hctx Halg), check_ok.
      erewrite EVP_DigestUpdate_ok by reflexivity. rewrite check_ok.
      erewrite EVP_DigestUpdate_ok by reflexivity. rewrite check_ok.
      erewrite EVP_DigestUpdate_ok by reflexivity. rewrite check_ok.
      erewrite EVP_DigestFinal_ok by reflexivity. rewrite check_final_ok.
      erewrite EVP_MD_CTX_reset_some by reflexivity.
      eexists. split; [reflexivity|]. split; [reflexivity|].
      record_simpl.
      rewrite (load_caller _ _ _ adata adatal Hadata).
      unfold load. cbn [C02 firstn app get_buf]. record_simpl. fold n.
      fold v. fold w.
      assert (Hw : length w = md_size md) by apply md_length.
      split.
      * rewrite Add_head by exact HV. rewrite be2N_N2be.
        destruct (Nat.eqb_spec (OBL (prng p)) 0) as [H0|H0]; [lia|].
        rewrite HOBL, firstn_memcpy by lia.
        now rewrite (firstn_all2 w) by lia.
      * now apply Add_tail.
    + rewrite E in Hbuf, HV'. rewrite N2be_mod.
      exists p', buffer'. auto.
Qed.

End Success.

(** ** Runs in which digest calls may fail *)

Section Failure.

Variable EVP_get_digestbyname : String.string -> option EVP_MD.
Variable evp_ok : nat -> bool.

Lemma step_ok_refl (p : SP800_90PRNG_Data_t) : step_ok p p.
Proof.
  split; [|split; [|split]]; auto.
  exists nil. split; [reflexivity|]. intros [].
Qed.

Lemma step_ok_trans (p q r : SP800_90PRNG_Data_t) :
  step_ok p q -> step_ok q r -> step_ok p r.
Proof.
  intros (Hp1 & Ha1 & He1 & l1 & Hl1 & Hf1) (Hp2 & Ha2 & He2 & l2 & Hl2 & Hf2).
  split; [|split; [|split]]; try congruence; auto.
  exists (l2 ++ l1). split.
  - now rewrite Hl2, Hl1, app_assoc.
  - intros Hin. apply in_app_or in Hin. destruct Hin; auto.
Qed.

Lemma in_error_same (p p' : SP800_90PRNG_Data_t) :
  state p' = state p -> error_reason p' = error_reason p ->
  in_error p -> in_error p'.
Proof. unfold in_error. intros -> ->. auto. Qed.

Lemma after_call_true (p p' : SP800_90PRNG_Data_t) :
  after_call true p p' -> step_ok p p'.
Proof.
  intros (Hp & Ha & Hs & He & Hl).
  split; [exact Hp|]. split; [exact Ha|].
  split; [now apply in_error_same|].
  exists [true]. split; [exact Hl|].
  intros [H|[]]. discriminate.
Qed.

Lemma failed_fields (msg : String.string) (p : SP800_90PRNG_Data_t) :
  prng (failed msg p) = prng p /\ alg_md (failed msg p) = alg_md p
  /\ state (failed msg p) = SP800_90ERROR
  /\ error_reason (failed msg p) = msg
  /\ evp_log (failed msg p) = evp_log p.
Proof.
  unfold failed, EVP_MD_CTX_reset. cbn [md_ctx set_state set_error_reason].
  destruct (md_ctx p); cbn; auto.
Qed.

Lemma after_call_failed (ok : bool) (p p' : SP800_90PRNG_Data_t)
      (msg : String.string) :
  after_call ok p p' -> msg <> String.EmptyString ->
  step_ok p (failed msg p').
Proof.
  intros (Hp & Ha & Hs & He & Hl) Hmsg.
  destruct (failed_fields msg p') as (Fp & Fa & Fs & Fe & Fl).
  assert (Herr : in_error (failed msg p')).
  { split; congruence. }
  split; [congruence|]. split; [congruence|]. split; [auto|].
  exists [ok]. split; [|auto]. cbn. congruence.
Qed.

(** A change of buffers or of the digest context is not seen by
    [step_ok]. *)
Lemma step_ok_same (p p' : SP800_90PRNG_Data_t) :
  prng p' = prng p -> alg_md p' = alg_md p -> state p' = state p ->
  error_reason p' = error_reason p -> evp_log p' = evp_log p ->
  step_ok p p'.
Proof.
  intros Hp Ha Hs He Hl.
  split; [exact Hp|]. split; [exact Ha|].
  split; [now apply in_error_same|].
  exists nil. split; [exact Hl|]. intros [].
Qed.

Lemma step_ok_reset (p : SP800_90PRNG_Data_t) :
  step_ok p (EVP_MD_CTX_reset p).
Proof.
  unfold EVP_MD_CTX_reset. destruct (md_ctx p);
    [now apply step_ok_same|apply step_ok_refl].
Qed.

Lemma step_ok_set_buf (b : ctx_buf) (v : list byte)
      (p : SP800_90PRNG_Data_t) :
  step_ok p (set_buf b v p).
Proof. destruct b; now apply step_ok_same. Qed.

Lemma EVP_DigestInit_sound (p p' : SP800_90PRNG_Data_t) (ok : bool) :
  EVP_DigestInit evp_ok p = (ok, p') ->
  after_call ok p p'
  /\ (ok = true -> exists md, alg_md p = Some md /\ bound md p').
Proof.
  unfold EVP_DigestInit, bound.
  destruct (md_ctx p) as [c|]; [destruct (alg_md p) as [md|] eqn:Ha|];
    [destruct (evp_ok _)|..]; intros H; inversion H; subst;
    (split; [repeat split|]); try discriminate.
  intros _. exists md. split; [reflexivity|]. now exists nil.
Qed.

Lemma EVP_DigestUpdate_sound (p p' : SP800_90PRNG_Data_t) (ok : bool)
      (data : list byte) :
  EVP_DigestUpdate evp_ok p data = (ok, p') ->
  after_call ok p p'
  /\ (ok = true -> forall md, bound md p -> bound md p').
Proof.
  unfold EVP_DigestUpdate, bound.
  destruct (md_ctx p) as [[[md0|] a]|] eqn:Hc;
    [destruct (evp_ok _)|..]; intros H; inversion H; subst;
    (split; [repeat split|]); try discriminate.
  intros _ md [a' Ha']. inversion Ha'; subst. cbn. eauto.
Qed.

Lemma EVP_DigestFinal_sound (p p' : SP800_90PRNG_Data_t) (ok : bool)
      (dst : ctx_buf) (l : nat) :
  EVP_DigestFinal evp_ok p dst = (ok, p', l) ->
  after_call ok p p'
  /\ (ok = true -> forall md, bound md p -> l = md_size md).
Proof.
  unfold EVP_DigestFinal, bound.
  destruct (md_ctx p) as [[[md0|] a]|] eqn:Hc;
    [destruct (evp_ok _)|..]; intros H; inversion H; subst;
    (split; [destruct dst; repeat split|]); try discriminate.
  intros _ md [a' Ha']. now inversion Ha'.
Qed.

Local Open Scope string_scope.

Lemma msg_init : "Digest Init failed" <> String.EmptyString.
Proof. discriminate. Qed.

Lemma msg_update : "Digest Update failed" <> String.EmptyString.
Proof. discriminate. Qed.

Lemma msg_final : "Digest Final failed" <> String.EmptyString.
Proof. discriminate. Qed.

Local Close Scope string_scope.

(** The inner loop of [Hash_df] ends, whatever the digest calls return. *)
Lemma Hash_df_update_sound (c : byte) (ob : list byte) (md : EVP_MD)
      (rest : list (nat * pointer)) :
  forall (fuel : nat) (p : SP800_90PRNG_Data_t) (ds : DS),
    skipn (index ds) (dse ds) = rest ->
    total ds = list_sum (map fst rest) ->
    length rest < fuel ->
    bound md p ->
    exists b p' ds',
      Hash_df_update evp_ok fuel p ds c ob = Some (b, p', ds')
      /\ step_ok p p' /\ (b = true -> bound md p').
Proof.
  induction rest as [|[n ptr] rest IH]; intros fuel p ds Hrest Htot Hfuel Hb;
    (destruct fuel as [|fuel]; [cbn [length] in Hfuel; lia|]);
    cbn [Hash_df_update].
  - rewrite Htot. cbn. exists true, p, ds. auto using step_ok_refl.
  - destruct (Nat.eqb (total ds) 0).
    + exists true, p, ds. auto using step_ok_refl.
    + apply skipn_cons_nth in Hrest. destruct Hrest as [Hnth Hskip].
      unfold DS_Extract. rewrite Hnth.
      destruct (EVP_DigestUpdate evp_ok p (load p c ob ptr n))
        as [ok p1] eqn:E.
      apply EVP_DigestUpdate_sound in E. destruct E as [Hcall Hbound].
      destruct ok.
      * destruct (IH fuel p1 (mkDS (dse ds) (S (index ds)) (total ds - n)))
          as (b & p' & ds' & Hrun & Hstep & Hb').
        -- exact Hskip.
        -- cbn [total]. rewrite Htot. simpl. lia.
        -- cbn [length] in Hfuel. lia.
        -- now apply Hbound.
        -- exists b, p', ds'. split; [exact Hrun|]. split; [|exact Hb'].
           apply (step_ok_trans p p1 p'); [|exact Hstep].
           now apply after_call_true.
      * eexists false, _, _. split; [reflexivity|]. split; [|discriminate].
        apply (after_call_failed false p p1 _ Hcall msg_init).
Qed.

(** The outer loop of [Hash_df] ends when the digest is not empty, whatever
    the digest calls return. *)
Lemma Hash_df_loop_sound (counter0 : byte) (ob : list byte) (out : ctx_buf) :
  forall (fuel outl : nat) (p : SP800_90PRNG_Data_t) (ds : DS)
         (counter : byte) (off digestL : nat),
    outl < fuel ->
    (forall md, alg_md p = Some md -> 0 < md_size md) ->
    exists p',
      Hash_df_loop evp_ok fuel p ds counter ob out off outl digestL = Some p'
      /\ step_ok p p'.
Proof.
  induction fuel as [|fuel IH];
    intros outl p ds counter off digestL Hfuel Hsize; [lia|].
  cbn [Hash_df_loop].
  destruct (Nat.eqb_spec outl 0) as [Hz|Hnz].
  - eexists. split; [reflexivity|]. now apply step_ok_same.
  - destruct (EVP_DigestInit evp_ok p) as [ok p1] eqn:E1.
    apply EVP_DigestInit_sound in E1. destruct E1 as [Hcall1 Hb1].
    destruct ok; cbn [negb].
    2:{ eexists. split; [reflexivity|].
        apply (after_call_failed false p p1 _ Hcall1 msg_init). }
    destruct (Hb1 eq_refl) as (md & Halg & Hbound1).
    pose proof (after_call_true p p1 Hcall1) as Hs1.
    destruct (Hash_df_update_sound counter ob md (dse ds)
                (S (length (dse (DS_Reset ds)))) p1 (DS_Reset ds))
      as (b & p2 & ds2 & Hrun2 & Hs2 & Hb2);
      [reflexivity|reflexivity|cbn; lia|exact Hbound1|].
    rewrite Hrun2.
    pose proof (step_ok_trans p p1 p2 Hs1 Hs2) as Hs12.
    destruct b.
    2:{ exists p2. split; [reflexivity|exact Hs12]. }
    destruct (EVP_DigestFinal evp_ok p2 BufT) as [[ok p3] l] eqn:E3.
    apply EVP_DigestFinal_sound in E3. destruct E3 as [Hcall3 Hl3].
    destruct ok; cbn [negb].
    2:{ eexists. split; [reflexivity|].
        apply (step_ok_trans p p2 _ Hs12).
        apply (after_call_failed false p2 p3 _ Hcall3 msg_final). }
    rewrite (Hl3 eq_refl md (Hb2 eq_refl)).
    pose proof (Hsize md Halg) as Hpos.
    set (j := if Nat.ltb (md_size md) outl then md_size md else outl).
    assert (Hj : 1 <= j /\ j <= outl).
    { unfold j. destruct (Nat.ltb_spec (md_size md) outl); lia. }
    match goal with
    | |- context [Hash_df_loop evp_ok fuel ?q _ _ _ _ _ _ _] => set (p5 := q)
    end.
    assert (Hs5 : step_ok p p5).
    { apply (step_ok_trans p p2 p5 Hs12).
      apply (step_ok_trans p2 p3 p5 (after_call_true p2 p3 Hcall3)).
      apply (step_ok_trans p3 (EVP_MD_CTX_reset p3) p5 (step_ok_reset p3)).
      apply step_ok_set_buf. }
    destruct (IH (outl - j) p5 ds2 (byte_succ counter) (off + j)
                 (md_size md)) as (p' & Hrun & Hs').
    + lia.
    + destruct Hs5 as (_ & Ha5 & _). rewrite Ha5. exact Hsize.
    + exists p'. split; [exact Hrun|].
      apply (step_ok_trans p p5 p' Hs5 Hs').
Qed.

Lemma Hash_df_sound (p : SP800_90PRNG_Data_t) (S : DS) (out : ctx_buf)
      (L : nat) :
  (forall md, alg_md p = Some md -> 0 < md_size md) ->
  exists p', Hash_df evp_ok p S out L = Some p' /\ step_ok p p'.
Proof.
  intros Hsize. unfold Hash_df.
  apply (Hash_df_loop_sound x01); [lia|exact Hsize].
Qed.

Lemma check_step (p0 p q : SP800_90PRNG_Data_t) (ok : bool)
      (msg : String.string) (k : SP800_90PRNG_Data_t -> flow) :
  step_ok p0 p -> after_call ok p q -> msg <> String.EmptyString ->
  (ok = true -> step_ok p0 q -> flow_step p0 (k q)) ->
  flow_step p0 (check (ok, q) msg k).
Proof.
  intros Hs Hc Hmsg Hk. destruct ok; cbn.
  - apply Hk; [reflexivity|].
    apply (step_ok_trans p0 p q Hs). now apply after_call_true.
  - apply (step_ok_trans p0 p _ Hs). now apply after_call_failed with false.
Qed.

Lemma check_final_step (p0 p q : SP800_90PRNG_Data_t) (ok : bool) (l : nat)
      (msg : String.string) (k : SP800_90PRNG_Data_t -> nat -> flow) :
  step_ok p0 p -> after_call ok p q -> msg <> String.EmptyString ->
  (ok = true -> step_ok p0 q -> flow_step p0 (k q l)) ->
  flow_step p0 (check_final (ok, q, l) msg k).
Proof.
  intros Hs Hc Hmsg Hk. destruct ok; cbn.
  - apply Hk; [reflexivity|].
    apply (step_ok_trans p0 p q Hs). now apply after_call_true.
  - apply (step_ok_trans p0 p _ Hs). now apply after_call_failed with false.
Qed.

Ltac digest_init p0 p Hs :=
  let ok := fresh "ok" in
  let q := fresh "q" in
  let E := fresh "E" in
  let Hc := fresh "Hc" in
  destruct (EVP_DigestInit evp_ok p) as [ok q] eqn:E;
  apply EVP_DigestInit_sound in E; destruct E as [Hc _];
  apply (check_step p0 p q ok _ _ Hs Hc); [discriminate|];
  clear Hs Hc; intros _ Hs.

Ltac digest_update p0 p Hs :=
  let ok := fresh "ok" in
  let q := fresh "q" in
  let E := fresh "E" in
  let Hc := fresh "Hc" in
  match goal with
  | |- flow_step _ (check (EVP_DigestUpdate _ _ ?d) _ _) =>
      destruct (EVP_DigestUpdate evp_ok p d) as [ok q] eqn:E;
      apply EVP_DigestUpdate_sound in E; destruct E as [Hc _];
      apply (check_step p0 p q ok _ _ Hs Hc); [discriminate|];
      clear Hs Hc; intros _ Hs
  end.

Ltac digest_final p0 p Hs :=
  let ok := fresh "ok" in
  let q := fresh "q" in
  let l := fresh "l" in
  let E := fresh "E" in
  let Hc := fresh "Hc" in
  match goal with
  | |- flow_step _ (check_final (EVP_DigestFinal _ _ ?b) _ _) =>
      destruct (EVP_DigestFinal evp_ok p b) as [[ok q] l] eqn:E;
      apply EVP_DigestFinal_sound in E; destruct E as [Hc _];
      apply (check_final_step p0 p q ok l _ _ Hs Hc); [discriminate|];
      clear Hs Hc; intros _ Hs
  end.

Lemma Generate_additional_sound (p : SP800_90PRNG_Data_t) (adata : pointer)
      (adatal : nat) :
  flow_step p (Generate_additional evp_ok p adata adatal).
Proof.
  unfold Generate_additional.
  destruct (negb (is_null adata) && negb (Nat.eqb adatal 0));
    [|apply step_ok_refl].
  pose proof (step_ok_refl p) as Hs.
  digest_init p p Hs.
  digest_update p q Hs.
  digest_update p q0 Hs.
  digest_update p q1 Hs.
  digest_final p q2 Hs.
  cbn [flow_step].
  apply (step_ok_trans p q3 _ Hs).
  apply (step_ok_trans q3 (EVP_MD_CTX_reset q3) _ (step_ok_reset q3)).
  now apply step_ok_same.
Qed.

Lemma Generate_update_sound (p : SP800_90PRNG_Data_t) :
  flow_step p (Generate_update evp_ok p).
Proof.
  unfold Generate_update. cbv zeta.
  set (p1 := set_T (memset0 (T p) (seedlen (prng p))) p).
  assert (Hs : step_ok p p1) by now apply step_ok_same.
  digest_init p p1 Hs.
  digest_update p q Hs.
  digest_update p q0 Hs.
  digest_final p q1 Hs.
  cbn [flow_step].
  apply (step_ok_trans p q2 _ Hs).
  apply (step_ok_trans q2 (EVP_MD_CTX_reset q2) _ (step_ok_reset q2)).
  now apply step_ok_same.
Qed.

(** The Hashgen loop ends when the digest is not empty, whatever the digest
    calls return. *)
Lemma Hashgen_sound :
  forall (fuel blen : nat) (p : SP800_90PRNG_Data_t) (buffer : list byte)
         (off : nat),
    blen < fuel ->
    (forall md, alg_md p = Some md -> 0 < md_size md) ->
    exists f buffer',
      Hashgen evp_ok fuel p buffer off blen = Some (f, buffer')
      /\ flow_step p f.
Proof.
  induction fuel as [|fuel IH]; intros blen p buffer off Hfuel Hsize; [lia|].
  cbn [Hashgen].
  destruct (Nat.eqb_spec blen 0) as [Hz|Hnz].
  - eexists _, _. split; [reflexivity|]. apply step_ok_refl.
  - destruct (EVP_DigestInit evp_ok p) as [ok p1] eqn:E1.
    apply EVP_DigestInit_sound in E1. destruct E1 as [Hcall1 Hb1].
    destruct ok; cbn [negb].
    2:{ eexists _, _. split; [reflexivity|].
        apply (after_call_failed false p p1 _ Hcall1 msg_init). }
    destruct (Hb1 eq_refl) as (md & Halg & Hbound1).
    pose proof (after_call_true p p1 Hcall1) as Hs1.
    destruct (EVP_DigestUpdate evp_ok p1
                (load p1 x00 [] (Ctx BufT) (seedlen (prng p1))))
      as [ok p2] eqn:E2.
    apply EVP_DigestUpdate_sound in E2. destruct E2 as [Hcall2 Hb2].
    destruct ok; cbn [negb].
    2:{ eexists _, _. split; [reflexivity|].
        apply (step_ok_trans p p1 _ Hs1).
        apply (after_call_failed false p1 p2 _ Hcall2 msg_update). }
    pose proof (step_ok_trans p p1 p2 Hs1 (after_call_true p1 p2 Hcall2))
      as Hs2.
    destruct (EVP_DigestFinal evp_ok p2 BufE) as [[ok p3] l] eqn:E3.
    apply EVP_DigestFinal_sound in E3. destruct E3 as [Hcall3 Hl3].
    destruct ok; cbn [negb].
    2:{ eexists _, _. split; [reflexivity|].
        apply (step_ok_trans p p2 _ Hs2).
        apply (after_call_failed false p2 p3 _ Hcall3 msg_final). }
    rewrite (Hl3 eq_refl md (Hb2 eq_refl md Hbound1)).
    pose proof (Hsize md Halg) as Hpos.
    set (j := if Nat.ltb (md_size md) blen then md_size md else blen).
    assert (Hj : 1 <= j /\ j <= blen).
    { unfold j. destruct (Nat.ltb_spec (md_size md) blen); lia. }
    match goal with
    | |- context [Hashgen evp_ok fuel ?q ?b _ _] => set (p5 := q); set (b1 := b)
    end.
    assert (Hs5 : step_ok p p5).
    { apply (step_ok_trans p p2 p5 Hs2).
      apply (step_ok_trans p2 p3 p5 (after_call_true p2 p3 Hcall3)).
      apply (step_ok_trans p3 (EVP_MD_CTX_reset p3) p5 (step_ok_reset p3)).
      now apply step_ok_same. }
    destruct (IH (blen - j) p5 b1 (off + j)) as (f & b' & Hrun & Hs').
    + lia.
    + destruct Hs5 as (_ & Ha5 & _). rewrite Ha5. exact Hsize.
    + exists f, b'. split; [exact Hrun|].
      destruct f; cbn in *; apply (step_ok_trans p p5 _ Hs5 Hs').
Qed.

Lemma SHA_Instantiate_sound (p : SP800_90PRNG_Data_t)
      (ein : pointer) (einl : nat) (nonce : pointer) (nonl : nat)
      (person : pointer) (perl : nat) :
  (forall name md, EVP_get_digestbyname name = Some md -> 0 < md_size md) ->
  exists p',
    SHA_Instantiate EVP_get_digestbyname evp_ok p ein einl nonce nonl
                    person perl = Some (state p', p')
    /\ exists l, evp_log p' = l ++ evp_log p /\ (In false l -> in_error p').
Proof.
  intros Hsize. unfold SHA_Instantiate. cbv zeta. record_simpl.
  destruct (EVP_get_digestbyname (specific (prng p))) as [md|] eqn:Hmd.
  2:{ match goal with
      | |- exists p', Some (_, ?q) = _ /\ _ => exists q
      end.
      split; [reflexivity|]. exists nil.
      split; [reflexivity|]. intros []. }
  match goal with
  | |- context [Hash_df evp_ok ?q _ BufV _] => set (p1 := q)
  end.
  assert (H1 : evp_log p1 = evp_log p /\ alg_md p1 = Some md).
  { unfold p1. destruct (md_ctx p); auto. }
  destruct H1 as [Hlog1 Halg1].
  match goal with
  | |- context [Hash_df evp_ok p1 ?S BufV ?L] =>
      destruct (Hash_df_sound p1 S BufV L) as (p2 & Hrun2 & Hs2)
  end.
  { rewrite Halg1. intros md' H. inversion H; subst. eauto. }
  rewrite Hrun2.
  match goal with
  | |- context [Hash_df evp_ok p2 ?S BufC ?L] =>
      destruct (Hash_df_sound p2 S BufC L) as (p3 & Hrun3 & Hs3)
  end.
  { destruct Hs2 as (_ & Ha2 & _). rewrite Ha2, Halg1.
    intros md' H. inversion H; subst. eauto. }
  rewrite Hrun3. exists p3. split; [reflexivity|].
  destruct (step_ok_trans p1 p2 p3 Hs2 Hs3) as (_ & _ & _ & l & Hl & Hf).
  exists l. rewrite <- Hlog1. auto.
Qed.

Lemma SHA_ReSeed_sound (p : SP800_90PRNG_Data_t)
      (ein : pointer) (einl : nat) (adata : pointer) (adatal : nat) :
  (forall md, alg_md p = Some md -> 0 < md_size md) ->
  exists p',
    SHA_ReSeed evp_ok p ein einl adata adatal = Some (state p', p')
    /\ exists l, evp_log p' = l ++ evp_log p /\ (In false l -> in_error p').
Proof.
  intros Hsize. unfold SHA_ReSeed. cbv zeta.
  match goal with
  | |- context [Hash_df evp_ok p ?S BufC ?L] =>
      destruct (Hash_df_sound p S BufC L Hsize) as (p1 & Hrun1 & Hs1)
  end.
  rewrite Hrun1.
  match goal with
  | |- context [Hash_df evp_ok ?q ?S BufC ?L] =>
      destruct (Hash_df_sound q S BufC L) as (p3 & Hrun3 & Hs3);
      [|assert (Hs2 : step_ok p1 q) by now apply step_ok_same]
  end.
  { destruct Hs1 as (_ & Ha1 & _). cbn. rewrite Ha1. exact Hsize. }
  rewrite Hrun3. exists p3. split; [reflexivity|].
  destruct (step_ok_trans p p1 p3 Hs1 (step_ok_trans p1 _ p3 Hs2 Hs3))
    as (_ & _ & _ & l & Hl & Hf).
  exists l. auto.
Qed.

Lemma SHA_Generate_sound (p : SP800_90PRNG_Data_t) (buffer : list byte)
      (blen : nat) (adata : pointer) (adatal : nat) :
  (forall md, alg_md p = Some md -> 0 < md_size md) ->
  exists p' buffer',
    SHA_Generate evp_ok p buffer blen adata adatal
    = Some (state p', p', buffer')
    /\ exists l, evp_log p' = l ++ evp_log p /\ (In false l -> in_error p').
Proof.
  intros Hsize. unfold SHA_Generate.
  pose proof (Generate_additional_sound p adata adatal) as Hs1.
  destruct (Generate_additional evp_ok p adata adatal) as [p1|p1];
    cbn [flow_step] in Hs1.
  2:{ exists p1, buffer. split; [reflexivity|].
      destruct Hs1 as (_ & _ & _ & l & Hl & Hf). exists l. auto. }
  set (p1' := set_T (memcpy (T p1) (V p1) (seedlen (prng p1))) p1).
  assert (Hs1' : step_ok p p1').
  { apply (step_ok_trans p p1 p1' Hs1). now apply step_ok_same. }
  destruct (Hashgen_sound (S blen) blen p1' buffer 0) as (f & b' & Hrun & Hs2).
  { lia. }
  { destruct Hs1' as (_ & Ha & _). rewrite Ha. exact Hsize. }
  rewrite Hrun.
  destruct f as [p2|p2]; cbn [flow_step] in Hs2.
  - pose proof (Generate_update_sound p2) as Hs3.
    destruct (Generate_update evp_ok p2) as [p3|p3]; cbn [flow_step] in Hs3;
      exists p3, b'; (split; [reflexivity|]);
      destruct (step_ok_trans p p1' p3 Hs1' (step_ok_trans p1' p2 p3 Hs2 Hs3))
        as (_ & _ & _ & l & Hl & Hf); exists l; auto.
  - exists p2, b'. split; [reflexivity|].
    destruct (step_ok_trans p p1' p2 Hs1' Hs2) as (_ & _ & _ & l & Hl & Hf).
    exists l. auto.
Qed.

(** C6: [SHA_Instantiate], and on an instance that has its digest and its
    digest context [SHA_ReSeed] and [SHA_Generate], always return a state
    code, and when one of the digest calls (init, update or finalise) made
    during the operation returned non-success, the state of the instance is
    [SP800_90ERROR], [error_reason] is not empty, and the code returned is
    that error state. *)
Theorem digest_failure_is_error (p : SP800_90PRNG_Data_t)
        (ein : pointer) (einl : nat) (nonce : pointer) (nonl : nat)
        (person : pointer) (perl : nat) (adata : pointer) (adatal : nat)
        (buffer : list byte) (blen : nat) :
  (forall name md, EVP_get_digestbyname name = Some md -> 0 < md_size md) ->
  (forall md, alg_md p = Some md -> 0 < md_size md) ->
  let failure_reported st p' :=
    exists l, evp_log p' = l ++ evp_log p
              /\ (In false l ->
                  st = SP800_90ERROR /\ state p' = SP800_90ERROR
                  /\ error_reason p' <> String.EmptyString) in
  (exists st p',
      SHA_Instantiate EVP_get_digestbyname evp_ok p ein einl nonce nonl
                      person perl = Some (st, p')
      /\ failure_reported st p')
  /\ (md_ctx p <> None -> alg_md p <> None ->
      (exists st p',
          SHA_ReSeed evp_ok p ein einl adata adatal = Some (st, p')
          /\ failure_reported st p')
      /\ (exists st p' buffer',
             SHA_Generate evp_ok p buffer blen adata adatal
             = Some (st, p', buffer')
             /\ failure_reported st p')).
Proof.
  intros Hlookup Hsize failure_reported. unfold failure_reported.
  split; [|intros _ _; split].
  - destruct (SHA_Instantiate_sound p ein einl nonce nonl person perl Hlookup)
      as (p' & Hrun & l & Hl & Hf).
    exists (state p'), p'. split; [exact Hrun|]. exists l.
    split; [exact Hl|]. intros Hin. destruct (Hf Hin). auto.
  - destruct (SHA_ReSeed_sound p ein einl adata adatal Hsize)
      as (p' & Hrun & l & Hl & Hf).
    exists (state p'), p'. split; [exact Hrun|]. exists l.
    split; [exact Hl|]. intros Hin. destruct (Hf Hin). auto.
  - destruct (SHA_Generate_sound p buffer blen adata adatal Hsize)
      as (p' & b' & Hrun & l & Hl & Hf).
    exists (state p'), p', b'. split; [exact Hrun|]. exists l.
    split; [exact Hl|]. intros Hin. destruct (Hf Hin). auto.
Qed.

End Failure.

(** ** SHA-1 and the concrete runs *)

Lemma sha1_length (m : list byte) : length (SHA1.sha1 m) = 20.
Proof.
  unfold SHA1.sha1.
  destruct (SHA1.blocks _ _ _) as [[[[h0 h1] h2] h3] h4].
  now rewrite !length_app, !length_N2be.
Qed.

(** FIPS 180-4, SHA-1 of "abc". *)
Example sha1_abc :
  SHA1.sha1 [x61; x62; x63]
  = [xa9; x99; x3e; x36; x47; x06; x81; x6a; xba; x3e;
     x25; x71; x78; x50; xc2; x6c; x9c; xd0; xd8; x9d].
Proof. vm_compute. reflexivity. Qed.

(** The first slot of the SHA-1 table replays on the model: instantiate with
    the entropy input, the nonce and the personalization string, then one
    generate of 64 bytes without additional input. *)
Example sha1_112_replay :
  match SHA_Instantiate sha1_provider always_ok fresh_ctx
                        (input SHA1_112IntEin) (len SHA1_112IntEin)
                        (input SHA1_112IntNon) (len SHA1_112IntNon)
                        (input SHA1_112IntPer) (len SHA1_112IntPer) with
  | Some (_, p) =>
      match SHA_Generate always_ok p (zeros 64) 64 NULL 0 with
      | Some (_, _, out) => out = buf SHA1_112Result
      | None => False
      end
  | None => False
  end.
Proof. vm_compute. reflexivity. Qed.

(** The second slot replays too: instantiate with the entropy input and the
    nonce, reseed with the generate entropy input, then one generate of 20
    bytes without additional input. *)
Example sha1_128_replay :
  match SHA_Instantiate sha1_provider always_ok fresh_ctx
                        (input SHA1_128IntEin) (len SHA1_128IntEin)
                        (input SHA1_128IntNon) (len SHA1_128IntNon)
                        NULL 0 with
  | Some (_, p) =>
      match SHA_ReSeed always_ok p (input SHA1_128GenEin)
                       (len SHA1_128GenEin) NULL 0 with
      | Some (_, p) =>
          match SHA_Generate always_ok p (zeros 20) 20 NULL 0 with
          | Some (_, _, out) => out = buf SHA1_128Result
          | None => False
          end
      | None => False
      end
  | None => False
  end.
Proof. vm_compute. reflexivity. Qed.

Lemma always_ok_all (k : nat) : always_ok k = true.
Proof. reflexivity. Qed.

Lemma sha1_provider_pos (name : String.string) (md : EVP_MD) :
  sha1_provider name = Some md -> 0 < md_size md.
Proof. intros H. inversion H. cbn. lia. Qed.

Lemma live_ctx_pos (md : EVP_MD) :
  alg_md live_ctx = Some md -> 0 < md_size md.
Proof. intros H. inversion H. cbn. lia. Qed.

(** [Hash_df] of "abc" to the 55 bytes of [V], with SHA-1. *)
Lemma Hash_df_correct_witness :
  exists p',
    Hash_df always_ok live_ctx abc_stack BufV 55 = Some p'
    /\ firstn 55 (get_buf BufV p')
       = Hash_df_spec SHA1.md (input_bytes live_ctx abc_stack) 55
    /\ skipn 55 (get_buf BufV p') = skipn 55 (get_buf BufV live_ctx).
Proof.
  destruct (Hash_df_correct always_ok SHA1.md always_ok_all sha1_length
              live_ctx abc_stack BufV 55 EVP_MD_CTX_new)
    as (p' & Hrun & Hout & _ & Hrest & _).
  - reflexivity.
  - reflexivity.
  - discriminate.
  - repeat constructor.
  - lia.
  - cbn. lia.
  - vm_compute. lia.
  - exists p'. split; [exact Hrun|]. split; [exact Hout|exact Hrest].
Defined.

(** The instantiation of the first SHA-1 slot. *)
Lemma SHA_Instantiate_correct_witness :
  exists p',
    SHA_Instantiate sha1_provider always_ok fresh_ctx
                    (input SHA1_112IntEin) 16 (input SHA1_112IntNon) 8
                    (input SHA1_112IntPer) 16
    = Some (state fresh_ctx, p')
    /\ firstn (seedlen (prng fresh_ctx)) (V p')
       = Hash_df_spec SHA1.md
           (caller_read (input SHA1_112IntEin) 16
            ++ caller_read (input SHA1_112IntNon) 8
            ++ caller_read (input SHA1_112IntPer) 16)
           (seedlen (prng fresh_ctx)).
Proof.
  destruct (SHA_Instantiate_correct sha1_provider always_ok SHA1.md
              always_ok_all sha1_length fresh_ctx
              (input SHA1_112IntEin) 16 (input SHA1_112IntNon) 8
              (input SHA1_112IntPer) 16)
    as (p' & Hrun & HV & _).
  - reflexivity.
  - cbn. lia.
  - exact I.
  - exact I.
  - exact I.
  - vm_compute. lia.
  - vm_compute. lia.
  - exists p'. split; [exact Hrun|exact HV].
Defined.

(** A reseed of [live_ctx] with the entropy of the second SHA-1 slot. *)
Lemma SHA_ReSeed_correct_witness :
  exists p',
    SHA_ReSeed always_ok live_ctx (input SHA1_128IntEin) 16 NULL 0
    = Some (state live_ctx, p')
    /\ firstn (seedlen (prng live_ctx)) (C p')
       = Hash_df_spec SHA1.md
           (x00 :: firstn (seedlen (prng live_ctx)) (V p'))
           (seedlen (prng live_ctx)).
Proof.
  destruct (SHA_ReSeed_correct always_ok SHA1.md always_ok_all sha1_length
              live_ctx (input SHA1_128IntEin) 16 NULL 0 EVP_MD_CTX_new)
    as (p' & Hrun & _ & HC & _).
  - reflexivity.
  - reflexivity.
  - cbn. lia.
  - exact I.
  - exact I.
  - vm_compute. lia.
  - vm_compute. lia.
  - exists p'. split; [exact Hrun|exact HC].
Defined.

(** 30 bytes asked of [live_ctx] into a buffer of 32, with additional
    input. *)
Lemma SHA_Generate_output_witness :
  exists p' buffer',
    SHA_Generate always_ok live_ctx (repeat xff 32) 30
                 (input SHA1_128GenEin) 16
    = Some (state live_ctx, p', buffer')
    /\ length (firstn 30 buffer') = 30
    /\ skipn 30 buffer' = skipn 30 (repeat xff 32)
    /\ length buffer' = length (repeat xff 32).
Proof.
  destruct (SHA_Generate_output always_ok SHA1.md always_ok_all sha1_length
              live_ctx (repeat xff 32) 30 (input SHA1_128GenEin) 16
              EVP_MD_CTX_new)
    as (p' & buffer' & Hrun & _ & Hlen & Hrest & Hall & _).
  - reflexivity.
  - reflexivity.
  - exact I.
  - vm_compute. lia.
  - reflexivity.
  - cbn. lia.
  - cbn. lia.
  - exists p', buffer'. split; [exact Hrun|]. split; [exact Hlen|].
    split; [exact Hrest|exact Hall].
Defined.

Lemma SHA_Generate_final_V_witness :
  exists p' buffer',
    SHA_Generate always_ok live_ctx (repeat xff 32) 30 NULL 0
    = Some (state live_ctx, p', buffer')
    /\ length (HASH SHA1.md (x03 :: mixed_V SHA1.md live_ctx NULL 0))
       = OBL (prng live_ctx).
Proof.
  destruct (SHA_Generate_final_V always_ok SHA1.md always_ok_all sha1_length
              live_ctx (repeat xff 32) 30 NULL 0 EVP_MD_CTX_new)
    as (p' & buffer' & Hrun & _ & HH & _).
  - reflexivity.
  - reflexivity.
  - exact I.
  - vm_compute. lia.
  - reflexivity.
  - cbn. lia.
  - cbn. lia.
  - exists p', buffer'. split; [exact Hrun|exact HH].
Defined.

Lemma SHA_Generate_additional_iff_witness :
  SHA_Generate always_ok live_ctx (zeros 8) 8 NULL 16
  = SHA_Generate always_ok live_ctx (zeros 8) 8 NULL 0
  /\ SHA_Generate always_ok live_ctx (zeros 8) 8 (input SHA1_128GenEin) 0
     = SHA_Generate always_ok live_ctx (zeros 8) 8 NULL 0
  /\ (exists p1,
         Generate_additional always_ok live_ctx (input SHA1_128GenEin) 16
         = Next p1
         /\ evp_log p1 = [true; true; true; true; true] ++ evp_log live_ctx)
  /\ (exists p' buffer',
         SHA_Generate always_ok live_ctx (zeros 8) 8
                      (input SHA1_128GenEin) 16
         = Some (state live_ctx, p', buffer')
         /\ length buffer' = 8).
Proof.
  assert (HV : seedlen (prng live_ctx) <= length (V live_ctx))
    by (vm_compute; lia).
  assert (Hd : 0 < md_size SHA1.md) by (cbn; lia).
  assert (Hroom : 8 <= length (zeros 8)) by (vm_compute; lia).
  pose proof (fun adata adatal Hp =>
                SHA_Generate_additional_iff always_ok SHA1.md always_ok_all
                  sha1_length live_ctx (zeros 8) 8 adata adatal
                  EVP_MD_CTX_new eq_refl eq_refl Hp HV eq_refl Hd Hroom)
    as Hiff.
  split; [|split; [|split]].
  - destruct (Hiff NULL 16 I) as [Habsent _].
    apply Habsent. left. reflexivity.
  - destruct (Hiff (input SHA1_128GenEin) 0 I) as [Habsent _].
    apply Habsent. right. reflexivity.
  - destruct (Hiff (input SHA1_128GenEin) 16 I) as [_ Hpresent].
    destruct Hpresent as ((p1 & Hrun & Hlog & _) & _);
      [discriminate|discriminate|].
    exists p1. split; [exact Hrun|exact Hlog].
  - destruct (Hiff (input SHA1_128GenEin) 16 I) as [_ Hpresent].
    destruct Hpresent as (_ & p' & buffer' & Hrun & Hbuf & _);
      [discriminate|discriminate|].
    exists p', buffer'. split; [exact Hrun|].
    rewrite Hbuf, length_app, length_skipn.
    rewrite (length_Hashgen_spec SHA1.md sha1_length); [|exact Hd].
    vm_compute. lia.
Defined.

(** The log of digest calls an operation leaves. *)
Lemma failing_run_logs :
  option_map (fun r => evp_log (snd r))
             (SHA_Instantiate sha1_provider (fails_at 5) live_ctx
                              (input SHA1_112IntEin) 16
                              (input SHA1_112IntNon) 8 NULL 0)
  = Some (repeat true 18 ++ [false; true; true; true; true; true])
  /\ option_map (fun r => evp_log (snd r))
                (SHA_ReSeed (fails_at 5) live_ctx
                            (input SHA1_112IntEin) 16 NULL 0)
     = Some (repeat true 18 ++ [false; true; true; true; true; true])
  /\ option_map (fun r => evp_log (snd (fst r)))
                (SHA_Generate (fails_at 5) live_ctx (zeros 64) 64 NULL 0)
     = Some [false; true; true; true; true; true].
Proof. vm_compute. repeat split. Qed.

(** The sixth digest call fails: the operations return the error state. *)
Lemma digest_failure_is_error_witness :
  (exists p',
      SHA_Instantiate sha1_provider (fails_at 5) live_ctx
                      (input SHA1_112IntEin) 16 (input SHA1_112IntNon) 8
                      NULL 0 = Some (SP800_90ERROR, p')
      /\ state p' = SP800_90ERROR)
  /\ (exists p',
         SHA_ReSeed (fails_at 5) live_ctx (input SHA1_112IntEin) 16 NULL 0
         = Some (SP800_90ERROR, p')
         /\ state p' = SP800_90ERROR)
  /\ (exists p' buffer',
         SHA_Generate (fails_at 5) live_ctx (zeros 64) 64 NULL 0
         = Some (SP800_90ERROR, p', buffer')
         /\ state p' = SP800_90ERROR).
Proof.
  destruct (digest_failure_is_error sha1_provider (fails_at 5) live_ctx
              (input SHA1_112IntEin) 16 (input SHA1_112IntNon) 8 NULL 0
              NULL 0 (zeros 64) 64 sha1_provider_pos live_ctx_pos)
    as ((st1 & p1 & Hrun1 & l1 & Hl1 & Hf1) & Hrest).
  assert (Hctx : md_ctx live_ctx <> None) by discriminate.
  assert (Halg : alg_md live_ctx <> None) by discriminate.
  destruct (Hrest Hctx Halg)
    as ((st2 & p2 & Hrun2 & l2 & Hl2 & Hf2)
        & (st3 & p3 & b3 & Hrun3 & l3 & Hl3 & Hf3)).
  destruct failing_run_logs as (Hlog1 & Hlog2 & Hlog3).
  rewrite Hrun1 in Hlog1. rewrite Hrun2 in Hlog2. rewrite Hrun3 in Hlog3.
  cbn [option_map fst snd] in Hlog1, Hlog2, Hlog3.
  cbn [evp_log live_ctx] in Hl1, Hl2, Hl3.
  rewrite app_nil_r in Hl1, Hl2, Hl3.
  split; [|split].
  - exists p1.
    assert (Hin : In false l1).
    { rewrite <- Hl1. injection Hlog1 as ->. cbn. tauto. }
    destruct (Hf1 Hin) as (-> & Hs & _). split; [exact Hrun1|exact Hs].
  - exists p2.
    assert (Hin : In false l2).
    { rewrite <- Hl2. injection Hlog2 as ->. cbn. tauto. }
    destruct (Hf2 Hin) as (-> & Hs & _). split; [exact Hrun2|exact Hs].
  - exists p3, b3.
    assert (Hin : In false l3).
    { rewrite <- Hl3. injection Hlog3 as ->. cbn. tauto. }
    destruct (Hf3 Hin) as (-> & Hs & _). split; [exact Hrun3|exact Hs].
Defined.

(** C7, on the code: [Hash_df] of "abc" to 40 bytes takes two SHA-1 blocks.
    When the digest init of the second block fails (it is the sixth digest
    call), [Hash_df] returns through the failure branch, the state is the
    error state, and [pctx->T] still holds the first block
    [SHA-1(0x01 || 00000140 || "abc")]: the [memset] at the end of the
    function is not reached. *)
Theorem Hash_df_failure_keeps_digest :
  match Hash_df (fails_at 5) live_ctx abc_stack BufV 40 with
  | Some p' =>
      state p' = SP800_90ERROR
      /\ firstn 20 (T p')
         = SHA1.sha1 (x01 :: [x00; x00; x01; x40] ++ [x61; x62; x63])
      /\ firstn 20 (T p') <> zeros 20
      /\ evp_log p' = [false; true; true; true; true; true]
  | None => False
  end.
Proof.
  vm_compute. split; [reflexivity|]. split; [reflexivity|].
  split; [discriminate|reflexivity].
Qed.

(** C8, as the claim states it, fails: after [SHA_Cleanup] on a context in
    use, the buffers are not all zero and the state is not the
    uninitialised one. *)
Lemma SHA_Cleanup_counterexample :
  ~ (let p' := snd (SHA_Cleanup live_ctx) in
     V p' = zeros 55 /\ C p' = zeros 55 /\ T p' = zeros 55
     /\ eBuf p' = zeros 20 /\ md_ctx p' = None
     /\ state p' = SP800_90UNINIT).
Proof.
  cbn. intros (H & _). vm_compute in H. discriminate H.
Qed.

(** C8, amended: [SHA_Cleanup] frees the digest context and clears its
    handle, returns the current state code, and leaves [V], [C], [T], [eBuf]
    and the state as they were. *)
Theorem SHA_Cleanup_frees_ctx (p : SP800_90PRNG_Data_t) :
  exists p',
    SHA_Cleanup p = (state p, p')
    /\ md_ctx p' = None
    /\ state p' = state p
    /\ V p' = V p /\ C p' = C p /\ T p' = T p /\ eBuf p' = eBuf p.
Proof.
  unfold SHA_Cleanup. destruct (md_ctx p) eqn:E; eexists;
    (split; [reflexivity|]); cbn; auto 10.
Qed.

(** C9, as the claim states it, fails: the reseed entropy input of the
    first slot of [sha1PRNG] is not the 16-byte value 6bd1...baf2. *)
Lemma sha1_kat_counterexample :
  ~ (exists k,
        nth_error sha1_TestData 0 = Some k
        /\ len (kat_reseed_ein k) = 16
        /\ buf (kat_reseed_ein k)
           = [x6b; xd1; x58; x91; x56; x95; x25; x24;
              xba; x1f; x9b; x14; x06; x59; xba; xf2]).
Proof.
  intros (k & Hk & Hlen & _). cbn in Hk. inversion Hk; subst k.
  cbn in Hlen. discriminate Hlen.
Qed.

(** C9, amended: in the first slot of [sha1PRNG] (SHA-1, strength 112) the
    entropy input is dc10...585a, the nonce 6a36...601e, the 16-byte value
    6bd1...baf2 is the personalization string, the reseed entropy input and
    the generate entropy input are the empty buffer [NONE] (so no reseed is
    performed), and the 64-byte expected output begins 3654...f63f. *)
Theorem sha1_kat_slot0 (SELF_TEST_AT : nat) :
  exists k,
    nth_error (TestData (sha1PRNG SELF_TEST_AT)) 0 = Some k
    /\ (len (kat_ein k) = 16
        /\ buf (kat_ein k)
           = [xdc; x10; x6a; xce; x9f; xf5; x7c; x68;
              x13; x1e; xa2; xee; x75; xc6; x58; x5a])
    /\ (len (kat_nonce k) = 8
        /\ buf (kat_nonce k) = [x6a; x36; x0c; x6f; x7b; xd4; x60; x1e])
    /\ (len (kat_personalization k) = 16
        /\ buf (kat_personalization k)
           = [x6b; xd1; x58; x91; x56; x95; x25; x24;
              xba; x1f; x9b; x14; x06; x59; xba; xf2])
    /\ (kat_reseed_ein k = NONE /\ len (kat_reseed_ein k) = 0)
    /\ (kat_generate_ein k = NONE /\ len (kat_generate_ein k) = 0)
    /\ (len (kat_expected k) = 64
        /\ length (buf (kat_expected k)) = 64
        /\ firstn 32 (buf (kat_expected k))
           = [x36; x54; xd1; x94; xa7; x57; xd6; x29;
              x3c; xcd; x30; x14; x39; xa2; xf6; x3e;
              x81; xcb; xbb; x03; x1f; x6b; x47; x87;
              x0f; xf0; xc4; x1c; xf1; x2a; xf6; x3f]).
Proof.
  eexists. split; [reflexivity|]. cbn. repeat split.
Qed.

(** ** The tables of the five profiles *)

(** X1: in every slot of every profile, a buffer never declares more bytes
    than it holds, and it declares all of them unless it is the empty
    buffer [NONE]; the reserved field is zero. *)
Theorem tables_well_formed (SELF_TEST_AT : nat) :
  Forall (fun prof =>
            length (TestData prof) = 4
            /\ Forall (fun k =>
                         Forall (fun b =>
                                   reserved b = 0
                                   /\ len b <= length (buf b)
                                   /\ (len b = length (buf b) \/ b = NONE))
                                (kat_bufs k))
                      (TestData prof))
         (all_PRNGs SELF_TEST_AT).
Proof.
  unfold all_PRNGs.
  repeat (apply Forall_cons || apply Forall_nil || split);
    try (cbn; lia);
    try (left; reflexivity); right; reflexivity.
Qed.

(** X2: in every profile a strength slot is empty exactly when its security
    strength is 0 (the last two of SHA-1); a populated slot supplies an
    entropy input of at least the strength in bits, a nonce of at least half
    of it, a non-empty expected output, and nothing in its fourth
    position. *)
Theorem tables_strengths (SELF_TEST_AT : nat) :
  Forall (fun prof =>
            length (secS prof) = 4
            /\ Forall (fun sk =>
                         let s := fst sk in
                         let k := snd sk in
                         (s = 0 -> Forall (fun b => b = NONE) (kat_bufs k))
                         /\ (s <> 0 ->
                             s <= 8 * len (kat_ein k)
                             /\ s <= 16 * len (kat_nonce k)
                             /\ 0 < len (kat_expected k)
                             /\ kat_reseed_ein k = NONE))
                      (combine (secS prof) (TestData prof)))
         (all_PRNGs SELF_TEST_AT).
Proof.
  unfold all_PRNGs.
  repeat (apply Forall_cons || apply Forall_nil); cbn [combine secS TestData
    sha512PRNG sha384PRNG sha256PRNG sha224PRNG sha1PRNG sha512_TestData
    sha384_TestData sha256_TestData sha224_TestData sha1_TestData];
    (split; [reflexivity|]);
    repeat (apply Forall_cons || apply Forall_nil);
    cbn [fst snd]; (split; [intros H0|intros H1]);
    try discriminate H0;
    try (elim H1; reflexivity);
    try (repeat (apply Forall_cons || apply Forall_nil); reflexivity);
    (split; [cbn; lia|]); (split; [cbn; lia|]);
    (split; [cbn; lia|reflexivity]).
Qed.

(** X3: the parameters of the five profiles fit the functions: the seed is
    55 or 111 bytes, the block size is the output length of the digest the
    profile names, it is shorter than the seed (so a digest is a tail-aligned
    addend) and [Hash_df] needs at most three blocks for a seed (so its
    one-octet counter stays within 1..3); at most 2^11 bytes per request and
    2^24 - 1 requests between reseeds. *)
Theorem profiles_parameters (SELF_TEST_AT : nat) :
  Forall (fun prof =>
            (seedlen prof = 55 \/ seedlen prof = 111)
            /\ option_map md_size (evp_provider (specific prof))
               = Some (OBL prof)
            /\ 0 < OBL prof /\ OBL prof < seedlen prof
            /\ ceil_div (seedlen prof) (OBL prof) <= 3
            /\ max_bytes prof = (2 ^ 11)%N
            /\ max_resets prof = (2 ^ 24 - 1)%N
            /\ selftest_at prof = SELF_TEST_AT)
         (all_PRNGs SELF_TEST_AT).
Proof.
  unfold all_PRNGs.
  repeat (apply Forall_cons || apply Forall_nil);
    (split; [(left; reflexivity) || (right; reflexivity)|]);
    (split; [reflexivity|]);
    (split; [cbn; lia|]); (split; [cbn; lia|]);
    (split; [vm_compute; lia|]);
    (split; [reflexivity|]); (split; reflexivity).
Qed.

(** X4: the known answers of the file are the answers of its functions.  For
    every populated slot of every profile, instantiating with the slot's
    entropy input, nonce and personalization string, reseeding with the
    fifth buffer when it is not empty, and generating as many bytes as the
    expected buffer holds gives exactly the expected bytes, the digests
    being the real SHA-1 and SHA-2 functions. *)
Theorem known_answers_replay (SELF_TEST_AT : nat) :
  Forall (fun prof =>
            Forall (fun k =>
                      len (kat_expected k) = 0
                      \/ kat_run prof k = Some (buf (kat_expected k)))
                   (TestData prof))
         (all_PRNGs SELF_TEST_AT).
Proof.
  unfold all_PRNGs.
  repeat (apply Forall_cons || apply Forall_nil);
    try (left; reflexivity); right; vm_compute; reflexivity.
Qed.

(** ** What the functions keep, whatever the digest calls return *)

Section Safety.

Variable EVP_get_digestbyname : String.string -> option EVP_MD.
Variable evp_ok : nat -> bool.

Lemma touch_refl (bs : list ctx_buf) (p : SP800_90PRNG_Data_t) :
  touch bs p p.
Proof. unfold touch. tauto. Qed.

Lemma touch_trans (bs : list ctx_buf) (p q r : SP800_90PRNG_Data_t) :
  touch bs p q -> touch bs q r -> touch bs p r.
Proof.
  intros (H1 & H2 & H3 & H4 & H5) (G1 & G2 & G3 & G4 & G5).
  split; [congruence|]. split; [congruence|]. split; [congruence|].
  split; [tauto|]. intros b Hb. now rewrite G5, H5.
Qed.

Lemma touch_weaken (bs bs' : list ctx_buf) (p q : SP800_90PRNG_Data_t) :
  incl bs bs' -> touch bs p q -> touch bs' p q.
Proof.
  intros Hi (H1 & H2 & H3 & H4 & H5).
  split; [exact H1|]. split; [exact H2|]. split; [exact H3|].
  split; [exact H4|]. intros b Hb. apply H5. intros Hin. apply Hb, Hi, Hin.
Qed.

Lemma ran_refl (bs : list ctx_buf) (p : SP800_90PRNG_Data_t) :
  ran bs [] p p.
Proof.
  split; [apply touch_refl|]. split; [reflexivity|].
  split; [auto|]. split; [intros []|auto].
Qed.

Lemma ran_trans (bs : list ctx_buf) (l1 l2 : list bool)
      (p q r : SP800_90PRNG_Data_t) :
  ran bs l1 p q -> ran bs l2 q r -> ran bs (l2 ++ l1) p r.
Proof.
  intros (T1 & L1 & S1 & F1 & E1) (T2 & L2 & S2 & F2 & E2).
  split; [now apply touch_trans with q|].
  split; [now rewrite L2, L1, app_assoc|].
  split; [|split].
  - intros Hall. apply Forall_app in Hall. destruct Hall as [A2 A1].
    destruct (S1 A1), (S2 A2). split; congruence.
  - intros Hin. apply in_app_or in Hin. destruct Hin; auto.
  - auto.
Qed.

Lemma ran_weaken (bs bs' : list ctx_buf) (l : list bool)
      (p q : SP800_90PRNG_Data_t) :
  incl bs bs' -> ran bs l p q -> ran bs' l p q.
Proof.
  intros Hi (T1 & R). split; [now apply touch_weaken with bs|exact R].
Qed.

(** A step that makes no digest call and leaves the state alone. *)
Lemma ran_silent (bs : list ctx_buf) (p q : SP800_90PRNG_Data_t) :
  touch bs p q -> state q = state p -> error_reason q = error_reason p ->
  evp_log q = evp_log p -> ran bs [] p q.
Proof.
  intros Ht Hs He Hl.
  split; [exact Ht|]. split; [exact Hl|]. split; [auto|].
  split; [intros []|]. now apply in_error_same.
Qed.

(** A digest call that succeeded. *)
Lemma ran_call (bs : list ctx_buf) (p q : SP800_90PRNG_Data_t) :
  after_call true p q -> touch bs p q -> ran bs [true] p q.
Proof.
  intros (Hp & Ha & Hs & He & Hl) Ht.
  split; [exact Ht|]. split; [exact Hl|]. split; [auto|].
  split; [intros [H|[]]; discriminate|]. now apply in_error_same.
Qed.

Lemma touch_failed (msg : String.string) (p : SP800_90PRNG_Data_t) :
  touch [] p (failed msg p).
Proof.
  unfold failed, EVP_MD_CTX_reset. cbn [md_ctx set_state set_error_reason].
  destruct (md_ctx p) eqn:E; unfold touch; cbn; rewrite ?E;
    repeat split; try discriminate; try tauto; intros []; reflexivity.
Qed.

(** A digest call that failed, with the failure branch that follows it. *)
Lemma ran_failed (bs : list ctx_buf) (p q : SP800_90PRNG_Data_t)
      (msg : String.string) :
  after_call false p q -> touch bs p q -> msg <> String.EmptyString ->
  ran bs [false] p (failed msg q).
Proof.
  intros (Hp & Ha & Hs & He & Hl) Ht Hmsg.
  destruct (failed_fields msg q) as (Fp & Fa & Fs & Fe & Fl).
  assert (Herr : in_error (failed msg q)) by (split; congruence).
  split.
  { apply touch_trans with q; [exact Ht|].
    apply touch_weaken with []; [intros ? []|apply touch_failed]. }
  split; [cbn; congruence|]. split; [|auto].
  intros Hall. inversion Hall; subst. discriminate.
Qed.

Lemma touch_reset (p : SP800_90PRNG_Data_t) :
  touch [] p (EVP_MD_CTX_reset p).
Proof.
  unfold EVP_MD_CTX_reset. destruct (md_ctx p) eqn:E;
    [|apply touch_refl].
  unfold touch. cbn. rewrite E.
  repeat split; try discriminate; intros []; reflexivity.
Qed.

Lemma ran_reset (bs : list ctx_buf) (p : SP800_90PRNG_Data_t) :
  ran bs [] p (EVP_MD_CTX_reset p).
Proof.
  apply ran_silent.
  - apply touch_weaken with []; [intros ? []|apply touch_reset].
  - unfold EVP_MD_CTX_reset. now destruct (md_ctx p).
  - unfold EVP_MD_CTX_reset. now destruct (md_ctx p).
  - unfold EVP_MD_CTX_reset. now destruct (md_ctx p).
Qed.

Lemma touch_set_buf (b : ctx_buf) (v : list byte)
      (p : SP800_90PRNG_Data_t) :
  touch [b] p (set_buf b v p).
Proof.
  unfold touch. destruct b; cbn; repeat split; try tauto;
    intros b' Hb'; destruct b'; try reflexivity; elim Hb'; now left.
Qed.

Lemma ran_set_buf (bs : list ctx_buf) (b : ctx_buf) (v : list byte)
      (p : SP800_90PRNG_Data_t) :
  In b bs -> ran bs [] p (set_buf b v p).
Proof.
  intros Hin. apply ran_silent.
  - apply touch_weaken with [b]; [|apply touch_set_buf].
    intros ? [<-|[]]. exact Hin.
  - now destruct b.
  - now destruct b.
  - now destruct b.
Qed.

Lemma EVP_DigestInit_touch (p p' : SP800_90PRNG_Data_t) (ok : bool) :
  EVP_DigestInit evp_ok p = (ok, p') -> touch [] p p'.
Proof.
  unfold EVP_DigestInit, touch.
  destruct (md_ctx p) as [c|] eqn:Hc;
    [destruct (alg_md p) as [md|] eqn:Ha|];
    [destruct (evp_ok _)|..]; intros H; inversion H; subst; cbn;
    rewrite ?Hc; repeat split; try discriminate; try tauto;
    try congruence; intros []; reflexivity.
Qed.

Lemma EVP_DigestUpdate_touch (p p' : SP800_90PRNG_Data_t) (ok : bool)
      (data : list byte) :
  EVP_DigestUpdate evp_ok p data = (ok, p') -> touch [] p p'.
Proof.
  unfold EVP_DigestUpdate, touch.
  destruct (md_ctx p) as [[[md0|] a]|] eqn:Hc;
    [destruct (evp_ok _)|..]; intros H; inversion H; subst; cbn;
    rewrite ?Hc; repeat split; try discriminate; try tauto;
    intros []; reflexivity.
Qed.

Lemma EVP_DigestFinal_touch (p p' : SP800_90PRNG_Data_t) (ok : bool)
      (dst : ctx_buf) (l : nat) :
  EVP_DigestFinal evp_ok p dst = (ok, p', l) ->
  touch [dst] p p'
  /\ (ok = true ->
      forall md, bound md p ->
                 exists a,
                   get_buf dst p'
                   = memcpy (get_buf dst p) (HASH md a) (md_size md)).
Proof.
  unfold EVP_DigestFinal, bound.
  destruct (md_ctx p) as [[[md0|] a]|] eqn:Hc;
    [destruct (evp_ok _)|..]; intros H; inversion H; subst;
    (split; [|try discriminate]);
    try (apply touch_weaken with []; [intros ? []|];
         unfold touch; cbn; rewrite ?Hc; repeat split; try discriminate;
         try tauto; intros []; reflexivity).
  - unfold touch. destruct dst; cbn; rewrite ?Hc;
      repeat split; try discriminate; try tauto;
      intros b' Hb'; destruct b'; try reflexivity; elim Hb'; now left.
  - intros _ md [a' Ha']. inversion Ha'; subst. exists a'.
    now destruct dst.
Qed.

Lemma memcpy_at_firstn (b src : list byte) (off j : nat) :
  off <= length b -> firstn off (memcpy_at b off src j) = firstn off b.
Proof.
  intros Hoff. unfold memcpy_at.
  rewrite firstn_app, length_firstn, Nat.min_l by exact Hoff.
  now rewrite Nat.sub_diag, firstn_O, app_nil_r, firstn_firstn, Nat.min_id.
Qed.

Lemma memcpy_at_skipn (b src : list byte) (off j : nat) :
  j <= length src -> off + j <= length b ->
  skipn (off + j) (memcpy_at b off src j) = skipn (off + j) b.
Proof.
  intros Hj Hb. unfold memcpy_at.
  rewrite app_assoc, skipn_app.
  assert (Hlen : length (firstn off b ++ firstn j src) = off + j).
  { rewrite length_app, !length_firstn. lia. }
  rewrite Hlen, Nat.sub_diag, skipn_O.
  now rewrite skipn_all2 by lia.
Qed.

Lemma firstn_eq_le {A : Type} (l1 l2 : list A) (a b : nat) :
  a <= b -> firstn b l1 = firstn b l2 -> firstn a l1 = firstn a l2.
Proof.
  intros Hab H.
  rewrite <- (Nat.min_l a b Hab), <- !firstn_firstn. now rewrite H.
Qed.

Lemma skipn_eq_le {A : Type} (l1 l2 : list A) (a b : nat) :
  a <= b -> skipn a l1 = skipn a l2 -> skipn b l1 = skipn b l2.
Proof.
  intros Hab H.
  replace b with ((b - a) + a) by lia.
  rewrite <- !skipn_skipn. now rewrite H.
Qed.

Lemma length_memcpy_digest (t h : list byte) (n : nat) :
  length h = n -> n <= length (memcpy t h n).
Proof.
  intros Hh. unfold memcpy. rewrite length_app, length_firstn. lia.
Qed.

(** The inner loop of [Hash_df], whatever the digest calls return: it
    writes to no buffer. *)
Lemma Hash_df_update_ran (c : byte) (ob : list byte) (md : EVP_MD)
      (rest : list (nat * pointer)) :
  forall (fuel : nat) (p : SP800_90PRNG_Data_t) (ds : DS),
    skipn (index ds) (dse ds) = rest ->
    total ds = list_sum (map fst rest) ->
    length rest < fuel ->
    bound md p ->
    exists b p' ds' l,
      Hash_df_update evp_ok fuel p ds c ob = Some (b, p', ds')
      /\ ran [] l p p'
      /\ (b = true -> bound md p' /\ Forall (eq true) l)
      /\ (b = false -> In false l).
Proof.
  induction rest as [|[n ptr] rest IH]; intros fuel p ds Hrest Htot Hfuel Hb;
    (destruct fuel as [|fuel]; [cbn [length] in Hfuel; lia|]);
    cbn [Hash_df_update].
  - rewrite Htot. cbn. exists true, p, ds, [].
    split; [reflexivity|]. split; [apply ran_refl|].
    split; [auto|discriminate].
  - destruct (Nat.eqb (total ds) 0).
    + exists true, p, ds, [].
      split; [reflexivity|]. split; [apply ran_refl|].
      split; [auto|discriminate].
    + apply skipn_cons_nth in Hrest. destruct Hrest as [Hnth Hskip].
      unfold DS_Extract. rewrite Hnth.
      destruct (EVP_DigestUpdate evp_ok p (load p c ob ptr n))
        as [ok p1] eqn:E.
      pose proof (EVP_DigestUpdate_touch _ _ _ _ E) as Ht.
      apply EVP_DigestUpdate_sound in E. destruct E as [Hcall Hbound].
      destruct ok.
      * destruct (IH fuel p1 (mkDS (dse ds) (S (index ds)) (total ds - n)))
          as (b & p' & ds' & l & Hrun & Hran & Hb1 & Hb0).
        -- exact Hskip.
        -- cbn [total]. rewrite Htot. simpl. lia.
        -- cbn [length] in Hfuel. lia.
        -- now apply Hbound.
        -- exists b, p', ds', (l ++ [true]).
           split; [exact Hrun|]. split; [|split].
           ++ apply (ran_trans [] [true] l p p1 p'); [|exact Hran].
              now apply ran_call.
           ++ intros Hbt. destruct (Hb1 Hbt) as [Hbd Hall].
              split; [exact Hbd|]. apply Forall_app. split; [exact Hall|].
              repeat constructor.
           ++ intros Hbf. apply in_or_app. left. auto.
      * eexists false, _, _, [false]. split; [reflexivity|].
        split; [|split; [discriminate|intros _; now left]].
        apply (ran_failed [] p p1 _ Hcall Ht msg_init).
Qed.

(** The outer loop of [Hash_df], whatever the digest calls return: it ends,
    it writes to [out] and [pctx->T] only, and in [out] to the [outl] bytes
    from [off] on only. *)
Lemma Hash_df_loop_safe (ob : list byte) (out : ctx_buf) :
  out <> BufT ->
  forall (fuel outl : nat) (p : SP800_90PRNG_Data_t) (ds : DS)
         (counter : byte) (off digestL : nat),
    outl < fuel ->
    (forall md, alg_md p = Some md -> EVP_MD_wf md) ->
    off + outl <= length (get_buf out p) ->
    exists p' l,
      Hash_df_loop evp_ok fuel p ds counter ob out off outl digestL = Some p'
      /\ ran [out; BufT] l p p'
      /\ length (get_buf out p') = length (get_buf out p)
      /\ firstn off (get_buf out p') = firstn off (get_buf out p)
      /\ skipn (off + outl) (get_buf out p')
         = skipn (off + outl) (get_buf out p).
Proof.
  intros Hout.
  assert (Hnil : incl (@nil ctx_buf) [out; BufT]) by (intros ? []).
  assert (HinT : In BufT [out; BufT]) by (right; now left).
  assert (Hino : In out [out; BufT]) by now left.
  induction fuel as [|fuel IH];
    intros outl p ds counter off digestL Hfuel Hwf Hroom; [lia|].
  cbn [Hash_df_loop].
  destruct (Nat.eqb_spec outl 0) as [Hz|Hnz].
  - eexists _, []. split; [reflexivity|].
    split; [apply (ran_set_buf _ BufT _ p HinT)|].
    destruct out; try congruence; cbn; auto.
  - destruct (EVP_DigestInit evp_ok p) as [ok p1] eqn:E1.
    pose proof (EVP_DigestInit_touch _ _ _ E1) as Ht1.
    apply EVP_DigestInit_sound in E1. destruct E1 as [Hcall1 Hb1].
    destruct ok; cbn [negb].
    2:{ eexists _, [false]. split; [reflexivity|].
        pose proof (ran_failed [] p p1 _ Hcall1 Ht1 msg_init) as Hr.
        split; [now apply ran_weaken with []|].
        destruct Hr as ((_ & _ & _ & _ & Hbuf) & _).
        rewrite (Hbuf out) by (intros []). auto. }
    destruct (Hb1 eq_refl) as (md & Halg & Hbound1).
    destruct (Hwf md Halg) as [Hpos Hlen].
    pose proof (ran_call [] p p1 Hcall1 Ht1) as Hr1.
    destruct (Hash_df_update_ran counter ob md (dse ds)
                (S (length (dse (DS_Reset ds)))) p1 (DS_Reset ds))
      as (b & p2 & ds2 & l2 & Hrun2 & Hr2 & Hb2 & Hb2f);
      [reflexivity|reflexivity|cbn; lia|exact Hbound1|].
    rewrite Hrun2.
    pose proof (ran_trans [] _ _ p p1 p2 Hr1 Hr2) as Hr12.
    destruct b.
    2:{ exists p2, (l2 ++ [true]). split; [reflexivity|].
        split; [now apply ran_weaken with []|].
        destruct Hr12 as ((_ & _ & _ & _ & Hbuf) & _).
        rewrite (Hbuf out) by (intros []). auto. }
    destruct (Hb2 eq_refl) as [Hbound2 _].
    destruct (EVP_DigestFinal evp_ok p2 BufT) as [[ok p3] l] eqn:E3.
    destruct (EVP_DigestFinal_touch _ _ _ _ _ E3) as [Ht3 HT3].
    apply EVP_DigestFinal_sound in E3. destruct E3 as [Hcall3 Hl3].
    assert (Hout2 : get_buf out p2 = get_buf out p).
    { destruct Hr12 as ((_ & _ & _ & _ & Hbuf) & _).
      apply Hbuf. intros []. }
    assert (Hout3 : get_buf out p3 = get_buf out p).
    { destruct Ht3 as (_ & _ & _ & _ & Hbuf).
      rewrite Hbuf; [exact Hout2|]. intros [H|[]]. congruence. }
    destruct ok; cbn [negb].
    2:{ eexists _, ([false] ++ (l2 ++ [true])). split; [reflexivity|].
        pose proof (ran_failed [BufT] p2 p3 _ Hcall3 Ht3 msg_final) as Hr.
        split.
        - apply (ran_trans _ _ _ p p2 _).
          + now apply ran_weaken with [].
          + apply ran_weaken with [BufT]; [|exact Hr].
            intros ? [<-|[]]. exact HinT.
        - destruct Hr as ((_ & _ & _ & _ & Hbuf) & _).
          rewrite (Hbuf out) by (intros [H|[]]; congruence).
          rewrite Hout2. auto. }
    rewrite (Hl3 eq_refl md Hbound2).
    destruct (HT3 eq_refl md Hbound2) as [a HT3'].
    set (j := if Nat.ltb (md_size md) outl then md_size md else outl).
    assert (Hj : 1 <= j /\ j <= outl /\ j <= md_size md).
    { unfold j. destruct (Nat.ltb_spec (md_size md) outl); lia. }
    set (p4 := EVP_MD_CTX_reset p3).
    assert (Ht4 : touch [] p3 p4) by apply touch_reset.
    assert (HT4 : T p4 = memcpy (T p2) (HASH md a) (md_size md)).
    { destruct Ht4 as (_ & _ & _ & _ & Hbuf).
      change (get_buf BufT p4 = memcpy (get_buf BufT p2) (HASH md a) (md_size md)).
      rewrite <- HT3'. apply (Hbuf BufT). intros []. }
    assert (Hout4 : get_buf out p4 = get_buf out p).
    { destruct Ht4 as (_ & _ & _ & _ & Hbuf).
      rewrite (Hbuf out) by (intros []). exact Hout3. }
    assert (HlenT4 : j <= length (T p4)).
    { rewrite HT4. pose proof (length_memcpy_digest (T p2) (HASH md a)
                                 (md_size md) (Hlen a)). lia. }
    set (p5 := set_buf out (memcpy_at (get_buf out p4) off (T p4) j) p4).
    assert (Hr5 : ran [out; BufT] ([] ++ [] ++ [true] ++ l2 ++ [true]) p p5).
    { apply (ran_trans _ _ _ p p4 p5).
      - apply (ran_trans _ _ _ p p3 p4).
        + apply (ran_trans _ _ _ p p2 p3).
          * now apply ran_weaken with [].
          * apply ran_call; [exact Hcall3|].
            apply touch_weaken with [BufT]; [|exact Ht3].
            intros ? [<-|[]]. exact HinT.
        + apply ran_reset.
      - now apply ran_set_buf. }
    assert (Hout5 : get_buf out p5
                    = memcpy_at (get_buf out p) off (T p4) j).
    { unfold p5. now rewrite get_set_buf, Hout4. }
    destruct (IH (outl - j) p5 ds2 (byte_succ counter) (off + j)
                 (md_size md)) as (p' & l' & Hrun & Hr' & Hlen' & Hf' & Hs').
    + lia.
    + destruct Hr5 as ((_ & _ & Ha5 & _) & _). rewrite Ha5. exact Hwf.
    + rewrite Hout5, length_memcpy_at; lia.
    + exists p', (l' ++ [] ++ [] ++ [true] ++ l2 ++ [true]).
      split; [exact Hrun|].
      split; [apply (ran_trans _ _ _ p p5 p' Hr5 Hr')|].
      rewrite Hout5 in Hlen', Hf', Hs'.
      rewrite length_memcpy_at in Hlen' by lia.
      split; [exact Hlen'|]. split.
      * rewrite <- (memcpy_at_firstn (get_buf out p) (T p4) off j) by lia.
        apply firstn_eq_le with (off + j); [lia|exact Hf'].
      * replace (off + j + (outl - j)) with (off + outl) in Hs' by lia.
        rewrite Hs'.
        apply skipn_eq_le with (off + j); [lia|].
        apply memcpy_at_skipn; lia.
Qed.

(** [Hash_df] whatever the digest calls return. *)
Lemma Hash_df_safe (p : SP800_90PRNG_Data_t) (ds : DS) (out : ctx_buf)
      (outl : nat) :
  out <> BufT ->
  (forall md, alg_md p = Some md -> EVP_MD_wf md) ->
  outl <= length (get_buf out p) ->
  exists p' l,
    Hash_df evp_ok p ds out outl = Some p'
    /\ ran [out; BufT] l p p'
    /\ length (get_buf out p') = length (get_buf out p)
    /\ skipn outl (get_buf out p') = skipn outl (get_buf out p).
Proof.
  intros Hout Hwf Hroom. unfold Hash_df.
  destruct (Hash_df_loop_safe (uint2BS (N.of_nat outl * 8)) out Hout
              (S outl) outl p
              (DS_Insert (DS_Insert ds 4 Outbits) 1 Counter) x01 0 0)
    as (p' & l & Hrun & Hr & Hlen & _ & Hs); [lia|exact Hwf|exact Hroom|].
  exists p', l. auto.
Qed.

Lemma EVP_DigestFinal_fail_touch (p p' : SP800_90PRNG_Data_t)
      (dst : ctx_buf) (l : nat) :
  EVP_DigestFinal evp_ok p dst = (false, p', l) -> touch [] p p'.
Proof.
  unfold EVP_DigestFinal, touch.
  destruct (md_ctx p) as [[[md0|] a]|] eqn:Hc;
    [destruct (evp_ok _)|..]; intros H; inversion H; subst; cbn;
    rewrite ?Hc; repeat split; try discriminate; try tauto;
    intros []; reflexivity.
Qed.

Lemma touch_nil (bs : list ctx_buf) (p q : SP800_90PRNG_Data_t) :
  touch [] p q -> touch bs p q.
Proof. apply touch_weaken. intros ? []. Qed.

Lemma ran_ok_step (bs : list ctx_buf) (l : list bool)
      (p q q' : SP800_90PRNG_Data_t) :
  ran bs l p q -> Forall (eq true) l ->
  after_call true q q' -> touch bs q q' ->
  ran bs (true :: l) p q' /\ Forall (eq true) (true :: l).
Proof.
  intros Hr Hl Hc Ht. split.
  - apply (ran_trans bs l [true] p q q' Hr). now apply ran_call.
  - now constructor.
Qed.

Lemma ran_fail_step (bs : list ctx_buf) (l : list bool)
      (p q q' : SP800_90PRNG_Data_t) (msg : String.string) :
  ran bs l p q -> after_call false q q' -> touch bs q q' ->
  msg <> String.EmptyString ->
  exists l', ran bs l' p (failed msg q') /\ In false l'.
Proof.
  intros Hr Hc Ht Hm. exists (false :: l). split; [|now left].
  apply (ran_trans bs l [false] p q _ Hr). now apply ran_failed.
Qed.

Lemma all_true_no_false (l : list bool) :
  Forall (eq true) l -> In false l -> False.
Proof.
  intros Hall Hin. rewrite Forall_forall in Hall.
  specialize (Hall false Hin). discriminate.
Qed.

Lemma ran_V (bs : list ctx_buf) (l : list bool)
      (p q : SP800_90PRNG_Data_t) :
  ~ In BufV bs -> ran bs l p q -> V q = V p.
Proof. intros Hn ((_ & _ & _ & _ & Hbuf) & _). exact (Hbuf BufV Hn). Qed.

Lemma ran_prng (bs : list ctx_buf) (l : list bool)
      (p q : SP800_90PRNG_Data_t) :
  ran bs l p q -> prng q = prng p.
Proof. now intros ((H & _) & _). Qed.

Lemma ran_alg (bs : list ctx_buf) (l : list bool)
      (p q : SP800_90PRNG_Data_t) :
  ran bs l p q -> alg_md q = alg_md p.
Proof. now intros ((_ & _ & H & _) & _). Qed.

(** The block of [SHA_Generate] that mixes the additional input in,
    whatever the digest calls return: when it returns early it has written
    to no buffer. *)
Lemma Generate_additional_ran (p : SP800_90PRNG_Data_t) (adata : pointer)
      (adatal : nat) :
  seedlen (prng p) <= length (V p) ->
  match Generate_additional evp_ok p adata adatal with
  | Next q =>
      exists l, ran [BufV; BufT] l p q /\ Forall (eq true) l
                /\ length (V q) = length (V p)
                /\ (is_null adata = true \/ adatal = 0 -> q = p)
  | Return q => exists l, ran [] l p q /\ In false l
  end.
Proof.
  intros HV. unfold Generate_additional.
  destruct (negb (is_null adata) && negb (Nat.eqb adatal 0)) eqn:Hcond.
  2:{ exists []. split; [apply ran_refl|]. split; [constructor|]. auto. }
  assert (Hno : ~ (is_null adata = true \/ adatal = 0)).
  { apply andb_prop in Hcond. destruct Hcond as [H1 H2]. intros [H|H].
    - rewrite H in H1. discriminate.
    - subst. discriminate. }
  pose proof (ran_refl [] p) as Hr.
  assert (Hl : Forall (eq true) []) by constructor.
  unfold check, check_final.
  destruct (EVP_DigestInit evp_ok p) as [ok q1] eqn:E1.
  pose proof (EVP_DigestInit_touch _ _ _ E1) as Ht1.
  apply EVP_DigestInit_sound in E1. destruct E1 as [Hc1 _].
  destruct ok; [|now apply (ran_fail_step [] [] p p q1)].
  destruct (ran_ok_step [] _ p p q1 Hr Hl Hc1 Ht1) as [Hr1 Hl1].
  destruct (EVP_DigestUpdate evp_ok q1 _) as [ok q2] eqn:E2.
  pose proof (EVP_DigestUpdate_touch _ _ _ _ E2) as Ht2.
  apply EVP_DigestUpdate_sound in E2. destruct E2 as [Hc2 _].
  destruct ok; [|now apply (ran_fail_step [] _ p q1 q2 _ Hr1)].
  destruct (ran_ok_step [] _ p q1 q2 Hr1 Hl1 Hc2 Ht2) as [Hr2 Hl2].
  destruct (EVP_DigestUpdate evp_ok q2 _) as [ok q3] eqn:E3.
  pose proof (EVP_DigestUpdate_touch _ _ _ _ E3) as Ht3.
  apply EVP_DigestUpdate_sound in E3. destruct E3 as [Hc3 _].
  destruct ok; [|now apply (ran_fail_step [] _ p q2 q3 _ Hr2)].
  destruct (ran_ok_step [] _ p q2 q3 Hr2 Hl2 Hc3 Ht3) as [Hr3 Hl3].
  destruct (EVP_DigestUpdate evp_ok q3 _) as [ok q4] eqn:E4.
  pose proof (EVP_DigestUpdate_touch _ _ _ _ E4) as Ht4.
  apply EVP_DigestUpdate_sound in E4. destruct E4 as [Hc4 _].
  destruct ok; [|now apply (ran_fail_step [] _ p q3 q4 _ Hr3)].
  destruct (ran_ok_step [] _ p q3 q4 Hr3 Hl3 Hc4 Ht4) as [Hr4 Hl4].
  destruct (EVP_DigestFinal evp_ok q4 BufT) as [[ok q5] n] eqn:E5.
  destruct ok.
  2:{ pose proof (EVP_DigestFinal_fail_touch _ _ _ _ E5) as Ht5.
      apply EVP_DigestFinal_sound in E5. destruct E5 as [Hc5 _].
      now apply (ran_fail_step [] _ p q4 q5 _ Hr4). }
  destruct (EVP_DigestFinal_touch _ _ _ _ _ E5) as [Ht5 _].
  apply EVP_DigestFinal_sound in E5. destruct E5 as [Hc5 _].
  assert (Hi0 : incl (@nil ctx_buf) [BufV; BufT]) by (intros ? []).
  assert (Hi1 : incl [BufT] [BufV; BufT]) by (intros ? [<-|[]]; right; now left).
  destruct (ran_ok_step [BufV; BufT] _ p q4 q5
              (ran_weaken _ _ _ _ _ Hi0 Hr4) Hl4 Hc5
              (touch_weaken _ _ _ _ Hi1 Ht5)) as [Hr5 Hl5].
  set (q6 := EVP_MD_CTX_reset q5).
  pose proof (ran_trans [BufV; BufT] _ [] p q5 q6 Hr5
                (ran_reset [BufV; BufT] q5)) as Hr6.
  eexists. split; [|split; [|split]].
  - apply (ran_trans [BufV; BufT] _ [] p q6 _ Hr6).
    apply (ran_set_buf [BufV; BufT] BufV). now left.
  - exact Hl5.
  - cbn [V set_V].
    assert (HV6 : V q6 = V p).
    { destruct Hr4 as ((_ & _ & _ & _ & Hb4) & _).
      destruct Ht5 as (_ & _ & _ & _ & Hb5).
      destruct (touch_reset q5) as (_ & _ & _ & _ & Hb6).
      change (get_buf BufV q6 = get_buf BufV p).
      unfold q6. rewrite Hb6 by (intros []).
      rewrite Hb5 by (intros [H|[]]; discriminate).
      apply Hb4. intros []. }
    assert (Hp6 : prng q6 = prng p) by apply (ran_prng _ _ _ _ Hr6).
    rewrite length_Add; rewrite ?HV6, ?Hp6; auto.
  - intros H. now elim Hno.
Qed.

(** The Hashgen loop of [SHA_Generate], whatever the digest calls return:
    it ends, it writes to [pctx->T] and [pctx->eBuf] only, and in the
    caller's buffer to the [blen] bytes from [off] on only. *)
Lemma Hashgen_safe :
  forall (fuel blen : nat) (p : SP800_90PRNG_Data_t) (buffer : list byte)
         (off : nat),
    blen < fuel ->
    (forall md, alg_md p = Some md -> EVP_MD_wf md) ->
    off + blen <= length buffer ->
    exists f buf',
      Hashgen evp_ok fuel p buffer off blen = Some (f, buf')
      /\ flow_ran [BufT; BufE] [BufT; BufE] p f
      /\ length buf' = length buffer
      /\ firstn off buf' = firstn off buffer
      /\ skipn (off + blen) buf' = skipn (off + blen) buffer.
Proof.
  assert (HinT : In BufT [BufT; BufE]) by now left.
  assert (HinE : incl [BufE] [BufT; BufE]) by (intros ? [<-|[]]; right; now left).
  induction fuel as [|fuel IH]; intros blen p buffer off Hfuel Hwf Hroom;
    [lia|].
  cbn [Hashgen].
  destruct (Nat.eqb_spec blen 0) as [Hz|Hnz].
  { exists (Next p), buffer. split; [reflexivity|].
    split; [|auto]. exists []. split; [apply ran_refl|constructor]. }
  pose proof (ran_refl [BufT; BufE] p) as Hr.
  assert (Hl : Forall (eq true) []) by constructor.
  destruct (EVP_DigestInit evp_ok p) as [ok q1] eqn:E1.
  pose proof (touch_nil [BufT; BufE] _ _ (EVP_DigestInit_touch _ _ _ E1))
    as Ht1.
  apply EVP_DigestInit_sound in E1. destruct E1 as [Hc1 Hb1].
  destruct ok; cbn [negb].
  2:{ eexists _, buffer. split; [reflexivity|]. split; [|auto].
      now apply (ran_fail_step _ [] p p q1). }
  destruct (Hb1 eq_refl) as (md & Halg & Hbound1).
  destruct (Hwf md Halg) as [Hpos Hlen].
  destruct (ran_ok_step _ _ p p q1 Hr Hl Hc1 Ht1) as [Hr1 Hl1].
  destruct (EVP_DigestUpdate evp_ok q1 _) as [ok q2] eqn:E2.
  pose proof (touch_nil [BufT; BufE] _ _ (EVP_DigestUpdate_touch _ _ _ _ E2))
    as Ht2.
  apply EVP_DigestUpdate_sound in E2. destruct E2 as [Hc2 Hb2].
  destruct ok; cbn [negb].
  2:{ eexists _, buffer. split; [reflexivity|]. split; [|auto].
      now apply (ran_fail_step _ _ p q1 q2 _ Hr1). }
  pose proof (Hb2 eq_refl md Hbound1) as Hbound2.
  destruct (ran_ok_step _ _ p q1 q2 Hr1 Hl1 Hc2 Ht2) as [Hr2 Hl2].
  destruct (EVP_DigestFinal evp_ok q2 BufE) as [[ok q3] n] eqn:E3.
  destruct (EVP_DigestFinal_touch _ _ _ _ _ E3) as [Ht3 HE3].
  apply (touch_weaken _ _ _ _ HinE) in Ht3.
  apply EVP_DigestFinal_sound in E3. destruct E3 as [Hc3 Hn3].
  destruct ok; cbn [negb].
  2:{ eexists _, buffer. split; [reflexivity|]. split; [|auto].
      now apply (ran_fail_step _ _ p q2 q3 _ Hr2). }
  rewrite (Hn3 eq_refl md Hbound2).
  destruct (HE3 eq_refl md Hbound2) as [a HE3'].
  destruct (ran_ok_step _ _ p q2 q3 Hr2 Hl2 Hc3 Ht3) as [Hr3 Hl3].
  set (q4 := EVP_MD_CTX_reset q3).
  pose proof (ran_trans [BufT; BufE] _ [] p q3 q4 Hr3
                (ran_reset [BufT; BufE] q3)) as Hr4.
  set (q5 := set_T (Add (T q4) (T q4) (seedlen (prng q4)) [x01] 1) q4).
  pose proof (ran_trans [BufT; BufE] _ [] p q4 q5 Hr4
                (ran_set_buf [BufT; BufE] BufT _ q4 HinT)) as Hr5.
  set (j := if Nat.ltb (md_size md) blen then md_size md else blen).
  assert (Hj : 1 <= j /\ j <= blen /\ j <= md_size md).
  { unfold j. destruct (Nat.ltb_spec (md_size md) blen); lia. }
  assert (HE5 : eBuf q5 = memcpy (eBuf q2) (HASH md a) (md_size md)).
  { transitivity (get_buf BufE q3); [|exact HE3'].
    destruct (touch_reset q3) as (_ & _ & _ & _ & Hb).
    exact (Hb BufE (fun H => H)). }
  assert (HlenE : j <= length (eBuf q5)).
  { rewrite HE5. pose proof (length_memcpy_digest (eBuf q2) (HASH md a)
                               (md_size md) (Hlen a)). lia. }
  destruct (IH (blen - j) q5 (memcpy_at buffer off (eBuf q5) j) (off + j))
    as (f & buf' & Hrun & Hf & Hlen' & Hfst & Hskp).
  - lia.
  - rewrite (ran_alg _ _ _ _ Hr5). exact Hwf.
  - rewrite length_memcpy_at; lia.
  - exists f, buf'. split; [exact Hrun|].
    rewrite length_memcpy_at in Hlen' by lia.
    split; [|split; [exact Hlen'|split]].
    + destruct f as [q|q]; cbn [flow_ran] in *;
        destruct Hf as (l' & Hr' & Hl');
        exists (l' ++ [] ++ [] ++ [true; true; true]);
        (split; [exact (ran_trans _ _ _ p q5 q Hr5 Hr')|]).
      * apply Forall_app. split; [exact Hl'|exact Hl3].
      * apply in_or_app. now left.
    + rewrite <- (memcpy_at_firstn buffer (eBuf q5) off j) by lia.
      apply firstn_eq_le with (off + j); [lia|exact Hfst].
    + replace (off + j + (blen - j)) with (off + blen) in Hskp by lia.
      rewrite Hskp.
      apply skipn_eq_le with (off + j); [lia|].
      apply memcpy_at_skipn; lia.
Qed.

Lemma update_failed (p q : SP800_90PRNG_Data_t) :
  (exists l, ran [BufT] l p q /\ In false l) ->
  exists l, ran [BufV; BufT] l p q /\ (In false l -> touch [BufT] p q)
            /\ length (V q) = length (V p).
Proof.
  intros (l & Hr & Hin). exists l. split; [|split].
  - apply ran_weaken with [BufT]; [|exact Hr].
    intros ? [<-|[]]. right. now left.
  - intros _. now destruct Hr.
  - rewrite (ran_V [BufT] l p q); [reflexivity| |exact Hr].
    intros [H|[]]. discriminate.
Qed.

(** The last block of [SHA_Generate], whatever the digest calls return: it
    always returns, and when a digest call failed [V] is as it was. *)
Lemma Generate_update_ran (p : SP800_90PRNG_Data_t) :
  seedlen (prng p) <= length (V p) ->
  match Generate_update evp_ok p with
  | Next _ => False
  | Return q =>
      exists l, ran [BufV; BufT] l p q /\ (In false l -> touch [BufT] p q)
                /\ length (V q) = length (V p)
  end.
Proof.
  intros HV. unfold Generate_update. cbv zeta.
  set (p1 := set_T (memset0 (T p) (seedlen (prng p))) p).
  assert (HinT : In BufT [BufT]) by now left.
  pose proof (ran_set_buf [BufT] BufT (memset0 (T p) (seedlen (prng p))) p
                HinT) as Hr.
  change (set_buf BufT (memset0 (T p) (seedlen (prng p))) p) with p1 in Hr.
  assert (Hl : Forall (eq true) []) by constructor.
  unfold check, check_final.
  destruct (EVP_DigestInit evp_ok p1) as [ok q1] eqn:E1.
  pose proof (touch_nil [BufT] _ _ (EVP_DigestInit_touch _ _ _ E1)) as Ht1.
  apply EVP_DigestInit_sound in E1. destruct E1 as [Hc1 _].
  destruct ok;
    [|apply update_failed; now apply (ran_fail_step _ _ p p1 q1 _ Hr)].
  destruct (ran_ok_step _ _ p p1 q1 Hr Hl Hc1 Ht1) as [Hr1 Hl1].
  destruct (EVP_DigestUpdate evp_ok q1 _) as [ok q2] eqn:E2.
  pose proof (touch_nil [BufT] _ _ (EVP_DigestUpdate_touch _ _ _ _ E2))
    as Ht2.
  apply EVP_DigestUpdate_sound in E2. destruct E2 as [Hc2 _].
  destruct ok;
    [|apply update_failed; now apply (ran_fail_step _ _ p q1 q2 _ Hr1)].
  destruct (ran_ok_step _ _ p q1 q2 Hr1 Hl1 Hc2 Ht2) as [Hr2 Hl2].
  destruct (EVP_DigestUpdate evp_ok q2 _) as [ok q3] eqn:E3.
  pose proof (touch_nil [BufT] _ _ (EVP_DigestUpdate_touch _ _ _ _ E3))
    as Ht3.
  apply EVP_DigestUpdate_sound in E3. destruct E3 as [Hc3 _].
  destruct ok;
    [|apply update_failed; now apply (ran_fail_step _ _ p q2 q3 _ Hr2)].
  destruct (ran_ok_step _ _ p q2 q3 Hr2 Hl2 Hc3 Ht3) as [Hr3 Hl3].
  destruct (EVP_DigestFinal evp_ok q3 BufT) as [[ok q4] n] eqn:E4.
  destruct (EVP_DigestFinal_touch _ _ _ _ _ E4) as [Ht4 _].
  apply EVP_DigestFinal_sound in E4. destruct E4 as [Hc4 _].
  destruct ok;
    [|apply update_failed; now apply (ran_fail_step _ _ p q3 q4 _ Hr3)].
  destruct (ran_ok_step _ _ p q3 q4 Hr3 Hl3 Hc4 Ht4) as [Hr4 Hl4].
  set (q5 := EVP_MD_CTX_reset q4).
  pose proof (ran_trans [BufT] _ [] p q4 q5 Hr4 (ran_reset [BufT] q4))
    as Hr5.
  assert (HV5 : V q5 = V p).
  { eapply ran_V; [|exact Hr5]. intros [H|[]]. discriminate. }
  assert (Hp5 : prng q5 = prng p) by apply (ran_prng _ _ _ _ Hr5).
  assert (Hi : incl [BufT] [BufV; BufT]) by (intros ? [<-|[]]; right; now left).
  apply (ran_weaken _ _ _ _ _ Hi) in Hr5.
  assert (HiV : In BufV [BufV; BufT]) by now left.
  assert (HiT : In BufT [BufV; BufT]) by (right; now left).
  set (v6 := Add (V q5) (V q5) (seedlen (prng q5)) (T q5) (OBL (prng q5))).
  set (q6 := set_V v6 q5).
  pose proof (ran_trans [BufV; BufT] _ [] p q5 q6 Hr5
                (ran_set_buf _ BufV v6 q5 HiV)) as Hr6.
  assert (HV6 : length (V q6) = length (V p)).
  { unfold q6, v6. cbn [V set_V].
    rewrite length_Add; rewrite ?HV5, ?Hp5; auto. }
  change (prng q5) with (prng q6). change (C q5) with (C q6).
  change (CallCount_c q5) with (CallCount_c q6).
  set (v7 := Add (V q6) (V q6) (seedlen (prng q6)) (C q6) 0).
  set (q7 := set_V v7 q6).
  pose proof (ran_trans [BufV; BufT] _ [] p q6 q7 Hr6
                (ran_set_buf _ BufV v7 q6 HiV)) as Hr7.
  assert (HV7 : length (V q7) = length (V p)).
  { unfold q7, v7. cbn [V set_V].
    rewrite length_Add; rewrite ?HV6; change (prng q6) with (prng q5);
      rewrite ?Hp5; auto. }
  set (q8 := set_T (memset0 (T q7) (seedlen (prng q7))) q7).
  pose proof (ran_trans [BufV; BufT] _ [] p q7 q8 Hr7
                (ran_set_buf _ BufT _ q7 HiT)) as Hr8.
  set (v9 := Add (V q8) (V q8) (seedlen (prng q8)) (CallCount_c q8) 4).
  pose proof (ran_trans [BufV; BufT] _ [] p q8 (set_V v9 q8) Hr8
                (ran_set_buf _ BufV v9 q8 HiV)) as Hr9.
  eexists. split; [exact Hr9|]. split.
  - intros Hin. exfalso. revert Hin. apply all_true_no_false. exact Hl4.
  - unfold v9. cbn [V set_V]. change (V q8) with (V q7).
    change (prng q8) with (prng q5).
    rewrite length_Add; rewrite ?HV7, ?Hp5; auto.
Qed.

Ltac incl_solve :=
  let a := fresh "a" in
  let H := fresh "H" in
  intros a H; cbn in H |- *; tauto.

(** [SHA_Generate] whatever the digest calls return. *)
Lemma SHA_Generate_safe (p : SP800_90PRNG_Data_t) (buffer : list byte)
      (blen : nat) (adata : pointer) (adatal : nat) :
  (forall md, alg_md p = Some md -> EVP_MD_wf md) ->
  seedlen (prng p) <= length (V p) ->
  blen <= length buffer ->
  exists p' buf' l,
    SHA_Generate evp_ok p buffer blen adata adatal = Some (state p', p', buf')
    /\ ran [BufV; BufT; BufE] l p p'
    /\ length buf' = length buffer
    /\ skipn blen buf' = skipn blen buffer
    /\ length (V p') = length (V p)
    /\ (In false l -> is_null adata = true \/ adatal = 0 -> V p' = V p).
Proof.
  intros Hwf HV Hroom. unfold SHA_Generate.
  pose proof (Generate_additional_ran p adata adatal HV) as Hadd.
  destruct (Generate_additional evp_ok p adata adatal) as [q|q].
  2:{ destruct Hadd as (l & Hr & Hin). exists q, buffer, l.
      split; [reflexivity|].
      split; [apply ran_weaken with []; [incl_solve|exact Hr]|].
      assert (Hq : V q = V p) by (eapply ran_V; [|exact Hr]; intros []).
      rewrite Hq. auto. }
  destruct Hadd as (l0 & Hr0 & Hl0 & HV0 & Hsame).
  apply (ran_weaken _ [BufV; BufT; BufE]) in Hr0; [|incl_solve].
  set (p1 := set_T (memcpy (T q) (V q) (seedlen (prng q))) q).
  assert (Hr1 : ran [BufV; BufT; BufE] ([] ++ l0) p p1).
  { apply (ran_trans _ _ _ p q p1 Hr0).
    apply (ran_set_buf _ BufT). right. now left. }
  destruct (Hashgen_safe (S blen) blen p1 buffer 0)
    as (f & buf' & Hrun & Hf & Hlen & _ & Hskip).
  - lia.
  - rewrite (ran_alg _ _ _ _ Hr1). exact Hwf.
  - exact Hroom.
  - rewrite Hrun. cbn [Nat.add] in Hskip.
    destruct f as [q2|q2]; cbn [flow_ran] in Hf;
      destruct Hf as (l2 & Hr2 & Hl2).
    + assert (HV2 : V q2 = V q).
      { change (V q) with (V p1). eapply ran_V; [|exact Hr2].
        intros [H|[H|[]]]; discriminate. }
      apply (ran_weaken _ [BufV; BufT; BufE]) in Hr2; [|incl_solve].
      pose proof (ran_trans _ _ _ p p1 q2 Hr1 Hr2) as Hr12.
      pose proof (Generate_update_ran q2) as Hupd.
      destruct (Generate_update evp_ok q2) as [q3|q3].
      * exfalso. apply Hupd.
        rewrite (ran_prng _ _ _ _ Hr12), HV2, HV0. exact HV.
      * destruct Hupd as (l3 & Hr3 & Hfail & HV3).
        { rewrite (ran_prng _ _ _ _ Hr12), HV2, HV0. exact HV. }
        apply (ran_weaken _ [BufV; BufT; BufE]) in Hr3; [|incl_solve].
        exists q3, buf', (l3 ++ l2 ++ [] ++ l0).
        split; [reflexivity|].
        split; [exact (ran_trans _ _ _ p q2 q3 Hr12 Hr3)|].
        split; [exact Hlen|]. split; [exact Hskip|].
        split; [rewrite HV3, HV2; exact HV0|].
        intros Hin Hno. rewrite (Hsame Hno) in HV2.
        apply in_app_or in Hin. destruct Hin as [Hin|Hin].
        -- destruct (Hfail Hin) as (_ & _ & _ & _ & Hb).
           change (get_buf BufV q3 = V p).
           rewrite Hb by (intros [H|[]]; discriminate). exact HV2.
        -- exfalso. apply in_app_or in Hin. destruct Hin as [Hin|Hin].
           ++ exact (all_true_no_false _ Hl2 Hin).
           ++ exact (all_true_no_false _ Hl0 Hin).
    + assert (HV2 : V q2 = V q).
      { change (V q) with (V p1). eapply ran_V; [|exact Hr2].
        intros [H|[H|[]]]; discriminate. }
      apply (ran_weaken _ [BufV; BufT; BufE]) in Hr2; [|incl_solve].
      exists q2, buf', (l2 ++ [] ++ l0).
      split; [reflexivity|].
      split; [exact (ran_trans _ _ _ p p1 q2 Hr1 Hr2)|].
      split; [exact Hlen|]. split; [exact Hskip|].
      split; [rewrite HV2; exact HV0|].
      intros _ Hno. rewrite HV2. now rewrite (Hsame Hno).
Qed.

Lemma usable_ran (bs : list ctx_buf) (l : list bool)
      (p q : SP800_90PRNG_Data_t) :
  usable p -> ran bs l p q ->
  length (V q) = length (V p) -> length (C q) = length (C p) -> usable q.
Proof.
  intros (Hmd & Hctx & HV & HC) ((Hp & _ & Ha & Hc & _) & _) HlV HlC.
  unfold usable. rewrite Ha, Hp, HlV, HlC.
  split; [exact Hmd|]. split; [tauto|]. split; assumption.
Qed.

Lemma usable_wf (p : SP800_90PRNG_Data_t) :
  usable p -> forall md, alg_md p = Some md -> EVP_MD_wf md.
Proof.
  intros ((md0 & Ha & Hwf) & _) md H. congruence.
Qed.

(** [SHA_ReSeed] whatever the digest calls return. *)
Lemma SHA_ReSeed_safe (p : SP800_90PRNG_Data_t) (ein : pointer) (einl : nat)
      (adata : pointer) (adatal : nat) :
  (forall md, alg_md p = Some md -> EVP_MD_wf md) ->
  seedlen (prng p) <= length (V p) ->
  seedlen (prng p) <= length (C p) ->
  exists p' l,
    SHA_ReSeed evp_ok p ein einl adata adatal = Some (state p', p')
    /\ ran [BufV; BufC; BufT] l p p'
    /\ length (V p') = length (V p)
    /\ length (C p') = length (C p)
    /\ skipn (seedlen (prng p)) (V p') = skipn (seedlen (prng p)) (V p)
    /\ skipn (seedlen (prng p)) (C p') = skipn (seedlen (prng p)) (C p).
Proof.
  intros Hwf HV HC. unfold SHA_ReSeed. cbv zeta.
  set (n := seedlen (prng p)) in *.
  destruct (Hash_df_safe p
              (DS_Append (DS_Append (DS_Append (DS_Append DS_Init 1 C01)
                                               n (Ctx BufV)) einl ein)
                         adatal adata) BufC n)
    as (p1 & l1 & Hrun1 & Hr1 & Hlen1 & Hskip1);
    [discriminate|exact Hwf|exact HC|].
  rewrite Hrun1.
  cbn [get_buf] in Hlen1, Hskip1.
  assert (Hp1 : prng p1 = prng p) by apply (ran_prng _ _ _ _ Hr1).
  assert (HV1 : V p1 = V p).
  { eapply ran_V; [|exact Hr1]. intros [H|[H|[]]]; discriminate. }
  rewrite Hp1. fold n.
  set (p2 := set_V (memcpy (V p1) (C p1) n) p1).
  apply (ran_weaken _ [BufV; BufC; BufT]) in Hr1; [|incl_solve].
  assert (Hr2 : ran [BufV; BufC; BufT] ([] ++ l1) p p2).
  { apply (ran_trans _ _ _ p p1 p2 Hr1).
    apply (ran_set_buf _ BufV). now left. }
  change (prng p2) with (prng p1). rewrite Hp1. fold n.
  destruct (Hash_df_safe p2
              (DS_Append (DS_Append DS_Init 1 C00) n (Ctx BufV)) BufC n)
    as (p3 & l3 & Hrun3 & Hr3 & Hlen3 & Hskip3).
  - discriminate.
  - rewrite (ran_alg _ _ _ _ Hr2). exact Hwf.
  - change (get_buf BufC p2) with (C p1). lia.
  - rewrite Hrun3. exists p3, (l3 ++ [] ++ l1). split; [reflexivity|].
    change (get_buf BufC p2) with (C p1) in Hlen3, Hskip3.
    cbn [get_buf] in Hlen3, Hskip3.
    assert (HV3 : V p3 = memcpy (V p) (C p1) n).
    { rewrite <- HV1. change (memcpy (V p1) (C p1) n) with (V p2).
      eapply ran_V; [|exact Hr3]. intros [H|[H|[]]]; discriminate. }
    apply (ran_weaken _ [BufV; BufC; BufT]) in Hr3; [|incl_solve].
    split; [exact (ran_trans _ _ _ p p2 p3 Hr2 Hr3)|].
    split; [|split; [lia|split; [|congruence]]].
    + rewrite HV3. unfold memcpy. rewrite length_app, length_firstn,
        length_skipn. lia.
    + rewrite HV3. apply skipn_memcpy. lia.
Qed.

Lemma length_memset0_le (dst : list byte) (n : nat) :
  n <= length dst -> length (memset0 dst n) = length dst.
Proof.
  intros H. unfold memset0, zeros.
  rewrite length_app, repeat_length, length_skipn. lia.
Qed.

(** [SHA_Instantiate] when the provider knows the digest, whatever the
    digest calls return. *)
Lemma SHA_Instantiate_safe (p : SP800_90PRNG_Data_t)
      (ein : pointer) (einl : nat) (nonce : pointer) (nonl : nat)
      (person : pointer) (perl : nat) (md : EVP_MD) :
  EVP_get_digestbyname (specific (prng p)) = Some md -> EVP_MD_wf md ->
  seedlen (prng p) <= length (V p) -> seedlen (prng p) <= length (C p) ->
  exists p' l,
    SHA_Instantiate EVP_get_digestbyname evp_ok p ein einl nonce nonl
                    person perl = Some (state p', p')
    /\ usable p' /\ alg_md p' = Some md
    /\ prng p' = prng p /\ CallCount_c p' = CallCount_c p
    /\ eBuf p' = eBuf p
    /\ evp_log p' = l ++ evp_log p
    /\ (Forall (eq true) l ->
        state p' = state p /\ error_reason p' = error_reason p)
    /\ (In false l -> in_error p')
    /\ (in_error p -> in_error p')
    /\ length (V p') = length (V p) /\ length (C p') = length (C p).
Proof.
  intros Hget Hwf HV HC. unfold SHA_Instantiate. cbv zeta.
  cbn [prng set_V set_alg_md alg_md md_ctx].
  rewrite Hget.
  set (n := seedlen (prng p)) in *.
  set (pa := set_alg_md (Some md) (set_V (memset0 (V p) n) p)).
  set (p0 := match md_ctx p with
             | Some _ => pa
             | None => set_md_ctx (Some EVP_MD_CTX_new) pa
             end).
  assert (H0 : prng p0 = prng p /\ state p0 = state p
               /\ error_reason p0 = error_reason p
               /\ V p0 = memset0 (V p) n /\ C p0 = C p /\ eBuf p0 = eBuf p
               /\ CallCount_c p0 = CallCount_c p /\ alg_md p0 = Some md
               /\ md_ctx p0 <> None /\ evp_log p0 = evp_log p).
  { unfold p0. destruct (md_ctx p) eqn:Hc; cbn; rewrite ?Hc;
      repeat split; discriminate. }
  destruct H0 as (Hp0 & Hs0 & He0 & HV0 & HC0 & HE0 & Hn0 & Ha0 & Hc0 & Hl0).
  rewrite Hp0. fold n.
  destruct (Hash_df_safe p0
              (DS_Append (DS_Append (DS_Append DS_Init einl ein) nonl nonce)
                         perl person) BufV n)
    as (p1 & l1 & Hrun1 & Hr1 & Hlen1 & _).
  - discriminate.
  - intros md' H. congruence.
  - cbn [get_buf]. rewrite HV0, length_memset0_le; exact HV.
  - rewrite Hrun1. cbn [get_buf] in Hlen1.
    rewrite (ran_prng _ _ _ _ Hr1), Hp0. fold n.
    destruct (Hash_df_safe p1
                (DS_Append (DS_Append DS_Init 1 C00) n (Ctx BufV)) BufC n)
      as (p2 & l2 & Hrun2 & Hr2 & Hlen2 & _).
    + discriminate.
    + rewrite (ran_alg _ _ _ _ Hr1). intros md' H. congruence.
    + cbn [get_buf].
      destruct Hr1 as ((_ & _ & _ & _ & Hb) & _).
      change (C p1) with (get_buf BufC p1).
      rewrite Hb by (intros [H|[H|[]]]; discriminate).
      cbn [get_buf]. rewrite HC0. exact HC.
    + rewrite Hrun2. cbn [get_buf] in Hlen2.
      exists p2, (l2 ++ l1). split; [reflexivity|].
      assert (HC1 : C p1 = C p).
      { destruct Hr1 as ((_ & _ & _ & _ & Hb) & _).
        rewrite <- HC0. apply (Hb BufC). intros [H|[H|[]]]; discriminate. }
      assert (HV2 : V p2 = V p1).
      { eapply ran_V; [|exact Hr2]. intros [H|[H|[]]]; discriminate. }
      assert (HlV : length (V p2) = length (V p)).
      { rewrite HV2, Hlen1, HV0. now apply length_memset0_le. }
      assert (HlC : length (C p2) = length (C p)) by congruence.
      apply (ran_weaken _ [BufV; BufC; BufT]) in Hr1; [|incl_solve].
      apply (ran_weaken _ [BufV; BufC; BufT]) in Hr2; [|incl_solve].
      pose proof (ran_trans _ _ _ p0 p1 p2 Hr1 Hr2) as Hr.
      destruct Hr as ((Hp & Hn & Ha & Hc & Hb) & Hl & Hst & Hf & He).
      split.
      { unfold usable. rewrite Ha, Hp, Hp0, HlV, HlC.
        split; [exists md; auto|]. split; [tauto|]. fold n. auto. }
      split; [congruence|]. split; [congruence|]. split; [congruence|].
      split.
      { rewrite <- HE0. apply (Hb BufE).
        intros [H|[H|[H|[]]]]; discriminate. }
      split; [congruence|].
      split; [intros H; destruct (Hst H); split; congruence|].
      split; [exact Hf|].
      split; [|split; assumption].
      intros [H1 H2]. apply He. split; congruence.
Qed.

(** [SHA_Instantiate] when the provider does not know the digest. *)
Lemma SHA_Instantiate_no_digest (p : SP800_90PRNG_Data_t)
      (ein : pointer) (einl : nat) (nonce : pointer) (nonl : nat)
      (person : pointer) (perl : nat) :
  EVP_get_digestbyname (specific (prng p)) = None ->
  exists p',
    SHA_Instantiate EVP_get_digestbyname evp_ok p ein einl nonce nonl
                    person perl = Some (SP800_90ERROR, p')
    /\ in_error p'
    /\ evp_log p' = evp_log p
    /\ md_ctx p' = md_ctx p
    /\ alg_md p' = None
    /\ V p' = memset0 (V p) (seedlen (prng p))
    /\ C p' = C p /\ T p' = T p /\ eBuf p' = eBuf p
    /\ CallCount_c p' = CallCount_c p /\ prng p' = prng p.
Proof.
  intros Hget. unfold SHA_Instantiate. cbv zeta.
  cbn [prng set_V set_alg_md alg_md md_ctx].
  rewrite Hget. eexists. split; [reflexivity|].
  cbn. unfold in_error. cbn. repeat split. discriminate.
Qed.

Lemma all_true_or_false (l : list bool) : Forall (eq true) l \/ In false l.
Proof.
  induction l as [|[] l [IH|IH]].
  - left. constructor.
  - left. now constructor.
  - right. now right.
  - right. now left.
  - right. now left.
Qed.

(** X5: on an instance that has its digest and its digest context,
    [Hash_df] returns whatever the digest calls return, provided the digest is not empty and
    [out] has room for [outl] bytes.  Of the
    context it writes to [out] and to [pctx->T] only; [out] keeps its
    length and its bytes from [outl] on; the profile, the reseed counter
    and the digest stay.  The state and the diagnostic change only when a
    digest call failed, and then the context is in the error state. *)
Theorem Hash_df_any_outcome (p : SP800_90PRNG_Data_t) (ds : DS)
        (out : ctx_buf) (outl : nat) :
  md_ctx p <> None -> alg_md p <> None ->
  out <> BufT ->
  (forall md, alg_md p = Some md -> EVP_MD_wf md) ->
  outl <= length (get_buf out p) ->
  exists p' l,
    Hash_df evp_ok p ds out outl = Some p'
    /\ evp_log p' = l ++ evp_log p
    /\ (forall b, b <> out -> b <> BufT -> get_buf b p' = get_buf b p)
    /\ length (get_buf out p') = length (get_buf out p)
    /\ skipn outl (get_buf out p') = skipn outl (get_buf out p)
    /\ prng p' = prng p /\ CallCount_c p' = CallCount_c p
    /\ alg_md p' = alg_md p
    /\ (Forall (eq true) l ->
        state p' = state p /\ error_reason p' = error_reason p)
    /\ (In false l -> in_error p').
Proof.
  intros _ _ Hout Hwf Hroom.
  destruct (Hash_df_safe p ds out outl Hout Hwf Hroom)
    as (p' & l & Hrun & Hr & Hlen & Hskip).
  destruct Hr as ((Hp & Hn & Ha & _ & Hb) & Hl & Hst & Hf & _).
  exists p', l. split; [exact Hrun|]. split; [exact Hl|].
  split; [|tauto].
  intros b H1 H2. apply Hb. intros [H|[H|[]]]; congruence.
Qed.

(** X7: When the provider does not know the digest named by the profile,
    [SHA_Instantiate] returns [SP800_90ERROR] with a diagnostic; it has made
    no digest call and allocated no digest context, the first [seedlen]
    bytes of [V] are zero and nothing else of the context has changed. *)
Theorem SHA_Instantiate_unknown_digest (p : SP800_90PRNG_Data_t)
        (ein : pointer) (einl : nat) (nonce : pointer) (nonl : nat)
        (person : pointer) (perl : nat) :
  EVP_get_digestbyname (specific (prng p)) = None ->
  exists p',
    SHA_Instantiate EVP_get_digestbyname evp_ok p ein einl nonce nonl
                    person perl = Some (SP800_90ERROR, p')
    /\ state p' = SP800_90ERROR
    /\ error_reason p' <> String.EmptyString
    /\ evp_log p' = evp_log p
    /\ md_ctx p' = md_ctx p
    /\ V p' = zeros (seedlen (prng p)) ++ skipn (seedlen (prng p)) (V p)
    /\ C p' = C p /\ T p' = T p /\ eBuf p' = eBuf p
    /\ CallCount_c p' = CallCount_c p /\ prng p' = prng p.
Proof.
  intros Hget.
  destruct (SHA_Instantiate_no_digest p ein einl nonce nonl person perl Hget)
    as (p' & Hrun & [Hs He] & Hl & Hc & _ & HV & Hrest).
  exists p'. split; [exact Hrun|]. split; [exact Hs|]. split; [exact He|].
  split; [exact Hl|]. split; [exact Hc|]. split; [exact HV|exact Hrest].
Qed.

(** X8: The error state is never left: on a context that is in the error
    state, [SHA_Instantiate], and when the context has its digest and its
    digest context [SHA_ReSeed] and [SHA_Generate], return [SP800_90ERROR] and the context
    stays in the error state, also when every digest call succeeds. *)
Theorem error_state_is_kept (p : SP800_90PRNG_Data_t)
        (ein : pointer) (einl : nat) (nonce : pointer) (nonl : nat)
        (person : pointer) (perl : nat) (adata : pointer) (adatal : nat)
        (buffer : list byte) (blen : nat) (md : EVP_MD) :
  in_error p ->
  EVP_get_digestbyname (specific (prng p)) = Some md -> EVP_MD_wf md ->
  (forall md', alg_md p = Some md' -> EVP_MD_wf md') ->
  seedlen (prng p) <= length (V p) -> seedlen (prng p) <= length (C p) ->
  blen <= length buffer ->
  (exists p',
      SHA_Instantiate EVP_get_digestbyname evp_ok p ein einl nonce nonl
                      person perl = Some (SP800_90ERROR, p')
      /\ in_error p')
  /\ (md_ctx p <> None -> alg_md p <> None ->
      (exists p',
          SHA_ReSeed evp_ok p ein einl adata adatal
          = Some (SP800_90ERROR, p')
          /\ in_error p')
      /\ (exists p' buffer',
             SHA_Generate evp_ok p buffer blen adata adatal
             = Some (SP800_90ERROR, p', buffer')
             /\ in_error p')).
Proof.
  intros Herr Hget Hmd Hwf HV HC Hroom. split; [|intros _ _; split].
  - destruct (SHA_Instantiate_safe p ein einl nonce nonl person perl md
                Hget Hmd HV HC)
      as (p' & l & Hrun & _ & _ & _ & _ & _ & _ & _ & _ & He & _).
    exists p'. destruct (He Herr) as [Hs Hm].
    rewrite Hrun, Hs. split; [reflexivity|now split].
  - destruct (SHA_ReSeed_safe p ein einl adata adatal Hwf HV HC)
      as (p' & l & Hrun & (_ & _ & _ & _ & He) & _).
    exists p'. destruct (He Herr) as [Hs Hm].
    rewrite Hrun, Hs. split; [reflexivity|now split].
  - destruct (SHA_Generate_safe p buffer blen adata adatal Hwf HV Hroom)
      as (p' & buf' & l & Hrun & (_ & _ & _ & _ & He) & _).
    exists p', buf'. destruct (He Herr) as [Hs Hm].
    rewrite Hrun, Hs. split; [reflexivity|now split].
Qed.

(** X9: on an instance that has its digest and its digest context,
    [SHA_Generate] returns whatever the digest calls return, provided the digest is not empty, [V]
    holds [seedlen] bytes and the buffer holds [blen] bytes.  The caller's buffer keeps its length and its bytes from
    [blen] on.  Of the context it writes to [V], [T] and [eBuf] only: [C],
    the reseed counter, the profile and the digest stay, and [V] keeps its
    length.  The state and the diagnostic change only when a digest call
    failed, and then the context is in the error state. *)
Theorem SHA_Generate_any_outcome (p : SP800_90PRNG_Data_t)
        (buffer : list byte) (blen : nat) (adata : pointer) (adatal : nat) :
  md_ctx p <> None -> alg_md p <> None ->
  (forall md, alg_md p = Some md -> EVP_MD_wf md) ->
  seedlen (prng p) <= length (V p) ->
  blen <= length buffer ->
  exists p' buffer' l,
    SHA_Generate evp_ok p buffer blen adata adatal
    = Some (state p', p', buffer')
    /\ evp_log p' = l ++ evp_log p
    /\ length buffer' = length buffer
    /\ skipn blen buffer' = skipn blen buffer
    /\ C p' = C p /\ CallCount_c p' = CallCount_c p
    /\ prng p' = prng p /\ alg_md p' = alg_md p
    /\ length (V p') = length (V p)
    /\ (Forall (eq true) l ->
        state p' = state p /\ error_reason p' = error_reason p)
    /\ (In false l -> in_error p').
Proof.
  intros _ _ Hwf HV Hroom.
  destruct (SHA_Generate_safe p buffer blen adata adatal Hwf HV Hroom)
    as (p' & buf' & l & Hrun & Hr & Hlen & Hskip & HlV & _).
  destruct Hr as ((Hp & Hn & Ha & _ & Hb) & Hl & Hst & Hf & _).
  exists p', buf', l. split; [exact Hrun|]. split; [exact Hl|].
  split; [exact Hlen|]. split; [exact Hskip|].
  split; [|tauto].
  apply (Hb BufC). intros [H|[H|[H|[]]]]; discriminate.
Qed.

(** X11: When [SHA_Generate] is called without additional input on an
    instance that has its digest and its digest context and one of its
    digest calls fails, the working state is not advanced: [V] and
    [C] are as they were before the call.  In particular this holds when a
    context that was not in the error state comes back in it. *)
Theorem SHA_Generate_failure_keeps_V (p : SP800_90PRNG_Data_t)
        (buffer : list byte) (blen : nat) (adata : pointer) (adatal : nat) :
  md_ctx p <> None -> alg_md p <> None ->
  (forall md, alg_md p = Some md -> EVP_MD_wf md) ->
  seedlen (prng p) <= length (V p) ->
  blen <= length buffer ->
  is_null adata = true \/ adatal = 0 ->
  exists p' buffer' l,
    SHA_Generate evp_ok p buffer blen adata adatal
    = Some (state p', p', buffer')
    /\ evp_log p' = l ++ evp_log p
    /\ (In false l -> V p' = V p /\ C p' = C p)
    /\ (state p <> SP800_90ERROR -> state p' = SP800_90ERROR ->
        V p' = V p /\ C p' = C p).
Proof.
  intros _ _ Hwf HV Hroom Hno.
  destruct (SHA_Generate_safe p buffer blen adata adatal Hwf HV Hroom)
    as (p' & buf' & l & Hrun & Hr & _ & _ & _ & Hkeep).
  destruct Hr as ((_ & _ & _ & _ & Hb) & Hl & Hst & _).
  assert (HC : C p' = C p).
  { apply (Hb BufC). intros [H|[H|[H|[]]]]; discriminate. }
  exists p', buf', l. split; [exact Hrun|]. split; [exact Hl|]. split.
  - intros Hin. split; [exact (Hkeep Hin Hno)|exact HC].
  - intros Hs Hs'. destruct (all_true_or_false l) as [Hall|Hin].
    + destruct (Hst Hall) as [Heq _]. congruence.
    + split; [exact (Hkeep Hin Hno)|exact HC].
Qed.

(** [Hash_df] when the digest call it starts with fails. *)
Lemma Hash_df_first_call_fails (p : SP800_90PRNG_Data_t) (ds : DS)
      (out : ctx_buf) (outl : nat) :
  evp_ok (length (evp_log p)) = false -> 0 < outl ->
  exists p1,
    Hash_df evp_ok p ds out outl = Some p1
    /\ prng p1 = prng p /\ V p1 = V p /\ C p1 = C p
    /\ alg_md p1 = alg_md p /\ in_error p1.
Proof.
  intros Hfail Hpos.
  assert (Hinit : EVP_DigestInit evp_ok p = (false, evp_return false p)).
  { unfold EVP_DigestInit. rewrite Hfail.
    destruct (md_ctx p); [destruct (alg_md p)|]; reflexivity. }
  unfold Hash_df. cbv zeta. cbn [Hash_df_loop].
  destruct (Nat.eqb_spec outl 0) as [Hz|_]; [lia|].
  rewrite Hinit. cbn [negb]. eexists. split; [reflexivity|].
  unfold failed, EVP_MD_CTX_reset, in_error.
  cbn [md_ctx set_state set_error_reason evp_return set_evp_log].
  destruct (md_ctx p); cbn; repeat split; discriminate.
Qed.

(** X12: [SHA_ReSeed] does not look at what [Hash_df] did.  When, on an
    instance that has its digest and its digest context, the digest call it
    starts with fails, it still copies [C] over [V] and derives [C]
    again: it returns [SP800_90ERROR], and the first [seedlen] bytes of [V]
    are those [C] had before the call. *)
Theorem SHA_ReSeed_failure_overwrites_V (p : SP800_90PRNG_Data_t)
        (ein : pointer) (einl : nat) (adata : pointer) (adatal : nat) :
  md_ctx p <> None -> alg_md p <> None ->
  evp_ok (length (evp_log p)) = false ->
  0 < seedlen (prng p) ->
  (forall md, alg_md p = Some md -> EVP_MD_wf md) ->
  seedlen (prng p) <= length (V p) ->
  seedlen (prng p) <= length (C p) ->
  exists p',
    SHA_ReSeed evp_ok p ein einl adata adatal = Some (SP800_90ERROR, p')
    /\ in_error p'
    /\ firstn (seedlen (prng p)) (V p') = firstn (seedlen (prng p)) (C p)
    /\ skipn (seedlen (prng p)) (V p') = skipn (seedlen (prng p)) (V p).
Proof.
  intros _ _ Hfail Hpos Hwf HV HC. unfold SHA_ReSeed. cbv zeta.
  set (n := seedlen (prng p)) in *.
  destruct (Hash_df_first_call_fails p
              (DS_Append (DS_Append (DS_Append (DS_Append DS_Init 1 C01)
                                               n (Ctx BufV)) einl ein)
                         adatal adata) BufC n Hfail Hpos)
    as (p1 & Hrun1 & Hp1 & HV1 & HC1 & Ha1 & He1).
  rewrite Hrun1. rewrite Hp1. fold n.
  set (p2 := set_V (memcpy (V p1) (C p1) n) p1).
  change (prng p2) with (prng p1). rewrite Hp1. fold n.
  destruct (Hash_df_safe p2
              (DS_Append (DS_Append DS_Init 1 C00) n (Ctx BufV)) BufC n)
    as (p3 & l3 & Hrun3 & Hr3 & _).
  - discriminate.
  - change (alg_md p2) with (alg_md p1). rewrite Ha1. exact Hwf.
  - change (get_buf BufC p2) with (C p1). rewrite HC1. exact HC.
  - rewrite Hrun3.
    assert (HV3 : V p3 = memcpy (V p) (C p) n).
    { rewrite <- HV1, <- HC1. change (memcpy (V p1) (C p1) n) with (V p2).
      eapply ran_V; [|exact Hr3]. intros [H|[H|[]]]; discriminate. }
    destruct Hr3 as (_ & _ & _ & _ & He3).
    assert (Herr : in_error p3) by (apply He3; exact He1).
    exists p3. destruct Herr as [Hs Hm]. rewrite Hs.
    split; [reflexivity|]. split; [now split|].
    rewrite HV3. split.
    + apply firstn_memcpy; [lia|exact HC].
    + apply skipn_memcpy. exact HC.
Qed.


(** X14: on an instance that has its digest and its digest context,
    [SHA_ReSeed] returns whatever the digest calls return, provided the digest is not empty and
    [V] and [C] hold [seedlen] bytes.  Of the
    context it writes to [V], [C] and [T] only, and in [V] and [C] to the
    first [seedlen] bytes only: [eBuf], the reseed counter, the profile and
    the digest stay.  The state and the diagnostic change only when a
    digest call failed, and then the context is in the error state. *)
Theorem SHA_ReSeed_any_outcome (p : SP800_90PRNG_Data_t)
        (ein : pointer) (einl : nat) (adata : pointer) (adatal : nat) :
  md_ctx p <> None -> alg_md p <> None ->
  (forall md, alg_md p = Some md -> EVP_MD_wf md) ->
  seedlen (prng p) <= length (V p) ->
  seedlen (prng p) <= length (C p) ->
  exists p' l,
    SHA_ReSeed evp_ok p ein einl adata adatal = Some (state p', p')
    /\ evp_log p' = l ++ evp_log p
    /\ length (V p') = length (V p) /\ length (C p') = length (C p)
    /\ skipn (seedlen (prng p)) (V p') = skipn (seedlen (prng p)) (V p)
    /\ skipn (seedlen (prng p)) (C p') = skipn (seedlen (prng p)) (C p)
    /\ eBuf p' = eBuf p /\ CallCount_c p' = CallCount_c p
    /\ prng p' = prng p /\ alg_md p' = alg_md p
    /\ (Forall (eq true) l ->
        state p' = state p /\ error_reason p' = error_reason p)
    /\ (In false l -> in_error p').
Proof.
  intros _ _ Hwf HV HC.
  destruct (SHA_ReSeed_safe p ein einl adata adatal Hwf HV HC)
    as (p' & l & Hrun & Hr & HlV & HlC & HsV & HsC).
  destruct Hr as ((Hp & Hn & Ha & _ & Hb) & Hl & Hst & Hf & _).
  exists p', l. split; [exact Hrun|]. split; [exact Hl|].
  split; [exact HlV|]. split; [exact HlC|]. split; [exact HsV|].
  split; [exact HsC|]. split; [|tauto].
  apply (Hb BufE). intros [H|[H|[H|[]]]]; discriminate.
Qed.

(** X15: A usable context stays usable: on a context with a digest that
    is not empty, a digest context and [seedlen] bytes in [V] and [C],
    [SHA_ReSeed] and [SHA_Generate] return and leave such a context,
    whatever the digest calls return. *)
Theorem usable_is_kept (p : SP800_90PRNG_Data_t)
        (ein : pointer) (einl : nat) (adata : pointer) (adatal : nat)
        (buffer : list byte) (blen : nat) :
  usable p -> blen <= length buffer ->
  match SHA_ReSeed evp_ok p ein einl adata adatal with
  | Some (_, p') => usable p'
  | None => False
  end
  /\ match SHA_Generate evp_ok p buffer blen adata adatal with
     | Some (_, p', _) => usable p'
     | None => False
     end.
Proof.
  intros Hu Hroom.
  pose proof (usable_wf p Hu) as Hwf.
  pose proof Hu as (_ & _ & HV & HC). split.
  - destruct (SHA_ReSeed_safe p ein einl adata adatal Hwf HV HC)
      as (p' & l & Hrun & Hr & HlV & HlC & _).
    rewrite Hrun. exact (usable_ran _ _ p p' Hu Hr HlV HlC).
  - destruct (SHA_Generate_safe p buffer blen adata adatal Hwf HV Hroom)
      as (p' & buf' & l & Hrun & Hr & _ & _ & HlV & _).
    rewrite Hrun. apply (usable_ran _ _ p p' Hu Hr HlV).
    destruct Hr as ((_ & _ & _ & _ & Hb) & _).
    change (length (get_buf BufC p') = length (C p)).
    rewrite Hb; [reflexivity|]. intros [H|[H|[H|[]]]]; discriminate.
Qed.

End Safety.

(** ** Runs in which every digest call succeeds, compared *)

Section Composition.

Variable evp_ok : nat -> bool.
Variable md : EVP_MD.

Hypothesis evp_ok_all : forall k, evp_ok k = true.
Hypothesis md_length : forall m, length (HASH md m) = md_size md.

Lemma ceil_div_mono (n m d : nat) : n <= m -> ceil_div n d <= ceil_div m d.
Proof.
  intros H. unfold ceil_div. apply Nat.Div0.div_le_mono. lia.
Qed.

(** The output of the specification for [n] bytes starts the output for
    [m >= n] bytes. *)
Lemma Hashgen_spec_prefix (sl : nat) (d : list byte) (n m : nat) :
  0 < md_size md -> n <= m ->
  firstn n (Hashgen_spec md sl d m) = Hashgen_spec md sl d n.
Proof.
  intros Hd Hnm. unfold Hashgen_spec.
  rewrite firstn_firstn, Nat.min_l by exact Hnm.
  set (f := fun i => HASH md (N2be sl (be2N d + N.of_nat i))).
  pose proof (ceil_div_mono n m (md_size md) Hnm) as Hk.
  replace (ceil_div m (md_size md))
    with (ceil_div n (md_size md)
          + (ceil_div m (md_size md) - ceil_div n (md_size md))) by lia.
  rewrite seq_app, map_app, concat_app, firstn_app.
  rewrite (length_blocks f _ (md_size md)) by (intros x; apply md_length).
  rewrite length_seq.
  pose proof (ceil_div_ge n (md_size md) Hd) as Hge.
  replace (n - ceil_div n (md_size md) * md_size md) with 0 by lia.
  now rewrite firstn_O, app_nil_r.
Qed.

(** X6: When every digest call succeeds, [Hash_df] of at least one byte
    leaves no digest in its scratch buffer: the first digest-length bytes of
    [pctx->T] are zero when it returns.  The state, the diagnostic and the
    buffers other than [out] and [T] are as before. *)
Theorem Hash_df_scrubs_T (p : SP800_90PRNG_Data_t) (S : DS) (out : ctx_buf)
        (L : nat) (c0 : EVP_MD_CTX) :
  md_ctx p = Some c0 -> alg_md p = Some md -> 0 < md_size md ->
  out <> BufT -> stable out (dse S) ->
  1 <= L -> L <= length (get_buf out p) ->
  exists p',
    Hash_df evp_ok p S out L = Some p'
    /\ firstn (md_size md) (T p') = zeros (md_size md)
    /\ state p' = state p /\ error_reason p' = error_reason p
    /\ (forall b, b <> out -> b <> BufT -> get_buf b p' = get_buf b p).
Proof.
  intros Hctx Halg Hd Hout Hst HL1 HL.
  destruct (Hash_df_ok evp_ok md evp_ok_all md_length p S out L c0
              Hctx Halg Hd Hout Hst HL)
    as (p' & Hrun & _ & Hfr & _ & HT).
  destruct Hfr as (_ & Hs & He & _ & _ & Hb).
  exists p'. split; [exact Hrun|]. split; [exact (HT HL1)|].
  split; [exact Hs|]. split; [exact He|].
  intros b H1 H2. apply Hb. intros [H|[H|[]]]; congruence.
Qed.

(** X10: When every digest call succeeds, what [SHA_Generate] does to the
    context does not depend on the number of bytes asked for: from the same
    context, a call for [n] bytes and a call for [m >= n] bytes return the
    same state code, the [n] bytes of the first are the first [n] bytes of
    the second, and both leave the same [seedlen] bytes in [V]. *)
Theorem SHA_Generate_prefix (p : SP800_90PRNG_Data_t)
        (buf1 buf2 : list byte) (n m : nat) (adata : pointer) (adatal : nat)
        (c0 : EVP_MD_CTX) :
  md_ctx p = Some c0 -> alg_md p = Some md -> caller_ptr adata ->
  seedlen (prng p) <= length (V p) ->
  OBL (prng p) = md_size md -> 0 < md_size md ->
  n <= m -> n <= length buf1 -> m <= length buf2 ->
  exists p1 out1 p2 out2,
    SHA_Generate evp_ok p buf1 n adata adatal = Some (state p, p1, out1)
    /\ SHA_Generate evp_ok p buf2 m adata adatal = Some (state p, p2, out2)
    /\ firstn n out1 = firstn n out2
    /\ firstn (seedlen (prng p)) (V p1) = firstn (seedlen (prng p)) (V p2).
Proof.
  intros Hctx Halg Hadata HV HOBL Hd Hnm Hn Hm.
  destruct (SHA_Generate_ok evp_ok md evp_ok_all md_length p buf1 n adata
              adatal c0 Hctx Halg Hadata HV HOBL Hd Hn)
    as (p1 & out1 & Hrun1 & Hout1 & HV1 & _).
  destruct (SHA_Generate_ok evp_ok md evp_ok_all md_length p buf2 m adata
              adatal c0 Hctx Halg Hadata HV HOBL Hd Hm)
    as (p2 & out2 & Hrun2 & Hout2 & HV2 & _).
  assert (Hwf : forall md', alg_md p = Some md' -> EVP_MD_wf md').
  { intros md' H. rewrite Halg in H. injection H as <-. now split. }
  destruct (SHA_Generate_safe evp_ok p buf1 n adata adatal Hwf HV Hn)
    as (q1 & o1 & l1 & Hr1 & _ & _ & _ & Hl1 & _).
  destruct (SHA_Generate_safe evp_ok p buf2 m adata adatal Hwf HV Hm)
    as (q2 & o2 & l2 & Hr2 & _ & _ & _ & Hl2 & _).
  rewrite Hrun1 in Hr1. rewrite Hrun2 in Hr2.
  injection Hr1 as _ <- _. injection Hr2 as _ <- _.
  exists p1, out1, p2, out2.
  split; [exact Hrun1|]. split; [exact Hrun2|]. split.
  - pose proof (length_Hashgen_spec md md_length (seedlen (prng p))
                  (mixed_V md p adata adatal) n Hd) as Hlen1.
    pose proof (length_Hashgen_spec md md_length (seedlen (prng p))
                  (mixed_V md p adata adatal) m Hd) as Hlen2.
    rewrite Hout1, Hout2.
    rewrite !firstn_app, Hlen1, Hlen2.
    replace (n - m) with 0 by lia.
    rewrite Nat.sub_diag, !firstn_O, !app_nil_r.
    rewrite (firstn_all2 (n := n)) by lia.
    symmetry. now apply Hashgen_spec_prefix.
  - set (k := seedlen (prng p)) in *.
    assert (H1 : length (firstn k (V p1)) = k)
      by (rewrite length_firstn; lia).
    assert (H2 : length (firstn k (V p2)) = k)
      by (rewrite length_firstn; lia).
    rewrite <- (N2be_be2N (firstn k (V p1))), <- (N2be_be2N (firstn k (V p2))).
    now rewrite H1, H2, HV1, HV2.
Qed.

End Composition.

(** ** The statements above on concrete contexts *)

Lemma sha1_md_wf : EVP_MD_wf SHA1.md.
Proof. split; [cbn; lia|exact sha1_length]. Qed.

Lemma live_ctx_wf (md : EVP_MD) :
  alg_md live_ctx = Some md -> EVP_MD_wf md.
Proof. intros H. inversion H. exact sha1_md_wf. Qed.

Lemma error_ctx_wf (md : EVP_MD) :
  alg_md error_ctx = Some md -> EVP_MD_wf md.
Proof. intros H. inversion H. exact sha1_md_wf. Qed.

Lemma live_ctx_usable : usable live_ctx.
Proof.
  split; [exists SHA1.md; split; [reflexivity|exact sha1_md_wf]|].
  split; [discriminate|]. split; vm_compute; lia.
Qed.

Lemma error_ctx_in_error : in_error error_ctx.
Proof. split; [reflexivity|discriminate]. Qed.

(** [Hash_df] of "abc" to [V], the fourth digest call failing. *)
Lemma Hash_df_any_outcome_witness :
  exists p' l,
    Hash_df (fails_at 3) live_ctx abc_stack BufV 55 = Some p'
    /\ evp_log p' = l ++ evp_log live_ctx
    /\ length (get_buf BufV p') = length (get_buf BufV live_ctx)
    /\ C p' = C live_ctx
    /\ (In false l -> in_error p').
Proof.
  destruct (Hash_df_any_outcome (fails_at 3) live_ctx abc_stack BufV 55)
    as (p' & l & Hrun & Hl & Hb & Hlen & _ & _ & _ & _ & _ & Hf).
  - discriminate.
  - discriminate.
  - discriminate.
  - exact live_ctx_wf.
  - vm_compute. lia.
  - exists p', l. split; [exact Hrun|]. split; [exact Hl|].
    split; [exact Hlen|]. split; [|exact Hf].
    apply (Hb BufC); discriminate.
Defined.

(** [Hash_df] of "abc" to [V] with SHA-1. *)
Lemma Hash_df_scrubs_T_witness :
  exists p',
    Hash_df always_ok live_ctx abc_stack BufV 55 = Some p'
    /\ firstn 20 (T p') = zeros 20
    /\ state p' = state live_ctx.
Proof.
  destruct (Hash_df_scrubs_T always_ok SHA1.md always_ok_all sha1_length
              live_ctx abc_stack BufV 55 EVP_MD_CTX_new)
    as (p' & Hrun & HT & Hs & _).
  - reflexivity.
  - reflexivity.
  - cbn. lia.
  - discriminate.
  - repeat constructor.
  - lia.
  - vm_compute. lia.
  - exists p'. split; [exact Hrun|]. split; [exact HT|exact Hs].
Defined.

(** A provider that knows no digest. *)
Lemma SHA_Instantiate_unknown_digest_witness :
  exists p',
    SHA_Instantiate (fun _ => None) always_ok fresh_ctx
                    (input SHA1_112IntEin) 16 (input SHA1_112IntNon) 8
                    NULL 0 = Some (SP800_90ERROR, p')
    /\ state p' = SP800_90ERROR
    /\ evp_log p' = evp_log fresh_ctx
    /\ md_ctx p' = md_ctx fresh_ctx.
Proof.
  destruct (SHA_Instantiate_unknown_digest (fun _ => None) always_ok
              fresh_ctx (input SHA1_112IntEin) 16 (input SHA1_112IntNon) 8
              NULL 0 eq_refl)
    as (p' & Hrun & Hs & _ & Hl & Hc & _).
  exists p'. split; [exact Hrun|]. split; [exact Hs|].
  split; [exact Hl|exact Hc].
Defined.

(** The three operations on a context in the error state, every digest call
    succeeding. *)
Lemma error_state_is_kept_witness :
  (exists p',
      SHA_Instantiate sha1_provider always_ok error_ctx
                      (input SHA1_112IntEin) 16 (input SHA1_112IntNon) 8
                      NULL 0 = Some (SP800_90ERROR, p'))
  /\ (exists p',
         SHA_ReSeed always_ok error_ctx (input SHA1_112IntEin) 16 NULL 0
         = Some (SP800_90ERROR, p'))
  /\ (exists p' buffer',
         SHA_Generate always_ok error_ctx (zeros 64) 64 NULL 0
         = Some (SP800_90ERROR, p', buffer')).
Proof.
  destruct (error_state_is_kept sha1_provider always_ok error_ctx
              (input SHA1_112IntEin) 16 (input SHA1_112IntNon) 8 NULL 0
              NULL 0 (zeros 64) 64 SHA1.md)
    as ((p1 & Hrun1 & _) & Hrest).
  - exact error_ctx_in_error.
  - reflexivity.
  - exact sha1_md_wf.
  - exact error_ctx_wf.
  - vm_compute. lia.
  - vm_compute. lia.
  - vm_compute. lia.
  - assert (Hctx : md_ctx error_ctx <> None) by discriminate.
    assert (Halg : alg_md error_ctx <> None) by discriminate.
    destruct (Hrest Hctx Halg) as ((p2 & Hrun2 & _) & (p3 & b3 & Hrun3 & _)).
    split; [exists p1; exact Hrun1|].
    split; [exists p2; exact Hrun2|exists p3, b3; exact Hrun3].
Defined.

(** A generate of 30 bytes into a buffer of 32, the third digest call
    failing. *)
Lemma SHA_Generate_any_outcome_witness :
  exists p' buffer' l,
    SHA_Generate (fails_at 2) live_ctx (repeat xff 32) 30 NULL 0
    = Some (state p', p', buffer')
    /\ evp_log p' = l ++ evp_log live_ctx
    /\ length buffer' = length (repeat xff 32)
    /\ skipn 30 buffer' = skipn 30 (repeat xff 32)
    /\ C p' = C live_ctx
    /\ (In false l -> in_error p').
Proof.
  destruct (SHA_Generate_any_outcome (fails_at 2) live_ctx (repeat xff 32)
              30 NULL 0)
    as (p' & b' & l & Hrun & Hl & Hlen & Hskip & HC & _ & _ & _ & _ & _ & Hf).
  - discriminate.
  - discriminate.
  - exact live_ctx_wf.
  - vm_compute. lia.
  - vm_compute. lia.
  - exists p', b', l. split; [exact Hrun|]. split; [exact Hl|].
    split; [exact Hlen|]. split; [exact Hskip|]. split; [exact HC|exact Hf].
Defined.

(** Ten bytes and thirty bytes from the same context. *)
Lemma SHA_Generate_prefix_witness :
  exists p1 out1 p2 out2,
    SHA_Generate always_ok live_ctx (zeros 64) 10 NULL 0
    = Some (state live_ctx, p1, out1)
    /\ SHA_Generate always_ok live_ctx (repeat xff 32) 30 NULL 0
       = Some (state live_ctx, p2, out2)
    /\ firstn 10 out1 = firstn 10 out2
    /\ firstn (seedlen (prng live_ctx)) (V p1)
       = firstn (seedlen (prng live_ctx)) (V p2).
Proof.
  apply (SHA_Generate_prefix always_ok SHA1.md always_ok_all sha1_length
           live_ctx (zeros 64) (repeat xff 32) 10 30 NULL 0 EVP_MD_CTX_new).
  - reflexivity.
  - reflexivity.
  - exact I.
  - vm_compute. lia.
  - reflexivity.
  - cbn. lia.
  - lia.
  - vm_compute. lia.
  - vm_compute. lia.
Defined.

(** A generate without additional input, the third digest call failing. *)
Lemma SHA_Generate_failure_keeps_V_witness :
  exists p' buffer' l,
    SHA_Generate (fails_at 2) live_ctx (zeros 64) 64 NULL 0
    = Some (state p', p', buffer')
    /\ evp_log p' = l ++ evp_log live_ctx
    /\ (In false l -> V p' = V live_ctx /\ C p' = C live_ctx).
Proof.
  destruct (SHA_Generate_failure_keeps_V (fails_at 2) live_ctx (zeros 64) 64
              NULL 0)
    as (p' & b' & l & Hrun & Hl & Hkeep & _).
  - discriminate.
  - discriminate.
  - exact live_ctx_wf.
  - vm_compute. lia.
  - vm_compute. lia.
  - left. reflexivity.
  - exists p', b', l. split; [exact Hrun|]. split; [exact Hl|exact Hkeep].
Defined.

(** A reseed whose first digest call fails. *)
Lemma SHA_ReSeed_failure_overwrites_V_witness :
  exists p',
    SHA_ReSeed (fails_at 0) live_ctx (input SHA1_112IntEin) 16 NULL 0
    = Some (SP800_90ERROR, p')
    /\ firstn (seedlen (prng live_ctx)) (V p')
       = firstn (seedlen (prng live_ctx)) (C live_ctx).
Proof.
  destruct (SHA_ReSeed_failure_overwrites_V (fails_at 0) live_ctx
              (input SHA1_112IntEin) 16 NULL 0)
    as (p' & Hrun & _ & HV & _).
  - discriminate.
  - discriminate.
  - reflexivity.
  - cbn. lia.
  - exact live_ctx_wf.
  - vm_compute. lia.
  - vm_compute. lia.
  - exists p'. split; [exact Hrun|exact HV].
Defined.


(** A reseed, the sixth digest call failing. *)
Lemma SHA_ReSeed_any_outcome_witness :
  exists p' l,
    SHA_ReSeed (fails_at 5) live_ctx (input SHA1_112IntEin) 16 NULL 0
    = Some (state p', p')
    /\ evp_log p' = l ++ evp_log live_ctx
    /\ length (V p') = length (V live_ctx)
    /\ length (C p') = length (C live_ctx)
    /\ eBuf p' = eBuf live_ctx
    /\ (In false l -> in_error p').
Proof.
  destruct (SHA_ReSeed_any_outcome (fails_at 5) live_ctx
              (input SHA1_112IntEin) 16 NULL 0)
    as (p' & l & Hrun & Hl & HlV & HlC & _ & _ & HE & _ & _ & _ & _ & Hf).
  - discriminate.
  - discriminate.
  - exact live_ctx_wf.
  - vm_compute. lia.
  - vm_compute. lia.
  - exists p', l. split; [exact Hrun|]. split; [exact Hl|].
    split; [exact HlV|]. split; [exact HlC|]. split; [exact HE|exact Hf].
Defined.

(** A reseed and a generate on a usable context, the eighth digest call
    failing. *)
Lemma usable_is_kept_witness :
  match SHA_ReSeed (fails_at 7) live_ctx (input SHA1_112IntEin) 16 NULL 0
  with
  | Some (_, p') => usable p'
  | None => False
  end
  /\ match SHA_Generate (fails_at 7) live_ctx (zeros 64) 64 NULL 0 with
     | Some (_, p', _) => usable p'
     | None => False
     end.
Proof.
  apply (usable_is_kept (fails_at 7) live_ctx (input SHA1_112IntEin) 16
           NULL 0 (zeros 64) 64).
  - exact live_ctx_usable.
  - vm_compute. lia.
Defined.
